(** * Points Chess: the game rules and the search engine of
    [points-chess-assistant-revised.py], embedded in Rocq.

    The development follows the Python source class by class:
    - [PyNum]: Python numbers (unbounded [int], binary64 [float]) with the
      mixed arithmetic the evaluator and the search rely on;
    - [Uci]: squares, pieces and moves in coordinate notation;
    - [RulesEngine]: the part of the python-chess [Board] interface the
      program calls;
    - [PointsChessGame]: [make_move], [skip_turn], [evaluate_position];
    - [ChessEngine]: the time-bounded iterative-deepening negamax search,
      over an explicit object store, clock and transposition table;
    - [Chess]: a concrete board implementing [RulesEngine], used to run the
      program on actual positions;
    - [ManualPositionSetup] and [ChessUI]: setting up a position, and what
      a mouse click does;
    - [PointsChessEngine] and [ChessBoardWidget]: the engine of
      [points-chess-assistant.py] and the click handling of
      [chess-improved-ui.py]. *)

From Stdlib Require Import ZArith Floats Ascii String DecimalString DecimalZ List Bool Lia.
From stdpp Require Import base option list gmap strings.

Set Default Proof Using "Type".
Set Warnings "-inexact-float".
Local Open Scope Z_scope.

(* ===================================================================== *)
(** * Python numbers *)
(* ===================================================================== *)

Module PyNum.

(** A Python number is an [int] of any size or a binary64 [float]. *)
Inductive num : Type :=
| PInt (z : Z)
| PFloat (f : float).

(** [float(z)]: the nearest binary64 value, ties to even.  (Python raises
    [OverflowError] beyond the binary64 range, about 1.8e308; the rounding
    of the specification yields an infinity there.) *)
Definition float_of_Z (z : Z) : float :=
  SF2Prim (binary_normalize prec emax z 0 false).

Definition to_float (x : num) : float :=
  match x with
  | PInt z => float_of_Z z
  | PFloat f => f
  end.

(** Binary arithmetic: exact on two ints, binary64 as soon as one operand
    is a float. *)
Definition add (x y : num) : num :=
  match x, y with
  | PInt a, PInt b => PInt (a + b)
  | _, _ => PFloat (PrimFloat.add (to_float x) (to_float y))
  end.

Definition sub (x y : num) : num :=
  match x, y with
  | PInt a, PInt b => PInt (a - b)
  | _, _ => PFloat (PrimFloat.sub (to_float x) (to_float y))
  end.

Definition mul (x y : num) : num :=
  match x, y with
  | PInt a, PInt b => PInt (a * b)
  | _, _ => PFloat (PrimFloat.mul (to_float x) (to_float y))
  end.

Definition neg (x : num) : num :=
  match x with
  | PInt a => PInt (- a)
  | PFloat f => PFloat (PrimFloat.opp f)
  end.

(** Comparison of an int with a float is exact in Python: the float is
    taken at its mathematical value [(-1)^s * m * 2^e]. *)
Definition Z_compare_SF (z : Z) (f : spec_float) : option comparison :=
  match f with
  | S754_nan => None
  | S754_infinity true => Some Gt
  | S754_infinity false => Some Lt
  | S754_zero _ => Some (z ?= 0)
  | S754_finite s m e =>
      let v := if s then Z.neg m else Z.pos m in
      if 0 <=? e then Some (z ?= v * 2 ^ e)
      else Some (z * 2 ^ (- e) ?= v)
  end.

Definition float_compare (a b : float) : option comparison :=
  match PrimFloat.compare a b with
  | FEq => Some Eq
  | FLt => Some Lt
  | FGt => Some Gt
  | FNotComparable => None
  end.

Definition compare (x y : num) : option comparison :=
  match x, y with
  | PInt a, PInt b => Some (a ?= b)
  | PInt a, PFloat g => Z_compare_SF a (Prim2SF g)
  | PFloat f, PInt b => CompOpp <$> Z_compare_SF b (Prim2SF f)
  | PFloat f, PFloat g => float_compare f g
  end.

(** [x < y], [x > y], [x >= y], [x == y]; every comparison with a NaN is
    false. *)
Definition ltb (x y : num) : bool :=
  match compare x y with Some Lt => true | _ => false end.
Definition gtb (x y : num) : bool := ltb y x.
Definition geb (x y : num) : bool :=
  match compare x y with Some Gt | Some Eq => true | _ => false end.
Definition eqb (x y : num) : bool :=
  match compare x y with Some Eq => true | _ => false end.

(** The builtin [max(x, y)]: the first argument unless the second is
    strictly greater. *)
Definition max (x y : num) : num := if gtb y x then y else x.

Definition inf : num := PFloat infinity.

End PyNum.

Export PyNum (num, PInt, PFloat).

Declare Scope num_scope.
Delimit Scope num_scope with num.
Bind Scope num_scope with num.
Infix "+" := PyNum.add : num_scope.
Infix "-" := PyNum.sub : num_scope.
Infix "*" := PyNum.mul : num_scope.
Notation "- x" := (PyNum.neg x) : num_scope.
Infix "<?" := PyNum.ltb : num_scope.
Infix ">?" := PyNum.gtb (at level 70) : num_scope.
Infix ">=?" := PyNum.geb : num_scope.


(* ===================================================================== *)
(** * Squares, pieces and moves (python-chess [chess.Move]) *)
(* ===================================================================== *)

Module Uci.

(** [chess.PAWN .. chess.KING] are the integers 1..6. *)
Inductive PieceType : Set := PAWN | KNIGHT | BISHOP | ROOK | QUEEN | KING.

#[global] Instance PieceType_eq_dec : EqDecision PieceType.
Proof. solve_decision. Defined.

(** [chess.WHITE = True], [chess.BLACK = False]. *)
Definition Color : Set := bool.
Definition WHITE : Color := true.
Definition BLACK : Color := false.

Record Piece : Set := { piece_type : PieceType; color : Color }.

#[global] Instance Piece_eq_dec : EqDecision Piece.
Proof. solve_decision. Defined.

(** Squares are the integers 0..63, [a1 = 0], [b1 = 1], ..., [h8 = 63]. *)
Definition Square : Set := nat.

Definition square_file (sq : Square) : nat := (sq mod 8)%nat.
Definition square_rank (sq : Square) : nat := (sq / 8)%nat.

Definition FILE_NAMES : list ascii := list_ascii_of_string "abcdefgh".
Definition RANK_NAMES : list ascii := list_ascii_of_string "12345678".

(** [SQUARE_NAMES = [f + r for r in RANK_NAMES for f in FILE_NAMES]] *)
Definition SQUARE_NAMES : list string :=
  Eval vm_compute in
  flat_map (fun r => map (fun f => String f (String r EmptyString)) FILE_NAMES)
           RANK_NAMES.

(** [PIECE_SYMBOLS = [None, "p", "n", "b", "r", "q", "k"]] *)
Definition piece_symbol (pt : PieceType) : ascii :=
  match pt with
  | PAWN => "p" | KNIGHT => "n" | BISHOP => "b"
  | ROOK => "r" | QUEEN => "q" | KING => "k"
  end%char.

Definition piece_of_symbol (c : ascii) : option PieceType :=
  List.find (fun pt => Ascii.eqb (piece_symbol pt) c)
            [PAWN; KNIGHT; BISHOP; ROOK; QUEEN; KING].

(** [l.index(x)], with [None] for [ValueError]. *)
Fixpoint index_of (x : string) (l : list string) : option nat :=
  match l with
  | [] => None
  | y :: l' => if String.eqb y x then Some O else S <$> index_of x l'
  end.

Definition parse_square (s : string) : option Square := index_of s SQUARE_NAMES.
Definition square_name (sq : Square) : string := nth sq SQUARE_NAMES EmptyString.

(** ASCII [str.lower] and [str.upper] on one character. *)
Definition lower (c : ascii) : ascii :=
  let n := nat_of_ascii c in
  if ((65 <=? n) && (n <=? 90))%nat then ascii_of_nat (n + 32) else c.
Definition upper (c : ascii) : ascii :=
  let n := nat_of_ascii c in
  if ((97 <=? n) && (n <=? 122))%nat then ascii_of_nat (n - 32) else c.

(** A move: origin, destination, promotion piece and, for variants with
    drops, the dropped piece.  The null move is [a1a1] with nothing else. *)
Record Move : Set := {
  from_square : Square;
  to_square : Square;
  promotion : option PieceType;
  drop : option PieceType
}.

#[global] Instance Move_eq_dec : EqDecision Move.
Proof. solve_decision. Defined.

Definition null_move : Move :=
  {| from_square := O; to_square := O; promotion := None; drop := None |}.

(** [chess.Move.from_uci]; [None] stands for the [ValueError] it raises.
    Strings are byte strings here. *)
Definition from_uci (uci : string) : option Move :=
  if String.eqb uci "0000" then Some null_move
  else if (String.length uci =? 4)%nat
          && bool_decide (String.get 1 uci = Some "@"%char) then
    c ← String.get 0 uci;
    d ← piece_of_symbol (lower c);
    sq ← parse_square (substring 2 2 uci);
    Some {| from_square := sq; to_square := sq; promotion := None; drop := Some d |}
  else if ((4 <=? String.length uci) && (String.length uci <=? 5))%nat then
    f ← parse_square (substring 0 2 uci);
    t ← parse_square (substring 2 2 uci);
    p ← (if (String.length uci =? 5)%nat
         then c ← String.get 4 uci; Some <$> piece_of_symbol c
         else Some None);
    if (f =? t)%nat then None
    else Some {| from_square := f; to_square := t; promotion := p; drop := None |}
  else None.

(** [chess.Move.uci] *)
Definition uci (m : Move) : string :=
  match drop m, promotion m with
  | Some d, _ =>
      String (upper (piece_symbol d)) (String "@"%char (square_name (to_square m)))
  | None, Some p =>
      square_name (from_square m) ++ square_name (to_square m)
        ++ String (piece_symbol p) EmptyString
  | None, None =>
      if bool_decide (m = null_move) then "0000"
      else square_name (from_square m) ++ square_name (to_square m)
  end%string.

Definition mk_move (f t : Square) : Move :=
  {| from_square := f; to_square := t; promotion := None; drop := None |}.

Arguments mk_move (f t)%_nat_scope.

(** The squares of the castling moves: [chess.E1], [chess.G1], ... *)
Definition A1 : Square := 0%nat.
Definition C1 : Square := 2%nat.
Definition E1 : Square := 4%nat.
Definition G1 : Square := 6%nat.
Definition H1 : Square := 7%nat.
Definition A8 : Square := 56%nat.
Definition C8 : Square := 58%nat.
Definition E8 : Square := 60%nat.
Definition G8 : Square := 62%nat.
Definition H8 : Square := 63%nat.

(** [board._from_chess960(False, from_square, to_square, promotion, drop)]
    of python-chess, on a board whose kings stand on the squares [kings]:
    a king's move from e1 (e8) onto the corner h1 or a1 (h8 or a8) is the
    notation of castling in which the king takes its rook, and is read as
    the castling move to g1 or c1 (g8 or c8).  Every other move is itself. *)
Definition _from_chess960 (kings : Square -> bool) (m : Move) : Move :=
  if bool_decide (promotion m = None) && bool_decide (drop m = None) then
    if bool_decide (from_square m = E1) && kings E1 then
      if bool_decide (to_square m = H1) then mk_move E1 G1
      else if bool_decide (to_square m = A1) then mk_move E1 C1
      else m
    else if bool_decide (from_square m = E8) && kings E8 then
      if bool_decide (to_square m = H8) then mk_move E8 G8
      else if bool_decide (to_square m = A8) then mk_move E8 C8
      else m
    else m
  else m.

End Uci.

Export Uci.


(* ===================================================================== *)
(** * The rules engine the program is written against *)
(* ===================================================================== *)

(** The operations of python-chess's [chess.Board] that the program calls.
    Move generation, attack detection and FEN handling belong to that
    library; the program only relies on this interface.

    [push] is documented to expect a pseudo-legal move; the library asserts
    that a piece stands on the origin square and raises [AssertionError]
    otherwise.  [push_ok b m] is that precondition, [push b m] the position
    reached when it holds.

    The program uses [board.legal_moves] in two ways: it runs through it,
    which is [legal_moves], and it asks [move in board.legal_moves], which
    is [is_legal] below. *)
Class RulesEngine : Type := {
  Board : Type;
  board_from_fen : string -> option Board;   (* [chess.Board(fen)], [None] = [ValueError] *)
  fen : Board -> string;                     (* [board.fen()] *)
  turn : Board -> Color;                     (* [board.turn] *)
  piece_at : Board -> Square -> option Piece;
  legal_moves : Board -> list Move;          (* [list(board.legal_moves)], in generation order *)
  push_ok : Board -> Move -> bool;
  push : Board -> Move -> Board;
  is_check : Board -> bool;
  is_checkmate : Board -> bool;
  is_attacked_by : Board -> Color -> Square -> bool;
}.

(** The contract of the library that the search relies on: a legal move
    can be pushed. *)
Definition PushesLegalMoves (E : RulesEngine) : Prop :=
  forall (b : Board) (m : Move), m ∈ legal_moves b -> push_ok b m = true.

(** [board.kings & BB_SQUARES[square]]: a king of either colour stands
    on the square. *)
Definition king_on {E : RulesEngine} (b : Board) (square : Square) : bool :=
  match piece_at b square with
  | Some p => bool_decide (piece_type p = KING)
  | None => false
  end.

(** [move in board.legal_moves].  The library answers this test with
    [board.is_legal(move)] and not by running through the generated
    moves: a generated move passes it, and so does the king-takes-rook
    notation of a generated castling move ([e1h1] for [e1g1], [e1a1] for
    [e1c1], and the same on the eighth rank), which [is_legal] reads
    through [_from_chess960].  Nothing else passes. *)
Definition is_legal {E : RulesEngine} (b : Board) (move : Move) : bool :=
  let generated := legal_moves b in
  if bool_decide (move ∈ generated) then true
  else bool_decide (_from_chess960 (king_on b) move ∈ generated).

(** A move between two different squares of the board, not a drop. *)
Definition well_formed (m : Move) : Prop :=
  (from_square m < 64)%nat /\ (to_square m < 64)%nat
  /\ from_square m <> to_square m /\ Uci.drop m = None.

(** The other part of the library's contract: the notation of a legal
    move reads back as that move. *)
Definition ReadsBackLegalMoves (E : RulesEngine) : Prop :=
  forall (b : Board) (m : Move), m ∈ legal_moves b -> from_uci (uci m) = Some m.

(* ===================================================================== *)
(** * class PointsChessGame *)
(* ===================================================================== *)

(** The keys of the [moves_played] and [points_captured] dictionaries. *)
Inductive Player : Set := white | black.

#[global] Instance Player_eq_dec : EqDecision Player.
Proof. solve_decision. Defined.

(** A dictionary [{'white': w, 'black': b}]. *)
Record Tally : Set := { at_white : Z; at_black : Z }.

#[global] Instance Tally_eq_dec : EqDecision Tally.
Proof. solve_decision. Defined.

Definition tally_get (d : Tally) (p : Player) : Z :=
  match p with white => at_white d | black => at_black d end.

Definition tally_set (d : Tally) (p : Player) (v : Z) : Tally :=
  match p with
  | white => {| at_white := v; at_black := at_black d |}
  | black => {| at_white := at_white d; at_black := v |}
  end.

Notation "d .[ p ]" := (tally_get d p) (at level 1, format "d .[ p ]").

(** [self.winner]: [None], ['white'], ['black'] or ['draw']. *)
Inductive Winner : Set := WinnerIs (p : Player) | Draw.

#[global] Instance Winner_eq_dec : EqDecision Winner.
Proof. solve_decision. Defined.

(** ['white' if self.current_player == chess.WHITE else 'black'] *)
Definition player_of (c : Color) : Player := if c then white else black.

(** [PIECE_VALUES] *)
Definition PIECE_VALUES (pt : PieceType) : Z :=
  match pt with
  | PAWN => 1
  | KNIGHT => 3
  | BISHOP => 3
  | ROOK => 5
  | QUEEN => 9
  | KING => 0
  end.

Module PointsChessGame.
Section Game.
Context {E : RulesEngine}.

(** The attributes of a game object, by value. *)
Record Game : Type := {
  board : Board;
  max_moves : Z;
  moves_played : Tally;
  points_captured : Tally;
  current_player : Color;
  game_over : bool;
  winner : option Winner;
  last_move_was_capture : bool;
  extra_move_granted : bool
}.

Definition set_board (g : Game) (b : Board) : Game :=
  {| board := b; max_moves := max_moves g; moves_played := moves_played g;
     points_captured := points_captured g; current_player := current_player g;
     game_over := game_over g; winner := winner g;
     last_move_was_capture := last_move_was_capture g;
     extra_move_granted := extra_move_granted g |}.

Definition set_moves_played (g : Game) (d : Tally) : Game :=
  {| board := board g; max_moves := max_moves g; moves_played := d;
     points_captured := points_captured g; current_player := current_player g;
     game_over := game_over g; winner := winner g;
     last_move_was_capture := last_move_was_capture g;
     extra_move_granted := extra_move_granted g |}.

Definition set_points_captured (g : Game) (d : Tally) : Game :=
  {| board := board g; max_moves := max_moves g; moves_played := moves_played g;
     points_captured := d; current_player := current_player g;
     game_over := game_over g; winner := winner g;
     last_move_was_capture := last_move_was_capture g;
     extra_move_granted := extra_move_granted g |}.

Definition set_current_player (g : Game) (c : Color) : Game :=
  {| board := board g; max_moves := max_moves g; moves_played := moves_played g;
     points_captured := points_captured g; current_player := c;
     game_over := game_over g; winner := winner g;
     last_move_was_capture := last_move_was_capture g;
     extra_move_granted := extra_move_granted g |}.

(** [self.game_over = True; self.winner = w] *)
Definition set_game_over (g : Game) (w : Winner) : Game :=
  {| board := board g; max_moves := max_moves g; moves_played := moves_played g;
     points_captured := points_captured g; current_player := current_player g;
     game_over := true; winner := Some w;
     last_move_was_capture := last_move_was_capture g;
     extra_move_granted := extra_move_granted g |}.

Definition set_last_move_was_capture (g : Game) (v : bool) : Game :=
  {| board := board g; max_moves := max_moves g; moves_played := moves_played g;
     points_captured := points_captured g; current_player := current_player g;
     game_over := game_over g; winner := winner g;
     last_move_was_capture := v;
     extra_move_granted := extra_move_granted g |}.

Definition set_extra_move_granted (g : Game) (v : bool) : Game :=
  {| board := board g; max_moves := max_moves g; moves_played := moves_played g;
     points_captured := points_captured g; current_player := current_player g;
     game_over := game_over g; winner := winner g;
     last_move_was_capture := last_move_was_capture g;
     extra_move_granted := v |}.

(** [__init__], on the board [chess.Board(fen="8/8/8/8/8/8/8/8 w - - 0 1")]. *)
Definition init (empty : Board) : Game :=
  {| board := empty; max_moves := 6;
     moves_played := {| at_white := 0; at_black := 0 |};
     points_captured := {| at_white := 0; at_black := 0 |};
     current_player := WHITE; game_over := false; winner := None;
     last_move_was_capture := false; extra_move_granted := false |}.

Definition reset_game_state (self : Game) : Game :=
  {| board := board self; max_moves := max_moves self;
     moves_played := {| at_white := 0; at_black := 0 |};
     points_captured := {| at_white := 0; at_black := 0 |};
     current_player := current_player self; game_over := false; winner := None;
     last_move_was_capture := false; extra_move_granted := false |}.

Definition set_custom_position (self : Game) (fen : string) : bool * Game :=
  match board_from_fen fen with
  | Some b => (true, reset_game_state (set_board self b))
  | None => (false, self)
  end.

Definition _is_square_attacked (self : Game) (square : Square) (by_color : Color) : bool :=
  is_attacked_by (board self) by_color square.

(** The winner on points, as both termination checks compute it. *)
Definition winner_by_points (points : Tally) : Winner :=
  if points.[white] >? points.[black] then WinnerIs white
  else if points.[black] >? points.[white] then WinnerIs black
  else Draw.

Definition make_move (self : Game) (move_uci : string) : bool * Game :=
  match from_uci move_uci with
  | None => (false, self)                      (* except ValueError *)
  | Some move =>
    if negb (is_legal (board self) move) then (false, self) else
    (* Check if move is capturing a piece *)
    let captured_piece := piece_at (board self) (to_square move) in
    let self := set_last_move_was_capture self (bool_decide (captured_piece <> None)) in
    (* Track points for capture *)
    let '(captured_points, self) :=
      match captured_piece with
      | Some cp =>
          let player := player_of (current_player self) in
          (PIECE_VALUES (piece_type cp),
           if (moves_played self).[player] =? max_moves self - 1 then
             let supported_capture :=
               _is_square_attacked self (to_square move) (negb (current_player self)) in
             if supported_capture then set_extra_move_granted self true else self
           else self)
      | None => (0, self)
      end in
    (* Execute the move *)
    let self := set_board self (push (board self) move) in
    (* Update points *)
    let player := player_of (current_player self) in
    let self := set_points_captured self
      (tally_set (points_captured self) player
                 ((points_captured self).[player] + captured_points)) in
    (* Update moves count *)
    let self := set_moves_played self
      (tally_set (moves_played self) player ((moves_played self).[player] + 1)) in
    (* Check for checkmate *)
    if is_checkmate (board self) then
      (true, set_game_over self (WinnerIs player))
    else
      (* Check for game end by move count *)
      let self :=
        if ((moves_played self).[white] >=? max_moves self)
           && ((moves_played self).[black] >=? max_moves self)
           && negb (extra_move_granted self)
        then set_game_over self (winner_by_points (points_captured self))
        else self in
      (* Handle extra move logic *)
      let self :=
        if extra_move_granted self then set_extra_move_granted self false
        else set_current_player self (negb (current_player self)) in
      (true, self)
  end.

Definition get_legal_moves (self : Game) : list string :=
  map uci (legal_moves (board self)).

Definition evaluate_position (self : Game) : num :=
  if game_over self then
    match winner self with
    | Some (WinnerIs white) => PInt 10000
    | Some (WinnerIs black) => PInt (-10000)
    | _ => PInt 0
    end
  else
    (* Material evaluation *)
    let material_eval :=
      PInt ((points_captured self).[white] - (points_captured self).[black]) in
    (* Consider checkmate threats *)
    let material_eval :=
      if is_check (board self) then
        if bool_decide (turn (board self) = WHITE)
        then (material_eval - PInt 5)%num
        else (material_eval + PInt 5)%num
      else material_eval in
    (* Consider move count *)
    let white_moves_left := max_moves self - (moves_played self).[white] in
    let black_moves_left := max_moves self - (moves_played self).[black] in
    let material_eval :=
      if (white_moves_left <=? 2) || (black_moves_left <=? 2)
      then (material_eval * PFloat 1.5)%num
      else material_eval in
    (* Look for immediate captures *)
    fold_left
      (fun material_eval move =>
         match piece_at (board self) (to_square move) with
         | Some cp =>
             let capture_value := PIECE_VALUES (piece_type cp) in
             if bool_decide (turn (board self) = WHITE)
             then (material_eval + PInt capture_value * PFloat 0.1)%num
             else (material_eval - PInt capture_value * PFloat 0.1)%num
         | None => material_eval
         end)
      (legal_moves (board self)) material_eval.

Definition skip_turn (self : Game) : bool * Game :=
  let player := player_of (current_player self) in
  let self := set_moves_played self
    (tally_set (moves_played self) player ((moves_played self).[player] + 1)) in
  let self := set_current_player self (negb (current_player self)) in
  (* Check for game end *)
  let self :=
    if ((moves_played self).[white] >=? max_moves self)
       && ((moves_played self).[black] >=? max_moves self)
    then set_game_over self (winner_by_points (points_captured self))
    else self in
  (true, self).

End Game.
End PointsChessGame.

Export PointsChessGame.

(* ===================================================================== *)
(** * Objects, exceptions and the clock *)
(* ===================================================================== *)

(** The search works on game objects that refer to a board object and two
    dictionaries.  Objects live in a store and are named by their index;
    creating an object appends to the store, an in-place update rewrites
    the cell. *)
Module Objects.

(** Exceptions: the search's own [TimeoutError]; [ValueError] from
    [chess.Move.from_uci]; [AssertionError] from [board.push]; [IndexError]
    from indexing a list.
    [InvalidReference] has no Python counterpart: it marks a reference to
    an object that is not in the store. *)
Inductive exn : Set :=
  TimeoutError | ValueError | AssertionError | IndexError | InvalidReference.

#[global] Instance exn_eq_dec : EqDecision exn.
Proof. solve_decision. Defined.

Inductive outcome (A : Type) : Type :=
| Return (a : A)
| Raise (e : exn).
Arguments Return {A} a.
Arguments Raise {A} e.

(** Objects are named by their index in the store. *)
Abbreviation loc := nat (only parsing).

Section Objects.
Context {E : RulesEngine}.

(** A [PointsChessGame] instance: three references and six plain
    attributes. *)
Record GameObj : Type := {
  board_ref : loc;
  moves_played_ref : loc;
  points_captured_ref : loc;
  obj_max_moves : Z;
  obj_current_player : Color;
  obj_game_over : bool;
  obj_winner : option Winner;
  obj_last_move_was_capture : bool;
  obj_extra_move_granted : bool
}.

Record Store : Type := {
  games : list GameObj;
  boards : list Board;
  dicts : list Tally
}.

(** The attribute values reachable from the game object at [r]. *)
Definition load_game (st : Store) (r : loc) : option Game :=
  o ← games st !! r;
  b ← boards st !! board_ref o;
  mp ← dicts st !! moves_played_ref o;
  pc ← dicts st !! points_captured_ref o;
  Some {| board := b; max_moves := obj_max_moves o;
          moves_played := mp; points_captured := pc;
          current_player := obj_current_player o;
          game_over := obj_game_over o; winner := obj_winner o;
          last_move_was_capture := obj_last_move_was_capture o;
          extra_move_granted := obj_extra_move_granted o |}.

(** The in-place effect of a method of the game object at [r] that leaves
    it with attribute values [g]: the board object and the two dictionaries
    are updated where they are ([board.push], [d[player] += n]), the plain
    attributes are assigned. *)
Definition update_game (st : Store) (r : loc) (g : Game) : Store :=
  match games st !! r with
  | None => st
  | Some o =>
      {| games := <[r := {| board_ref := board_ref o;
                            moves_played_ref := moves_played_ref o;
                            points_captured_ref := points_captured_ref o;
                            obj_max_moves := max_moves g;
                            obj_current_player := current_player g;
                            obj_game_over := game_over g;
                            obj_winner := winner g;
                            obj_last_move_was_capture := last_move_was_capture g;
                            obj_extra_move_granted := extra_move_granted g |}]>
                  (games st);
         boards := <[board_ref o := board g]> (boards st);
         dicts := <[moves_played_ref o := moves_played g]>
                    (<[points_captured_ref o := points_captured g]> (dicts st)) |}
  end.

(** A game object whose references are live and whose two dictionaries are
    distinct objects. *)
Definition valid_game (st : Store) (r : loc) : Prop :=
  exists o, games st !! r = Some o
    /\ (board_ref o < length (boards st))%nat
    /\ (moves_played_ref o < length (dicts st))%nat
    /\ (points_captured_ref o < length (dicts st))%nat
    /\ moves_played_ref o <> points_captured_ref o.

(** Every object of [st] is still there, unchanged, in [st']. *)
Definition store_extends (st st' : Store) : Prop :=
  games st `prefix_of` games st'
  /\ boards st `prefix_of` boards st'
  /\ dicts st `prefix_of` dicts st'.

(** [{'score': s, 'depth': d}] *)
Record TTEntry : Type := { score : num; depth : nat }.

(** What a computation of the engine can read and change: the object
    store, [self.transposition_table], and how often [time.time()] has
    been called. *)
Record World : Type := {
  store : Store;
  transposition_table : gmap string TTEntry;
  ticks : nat
}.

Definition M (A : Type) : Type := World -> outcome A * World.

Definition ret {A} (a : A) : M A := fun w => (Return a, w).
Definition raise {A} (e : exn) : M A := fun w => (Raise e, w).
Definition bind {A B} (m : M A) (k : A -> M B) : M B :=
  fun w => match m w with
           | (Return a, w') => k a w'
           | (Raise e, w') => (Raise e, w')
           end.

(** [try: m except e: h] *)
Definition try_except {A} (m : M A) (e : exn) (h : M A) : M A :=
  fun w => match m w with
           | (Raise e', w') => if bool_decide (e' = e) then h w' else (Raise e', w')
           | r => r
           end.

Definition get_store : M Store := fun w => (Return (store w), w).
Definition put_store (st : Store) : M unit :=
  fun w => (Return tt, {| store := st; transposition_table := transposition_table w;
                          ticks := ticks w |}).
Definition get_table : M (gmap string TTEntry) :=
  fun w => (Return (transposition_table w), w).
Definition put_table (t : gmap string TTEntry) : M unit :=
  fun w => (Return tt, {| store := store w; transposition_table := t; ticks := ticks w |}).

(** Reading through a reference. *)
Definition deref {A} (o : option A) : M A :=
  match o with Some a => ret a | None => raise InvalidReference end.

End Objects.
End Objects.

Export Objects.

Notation "x <- m ;; k" := (Objects.bind m (fun x => k))
  (at level 100, m at next level, right associativity,
   format "'[v' x  <-  m  ;;  '/' k ']'").
Notation "m ;;; k" := (Objects.bind m (fun _ => k))
  (at level 100, right associativity).

(* ===================================================================== *)
(** * class ChessEngine *)
(* ===================================================================== *)

(** [str(d)] for a dictionary [{'white': w, 'black': b}]. *)
Definition str_int (z : Z) : string := NilZero.string_of_int (Z.to_int z).

Definition str_tally (d : Tally) : string :=
  ("{'white': " ++ str_int (at_white d) ++ ", 'black': " ++ str_int (at_black d) ++ "}")%string.

(** [_initialize_piece_square_tables] *)
Definition piece_square_tables (pt : PieceType) : list Z :=
  match pt with
  | PAWN =>
    [
      0; 0; 0; 0; 0; 0; 0; 0;
      5; 10; 10; (-20); (-20); 10; 10; 5;
      5; (-5); (-10); 0; 0; (-10); (-5); 5;
      0; 0; 0; 20; 20; 0; 0; 0;
      5; 5; 10; 25; 25; 10; 5; 5;
      10; 10; 20; 30; 30; 20; 10; 10;
      50; 50; 50; 50; 50; 50; 50; 50;
      0; 0; 0; 0; 0; 0; 0; 0
    ]
  | KNIGHT =>
    [
      (-50); (-40); (-30); (-30); (-30); (-30); (-40); (-50);
      (-40); (-20); 0; 5; 5; 0; (-20); (-40);
      (-30); 5; 10; 15; 15; 10; 5; (-30);
      (-30); 0; 15; 20; 20; 15; 0; (-30);
      (-30); 5; 15; 20; 20; 15; 5; (-30);
      (-30); 0; 10; 15; 15; 10; 0; (-30);
      (-40); (-20); 0; 0; 0; 0; (-20); (-40);
      (-50); (-40); (-30); (-30); (-30); (-30); (-40); (-50)
    ]
  | BISHOP =>
    [
      (-20); (-10); (-10); (-10); (-10); (-10); (-10); (-20);
      (-10); 5; 0; 0; 0; 0; 5; (-10);
      (-10); 10; 10; 10; 10; 10; 10; (-10);
      (-10); 0; 10; 10; 10; 10; 0; (-10);
      (-10); 5; 5; 10; 10; 5; 5; (-10);
      (-10); 0; 5; 10; 10; 5; 0; (-10);
      (-10); 0; 0; 0; 0; 0; 0; (-10);
      (-20); (-10); (-10); (-10); (-10); (-10); (-10); (-20)
    ]
  | ROOK =>
    [
      0; 0; 0; 5; 5; 0; 0; 0;
      (-5); 0; 0; 0; 0; 0; 0; (-5);
      (-5); 0; 0; 0; 0; 0; 0; (-5);
      (-5); 0; 0; 0; 0; 0; 0; (-5);
      (-5); 0; 0; 0; 0; 0; 0; (-5);
      (-5); 0; 0; 0; 0; 0; 0; (-5);
      5; 10; 10; 10; 10; 10; 10; 5;
      0; 0; 0; 0; 0; 0; 0; 0
    ]
  | QUEEN =>
    [
      (-20); (-10); (-10); (-5); (-5); (-10); (-10); (-20);
      (-10); 0; 5; 0; 0; 0; 0; (-10);
      (-10); 5; 5; 5; 5; 5; 0; (-10);
      0; 0; 5; 5; 5; 5; 0; (-5);
      (-5); 0; 5; 5; 5; 5; 0; (-5);
      (-10); 0; 5; 5; 5; 5; 0; (-10);
      (-10); 0; 0; 0; 0; 0; 0; (-10);
      (-20); (-10); (-10); (-5); (-5); (-10); (-10); (-20)
    ]
  | KING =>
    [
      20; 30; 10; 0; 0; 10; 30; 20;
      20; 20; 0; 0; 0; 0; 20; 20;
      (-10); (-20); (-20); (-20); (-20); (-20); (-20); (-10);
      (-20); (-30); (-30); (-40); (-40); (-30); (-30); (-20);
      (-30); (-40); (-40); (-50); (-50); (-40); (-40); (-30);
      (-30); (-40); (-40); (-50); (-50); (-40); (-40); (-30);
      (-30); (-40); (-40); (-50); (-50); (-40); (-40); (-30);
      (-30); (-40); (-40); (-50); (-50); (-40); (-40); (-30)
    ]
  end.

(** [table[sq]]; squares are below 64 and the tables have 64 entries. *)
Definition table_at (table : list Z) (sq : Square) : Z := nth sq table 0.

(** [scored_moves.sort(key=lambda x: x[1], reverse=True)]: descending by
    score, moves of equal score in their original order. *)
Fixpoint insert_by_score (x : string * num) (l : list (string * num))
  : list (string * num) :=
  match l with
  | [] => [x]
  | y :: l' => if (snd x <? snd y)%num then y :: insert_by_score x l' else x :: l
  end.

Definition sort_by_score (l : list (string * num)) : list (string * num) :=
  foldr insert_by_score [] l.

(** Truth value of a result that is [None] or a string. *)
Definition truthy (m : option string) : bool :=
  match m with
  | Some s => negb (String.eqb s "")
  | None => false
  end.

Module ChessEngine.
Section Engine.
Context {E : RulesEngine}.

(** [time.time()] is read from a clock: its [n]-th call returns [clock n]. *)
Variable clock : nat -> float.
(** [self.game] and [self.max_time]. *)
Variable self_game : loc.
Variable max_time : num.

Definition time : M num :=
  fun w => (Return (PFloat (clock (ticks w))),
            {| store := store w; transposition_table := transposition_table w;
               ticks := S (ticks w) |}).

(** [time.time() - start_time > time_limit * 0.8] *)
Definition out_of_time (start_time time_limit : num) : M bool :=
  now <- time ;;
  ret ((now - start_time) >? (time_limit * PFloat 0.8))%num.

(** Attribute reads through a reference. *)
Definition game_obj (r : loc) : M GameObj :=
  st <- get_store ;; deref (games st !! r).

Definition board_of (r : loc) : M Board :=
  o <- game_obj r ;; st <- get_store ;; deref (boards st !! board_ref o).

Definition current_player_of (r : loc) : M Color :=
  o <- game_obj r ;; ret (obj_current_player o).

Definition game_over_of (r : loc) : M bool :=
  o <- game_obj r ;; ret (obj_game_over o).

(** Object creation: the new object goes to the end of the store. *)
Definition new_board (b : Board) : M loc :=
  st <- get_store ;;
  put_store {| games := games st; boards := boards st ++ [b]; dicts := dicts st |} ;;;
  ret (length (boards st)).

Definition new_dict (d : Tally) : M loc :=
  st <- get_store ;;
  put_store {| games := games st; boards := boards st; dicts := dicts st ++ [d] |} ;;;
  ret (length (dicts st)).

Definition new_game_obj (o : GameObj) : M loc :=
  st <- get_store ;;
  put_store {| games := games st ++ [o]; boards := boards st; dicts := dicts st |} ;;;
  ret (length (games st)).

(** [b.copy()] for the board object at [r]. *)
Definition board_copy (r : loc) : M loc :=
  st <- get_store ;; b <- deref (boards st !! r) ;; new_board b.

(** [d.copy()] for the dictionary at [r]. *)
Definition dict_copy (r : loc) : M loc :=
  st <- get_store ;; d <- deref (dicts st !! r) ;; new_dict d.

(** [b.push(move)] on the board object at [r]. *)
Definition push_at (r : loc) (move : Move) : M unit :=
  st <- get_store ;;
  b <- deref (boards st !! r) ;;
  if push_ok b move
  then put_store {| games := games st; boards := <[r := push b move]> (boards st);
                    dicts := dicts st |}
  else raise AssertionError.

(** [game.make_move(move_uci)] on the game object at [r]. *)
Definition make_move_at (r : loc) (move_uci : string) : M bool :=
  st <- get_store ;;
  g <- deref (load_game st r) ;;
  let '(ok, g') := make_move g move_uci in
  put_store (update_game st r g') ;;;
  ret ok.

(** [game.get_legal_moves()] *)
Definition get_legal_moves_at (r : loc) : M (list string) :=
  b <- board_of r ;; ret (map uci (legal_moves b)).

(** [_clone_game]: a new game object with its own copy of the board and of
    both dictionaries.  (The board and dictionaries that [PointsChessGame()]
    creates are replaced at once and are not kept in the store.) *)
Definition _clone_game (game : loc) : M loc :=
  o <- game_obj game ;;
  new_board_ref <- board_copy (board_ref o) ;;
  new_moves_played <- dict_copy (moves_played_ref o) ;;
  new_points_captured <- dict_copy (points_captured_ref o) ;;
  new_game_obj {| board_ref := new_board_ref;
                  moves_played_ref := new_moves_played;
                  points_captured_ref := new_points_captured;
                  obj_max_moves := 6;
                  obj_current_player := obj_current_player o;
                  obj_game_over := obj_game_over o;
                  obj_winner := obj_winner o;
                  obj_last_move_was_capture := obj_last_move_was_capture o;
                  obj_extra_move_granted := obj_extra_move_granted o |}.

(** [_get_position_hash] *)
Definition _get_position_hash (game : loc) : M string :=
  b <- board_of game ;;
  o <- game_obj game ;;
  st <- get_store ;;
  mp <- deref (dicts st !! moves_played_ref o) ;;
  ret (fen b ++ str_tally mp)%string.

(** [_evaluate_position] *)
Definition _evaluate_position (game : loc) : M num :=
  st <- get_store ;;
  g <- deref (load_game st game) ;;
  let eval_score := evaluate_position g in
  ret (if bool_decide (current_player g = BLACK) then (- eval_score)%num else eval_score).

(** [board_copy = self.game.board.copy(); board_copy.push(move);
    board_copy.is_check()] *)
Definition gives_check (move : Move) : M bool :=
  o <- game_obj self_game ;;
  copy <- board_copy (board_ref o) ;;
  push_at copy move ;;;
  st <- get_store ;;
  b <- deref (boards st !! copy) ;;
  ret (is_check b).

Definition parse_uci (move_uci : string) : M Move :=
  match from_uci move_uci with
  | Some move => ret move
  | None => raise ValueError
  end.

(** The score [_order_moves] gives to one move. *)
Definition order_score (move_uci : string) : M num :=
  move <- parse_uci move_uci ;;
  let score := PInt 0 in
  (* Prioritize captures *)
  b <- board_of self_game ;;
  let captured_piece := piece_at b (to_square move) in
  b <- board_of self_game ;;
  let score :=
    match captured_piece with
    | Some cp =>
        let score := (score + PInt (PIECE_VALUES (piece_type cp) * 100))%num in
        match piece_at b (from_square move) with
        | Some attacker => (score + PInt (10 - PIECE_VALUES (piece_type attacker)))%num
        | None => score
        end
    | None => score
    end in
  (* Prioritize checks *)
  check <- gives_check move ;;
  let score := if check then (score + PInt 50)%num else score in
  (* Use piece-square tables *)
  b <- board_of self_game ;;
  let score :=
    match piece_at b (from_square move) with
    | Some piece =>
        let to_sq := to_square move in
        (score + PInt (table_at (piece_square_tables (piece_type piece)) to_sq)
                 * PFloat 0.1)%num
    | None => score
    end in
  ret score.

Fixpoint score_moves (moves : list string) : M (list (string * num)) :=
  match moves with
  | [] => ret []
  | move_uci :: rest =>
      score <- order_score move_uci ;;
      scored <- score_moves rest ;;
      ret ((move_uci, score) :: scored)
  end.

Definition _order_moves (moves : list string) : M (list string) :=
  scored_moves <- score_moves moves ;;
  ret (map fst (sort_by_score scored_moves)).

(** The score [_get_fast_move] gives to one move. *)
Definition fast_score (move_uci : string) : M num :=
  move <- parse_uci move_uci ;;
  b <- board_of self_game ;;
  let captured_piece := piece_at b (to_square move) in
  let score := PInt 0 in
  (* Material value of capture *)
  let score :=
    match captured_piece with
    | Some cp => (score + PInt (PIECE_VALUES (piece_type cp) * 10))%num
    | None => score
    end in
  (* Piece-square table value *)
  let from_sq := from_square move in
  let to_sq := to_square move in
  b <- board_of self_game ;;
  let score :=
    match piece_at b from_sq with
    | Some piece =>
        let score :=
          (score - PInt (table_at (piece_square_tables (piece_type piece)) from_sq)
                   * PFloat 0.1)%num in
        (score + PInt (table_at (piece_square_tables (piece_type piece)) to_sq)
                 * PFloat 0.1)%num
    | None => score
    end in
  (* Check if move gives check *)
  check <- gives_check move ;;
  ret (if check then (score + PInt 5)%num else score).

(** The comparison that both root loops use to update the best move. *)
Definition better (player : Color) (score best_score : num) : bool :=
  if bool_decide (player = WHITE) then (score >? best_score)%num
  else (score <? best_score)%num.

Definition initial_best_score (player : Color) : num :=
  if bool_decide (player = WHITE) then (- PyNum.inf)%num else PyNum.inf.

Fixpoint fast_loop (legal_moves : list string) (best_score : num) (best_move : string)
  : M string :=
  match legal_moves with
  | [] => ret best_move
  | move_uci :: rest =>
      score <- fast_score move_uci ;;
      player <- current_player_of self_game ;;
      if better player score best_score
      then fast_loop rest score move_uci
      else fast_loop rest best_score best_move
  end.

Definition _get_fast_move (legal_moves : list string) : M string :=
  player <- current_player_of self_game ;;
  let best_score := initial_best_score player in
  match legal_moves with
  | [] => raise IndexError
  | first :: _ => fast_loop legal_moves best_score first
  end.

(** The loop over the ordered moves of a node of [_negamax]; [child] is
    the recursive call on a successor position. *)
Fixpoint negamax_loop (child : loc -> num -> num -> M num) (game : loc)
    (beta : num) (ordered_moves : list string) (alpha max_score : num) : M num :=
  match ordered_moves with
  | [] => ret max_score
  | move_uci :: rest =>
      game_copy <- _clone_game game ;;
      make_move_at game_copy move_uci ;;;
      s <- child game_copy (- beta)%num (- alpha)%num ;;
      let score := (- s)%num in
      let max_score := PyNum.max max_score score in
      let alpha := PyNum.max alpha score in
      if (alpha >=? beta)%num then ret max_score
      else negamax_loop child game beta rest alpha max_score
  end.

(** Storing a result in [self.transposition_table]. *)
Definition table_store (pos_hash : string) (s : num) (d : nat) : M unit :=
  t <- get_table ;;
  put_table (<[pos_hash := {| score := s; depth := d |}]> t).

(** [pos_hash in table and table[pos_hash]['depth'] >= depth] *)
Definition table_lookup (t : gmap string TTEntry) (pos_hash : string) (d : nat)
  : option num :=
  match t !! pos_hash with
  | Some entry => if (d <=? depth entry)%nat then Some (score entry) else None
  | None => None
  end.

(** The leaf case of [_negamax]. *)
Definition negamax_leaf (game : loc) (depth : nat) (color : Z) (pos_hash : string)
  : M num :=
  e <- _evaluate_position game ;;
  let score := (PInt color * e)%num in
  table_store pos_hash score depth ;;;
  ret score.

(** [_negamax].  The depth is a natural number: the root calls it with
    [depth - 1] for [depth] in [range(1, 10)], and every recursive call
    happens at a depth other than 0. *)
Fixpoint _negamax (game : loc) (depth : nat) (alpha beta : num) (color : Z)
    (start_time time_limit : num) {struct depth} : M num :=
  (* Check time *)
  late <- out_of_time start_time time_limit ;;
  if late : bool then raise TimeoutError else
  (* Position hash for transposition table *)
  pos_hash <- _get_position_hash game ;;
  (* Check transposition table *)
  t <- get_table ;;
  match table_lookup t pos_hash depth with
  | Some cached => ret cached
  | None =>
      match depth with
      | O => negamax_leaf game depth color pos_hash
      | S depth' =>
          over <- game_over_of game ;;
          if over : bool then negamax_leaf game depth color pos_hash else
          let max_score := (- PyNum.inf)%num in
          (* Order moves for better pruning *)
          legal <- get_legal_moves_at game ;;
          ordered_moves <- _order_moves legal ;;
          max_score <-
            negamax_loop
              (fun game_copy a b =>
                 _negamax game_copy depth' a b (- color) start_time time_limit)
              game beta ordered_moves alpha max_score ;;
          (* Store in transposition table *)
          table_store pos_hash max_score depth ;;;
          ret max_score
      end
  end.

(** The loop over the ordered root moves of [_iterative_deepening_search]. *)
Fixpoint root_loop (depth : nat) (start_time time_limit : num)
    (ordered_moves : list string) (best_score : num) (best_move : string)
  : M string :=
  match ordered_moves with
  | [] => ret best_move
  | move_uci :: rest =>
      (* Check time *)
      late <- out_of_time start_time time_limit ;;
      if late : bool then raise TimeoutError else
      (* Create a copy of the game to simulate the move *)
      game_copy <- _clone_game self_game ;;
      make_move_at game_copy move_uci ;;;
      (* Evaluate the move *)
      player <- current_player_of self_game ;;
      score <- _negamax game_copy (depth - 1) (- PyNum.inf)%num PyNum.inf
                 (if bool_decide (player = WHITE) then -1 else 1)
                 start_time time_limit ;;
      (* Invert score for black *)
      player <- current_player_of self_game ;;
      let score := if bool_decide (player = BLACK) then (- score)%num else score in
      (* Update best move *)
      player <- current_player_of self_game ;;
      if better player score best_score
      then root_loop depth start_time time_limit rest score move_uci
      else root_loop depth start_time time_limit rest best_score best_move
  end.

Definition _iterative_deepening_search (depth : nat) (time_limit : num)
  : M (option string) :=
  start_time <- time ;;
  legal_moves <- get_legal_moves_at self_game ;;
  match legal_moves with
  | [] => ret None
  | first :: _ =>
      player <- current_player_of self_game ;;
      let best_score := initial_best_score player in
      let best_move := first in
      (* Order moves: captures first, then checks, then others *)
      ordered_moves <- _order_moves legal_moves ;;
      best <- root_loop depth start_time time_limit ordered_moves best_score best_move ;;
      ret (Some best)
  end.

(** [self._iterative_deepening_search(depth, time_limit - (time.time() -
    start_time))]: the clock is read for the argument, then the search at
    that depth runs. *)
Definition search_at_depth (start_time time_limit : num) (depth : nat)
  : M (option string) :=
  now <- time ;;
  _iterative_deepening_search depth (time_limit - (now - start_time))%num.

(** The deepening loop of [find_best_move] over the remaining depths.  The
    body of the [try] yields the best move to continue with; the handler of
    [TimeoutError] leaves the loop. *)
Fixpoint deepening_loop (start_time time_limit : num) (depths : list nat)
    (best_move : string) : M string :=
  match depths with
  | [] => ret best_move
  | depth :: rest =>
      late <- out_of_time start_time time_limit ;;
      if late : bool then ret best_move else
      next <-
        try_except
          (move <- search_at_depth start_time time_limit depth ;;
           ret (Some (if truthy move then default best_move move else best_move)))
          TimeoutError
          (ret None) ;;
      match next with
      | Some best_move => deepening_loop start_time time_limit rest best_move
      | None => ret best_move
      end
  end.

Definition find_best_move (time_limit : option num) : M (option string) :=
  let time_limit := default max_time time_limit in
  start_time <- time ;;
  legal_moves <- get_legal_moves_at self_game ;;
  match legal_moves with
  | [] => ret None
  | _ :: _ =>
      (* Start with a basic 1-ply search to get a move quickly *)
      best_move <- _get_fast_move legal_moves ;;
      (* Iterative deepening - increase depth until time runs out *)
      best_move <- deepening_loop start_time time_limit (seq 1 9) best_move ;;
      ret (Some best_move)
  end.

(** ** The deepening loop as a sequence of rounds *)

(** Why the deepening stopped: all depths done, the deadline passed at the
    start of a round, a round was aborted by [TimeoutError], or a round
    failed with another exception. *)
Inductive Stop : Set := Exhausted | Deadline | Aborted | Failed (e : exn).

(** The results of the rounds that ran to completion, in order of depth,
    the reason why no further round completed, and the world then. *)
Fixpoint deepening_trace (start_time time_limit : num) (depths : list nat)
    (w : World) : list (option string) * Stop * World :=
  match depths with
  | [] => ([], Exhausted, w)
  | depth :: rest =>
      match out_of_time start_time time_limit w with
      | (Return true, w1) => ([], Deadline, w1)
      | (Return false, w1) =>
          match search_at_depth start_time time_limit depth w1 with
          | (Return move, w2) =>
              let '(completed, why, w') :=
                deepening_trace start_time time_limit rest w2 in
              (move :: completed, why, w')
          | (Raise TimeoutError, w2) => ([], Aborted, w2)
          | (Raise e, w2) => ([], Failed e, w2)
          end
      | (Raise e, w1) => ([], Failed e, w1)
      end
  end.

End Engine.
End ChessEngine.

Export ChessEngine.

(** The move of the deepest completed round that produced one, the
    fallback when there is none. *)
Definition deepest_result (fallback : string) (completed : list (option string))
  : string :=
  fold_left (fun best move => if truthy move then default best move else best)
            completed fallback.

(* ===================================================================== *)
(** * A concrete board *)
(* ===================================================================== *)

(** Chess positions with the move generation, attack detection, move
    application and FEN text of a standard chess board, so that the program
    can be run on actual positions.  It plays the role of [chess.Board]. *)
Module Chess.

Record Position : Set := {
  placement : list (option Piece);     (* 64 squares, a1 first *)
  side : Color;                        (* side to move *)
  castle_K : bool; castle_Q : bool;    (* castling rights *)
  castle_k : bool; castle_q : bool;
  ep_square : option Square;
  halfmove_clock : nat;
  fullmove_number : nat
}.

Definition piece_at (b : Position) (sq : Square) : option Piece :=
  mjoin (placement b !! sq).

Definition file_of (sq : Square) : Z := Z.of_nat (sq mod 8).
Definition rank_of (sq : Square) : Z := Z.of_nat (sq / 8).
Definition square_at (f r : Z) : Square := Z.to_nat (r * 8 + f).

(** Squares from h8 down to a1: the order in which the generator scans. *)
Definition SQUARES_REVERSED : list Square := Eval vm_compute in rev (seq 0 64).

Definition has_piece (b : Position) (c : Color) (pt : PieceType) (sq : Square) : bool :=
  bool_decide (piece_at b sq = Some {| piece_type := pt; color := c |}).

Definition occupied_by (b : Position) (c : Color) (sq : Square) : bool :=
  match piece_at b sq with
  | Some p => bool_decide (color p = c)
  | None => false
  end.

(** The [n] squares that follow [(f, r)] in direction [(df, dr)] are empty. *)
Fixpoint clear_path (b : Position) (f r df dr : Z) (n : nat) : bool :=
  match n with
  | O => true
  | S n' =>
      match piece_at b (square_at (f + df) (r + dr)) with
      | None => clear_path b (f + df) (r + dr) df dr n'
      | Some _ => false
      end
  end.

(** The piece [p] standing on [from] attacks the square [to]. *)
Definition piece_attacks (b : Position) (p : Piece) (from to : Square) : bool :=
  let df := file_of to - file_of from in
  let dr := rank_of to - rank_of from in
  let slide := clear_path b (file_of from) (rank_of from) (Z.sgn df) (Z.sgn dr)
                 (Z.to_nat (Z.max (Z.abs df) (Z.abs dr)) - 1) in
  let diagonal := (Z.abs df =? Z.abs dr) && negb (df =? 0) in
  let straight := ((df =? 0) || (dr =? 0)) && negb ((df =? 0) && (dr =? 0)) in
  match piece_type p with
  | PAWN => (Z.abs df =? 1) && (dr =? (if color p then 1 else -1))
  | KNIGHT => ((Z.abs df =? 1) && (Z.abs dr =? 2)) || ((Z.abs df =? 2) && (Z.abs dr =? 1))
  | KING => (Z.max (Z.abs df) (Z.abs dr) =? 1)
  | BISHOP => diagonal && slide
  | ROOK => straight && slide
  | QUEEN => (diagonal || straight) && slide
  end.

Definition attacks (b : Position) (from to : Square) : bool :=
  match piece_at b from with
  | Some p => piece_attacks b p from to
  | None => false
  end.

Definition is_attacked_by (b : Position) (c : Color) (sq : Square) : bool :=
  existsb (fun from => occupied_by b c from && attacks b from sq) SQUARES_REVERSED.

(** The king of colour [c], the one on the highest square if there are
    several. *)
Definition king (b : Position) (c : Color) : option Square :=
  List.find (has_piece b c KING) SQUARES_REVERSED.

Definition is_check (b : Position) : bool :=
  match king b (side b) with
  | Some k => is_attacked_by b (negb (side b)) k
  | None => false
  end.

(** Castling rights that are backed by a king and a rook on their
    original squares. *)
Definition can_castle_kingside (b : Position) (c : Color) : bool :=
  (if c then castle_K b else castle_k b)
  && has_piece b c KING (if c then 4 else 60)%nat
  && has_piece b c ROOK (if c then 7 else 63)%nat.

Definition can_castle_queenside (b : Position) (c : Color) : bool :=
  (if c then castle_Q b else castle_q b)
  && has_piece b c KING (if c then 4 else 60)%nat
  && has_piece b c ROOK (if c then 0 else 56)%nat.

Definition set_square (l : list (option Piece)) (sq : Square) (p : option Piece)
  : list (option Piece) := <[sq := p]> l.

Definition is_castling (b : Position) (m : Move) : bool :=
  match piece_at b (from_square m) with
  | Some p => bool_decide (piece_type p = KING)
              && (Z.abs (file_of (to_square m) - file_of (from_square m)) =? 2)
              && (rank_of (to_square m) =? rank_of (from_square m))
  | None => false
  end.

Definition is_en_passant (b : Position) (m : Move) : bool :=
  match piece_at b (from_square m) with
  | Some p => bool_decide (piece_type p = PAWN)
              && bool_decide (ep_square b = Some (to_square m))
              && negb (file_of (to_square m) =? file_of (from_square m))
              && bool_decide (piece_at b (to_square m) = None)
  | None => false
  end.

(** [board.push]'s precondition: a piece stands on the origin square. *)
Definition push_ok (b : Position) (m : Move) : bool :=
  bool_decide (piece_at b (from_square m) <> None).

(** A king of either colour stands on the square. *)
Definition kings (b : Position) (sq : Square) : bool :=
  match piece_at b sq with
  | Some p => bool_decide (piece_type p = KING)
  | None => false
  end.

(** [board.push]: the position after the move.  The piece that arrives is
    of the colour to move.  Castling written as the king taking its rook
    is castling, as in the library, which keeps both notations apart only
    in its move stack. *)
Definition push (b : Position) (m : Move) : Position :=
  let m := _from_chess960 (kings b) m in
  let from := from_square m in
  let to := to_square m in
  match piece_at b from with
  | None => b
  | Some p =>
      let pawn_move := bool_decide (piece_type p = PAWN) in
      let capture := negb (bool_decide (piece_at b to = None)) in
      let arriving :=
        {| piece_type := default (piece_type p) (promotion m); color := side b |} in
      let pl := set_square (placement b) from None in
      let pl := set_square pl to (Some arriving) in
      (* the captured pawn of an en passant capture *)
      let pl := if is_en_passant b m
                then set_square pl (square_at (file_of to) (rank_of from)) None
                else pl in
      (* the rook of a castling move *)
      let pl :=
        if is_castling b m then
          if (file_of from <? file_of to) then
            set_square (set_square pl (square_at 7 (rank_of from)) None)
                       (square_at 5 (rank_of from))
                       (Some {| piece_type := ROOK; color := side b |})
          else
            set_square (set_square pl (square_at 0 (rank_of from)) None)
                       (square_at 3 (rank_of from))
                       (Some {| piece_type := ROOK; color := side b |})
        else pl in
      let touched sq := bool_decide (from = sq) || bool_decide (to = sq) in
      let king_moved c :=
        bool_decide (piece_type p = KING) && bool_decide (side b = c) in
      {| placement := pl;
         side := negb (side b);
         castle_K := can_castle_kingside b WHITE && negb (touched 7%nat)
                     && negb (touched 4%nat) && negb (king_moved WHITE);
         castle_Q := can_castle_queenside b WHITE && negb (touched 0%nat)
                     && negb (touched 4%nat) && negb (king_moved WHITE);
         castle_k := can_castle_kingside b BLACK && negb (touched 63%nat)
                     && negb (touched 60%nat) && negb (king_moved BLACK);
         castle_q := can_castle_queenside b BLACK && negb (touched 56%nat)
                     && negb (touched 60%nat) && negb (king_moved BLACK);
         ep_square :=
           if pawn_move && (Z.abs (rank_of to - rank_of from) =? 2)
           then Some (square_at (file_of from) ((rank_of from + rank_of to) / 2))
           else None;
         halfmove_clock := if pawn_move || capture then O else S (halfmove_clock b);
         fullmove_number := if side b then fullmove_number b else S (fullmove_number b) |}
  end.

(** Promotion pieces in generation order. *)
Definition PROMOTIONS : list PieceType := [QUEEN; ROOK; BISHOP; KNIGHT].

Definition pawn_moves_to (from to : Square) : list Move :=
  if (rank_of to =? 0) || (rank_of to =? 7)
  then map (fun pt => {| from_square := from; to_square := to;
                         promotion := Some pt; drop := None |}) PROMOTIONS
  else [mk_move from to].

Definition own (b : Position) (pt_is_pawn : bool) (sq : Square) : bool :=
  match piece_at b sq with
  | Some p => bool_decide (color p = side b)
              && Bool.eqb (bool_decide (piece_type p = PAWN)) pt_is_pawn
  | None => false
  end.

Definition piece_moves (b : Position) : list Move :=
  flat_map (fun from =>
    if own b false from then
      map (mk_move from)
          (List.filter (fun to => attacks b from to && negb (occupied_by b (side b) to))
                       SQUARES_REVERSED)
    else []) SQUARES_REVERSED.

Definition castling_moves (b : Position) : list Move :=
  let c := side b in
  let r := if c then 0 else 7 in
  let k := square_at 4 r in
  let free f := bool_decide (piece_at b (square_at f r) = None) in
  let safe f := negb (is_attacked_by b (negb c) (square_at f r)) in
  (if can_castle_kingside b c && free 5 && free 6 && safe 4 && safe 5 && safe 6
   then [mk_move k (square_at 6 r)] else [])
  ++
  (if can_castle_queenside b c && free 1 && free 2 && free 3
      && safe 4 && safe 3 && safe 2
   then [mk_move k (square_at 2 r)] else []).

Definition pawn_captures (b : Position) : list Move :=
  flat_map (fun from =>
    if own b true from then
      flat_map (pawn_moves_to from)
               (List.filter
                  (fun to => attacks b from to && occupied_by b (negb (side b)) to)
                  SQUARES_REVERSED)
    else []) SQUARES_REVERSED.

Definition forward (b : Position) : Z := if side b then 1 else -1.

Definition pawn_single_pushes (b : Position) : list Move :=
  flat_map (fun from =>
    let r := rank_of from + forward b in
    if own b true from && (0 <=? r) && (r <=? 7)
       && bool_decide (piece_at b (square_at (file_of from) r) = None)
    then pawn_moves_to from (square_at (file_of from) r)
    else []) SQUARES_REVERSED.

Definition pawn_double_pushes (b : Position) : list Move :=
  flat_map (fun from =>
    let r1 := rank_of from + forward b in
    let r2 := rank_of from + 2 * forward b in
    if own b true from && (rank_of from =? (if side b then 1 else 6))
       && bool_decide (piece_at b (square_at (file_of from) r1) = None)
       && bool_decide (piece_at b (square_at (file_of from) r2) = None)
    then [mk_move from (square_at (file_of from) r2)]
    else []) SQUARES_REVERSED.

Definition en_passant_moves (b : Position) : list Move :=
  match ep_square b with
  | Some target =>
      if bool_decide (piece_at b target = None) then
        flat_map (fun from =>
          if own b true from && attacks b from target
             && (rank_of from =? (if side b then 4 else 3))
          then [mk_move from target] else []) SQUARES_REVERSED
      else []
  | None => []
  end.

Definition pseudo_legal_moves (b : Position) : list Move :=
  piece_moves b ++ castling_moves b ++ pawn_captures b
  ++ pawn_single_pushes b ++ pawn_double_pushes b ++ en_passant_moves b.

(** A move is safe when it does not leave the mover's king attacked. *)
Definition is_safe (b : Position) (m : Move) : bool :=
  let b' := push b m in
  match king b' (side b) with
  | Some k => negb (is_attacked_by b' (negb (side b)) k)
  | None => true
  end.

(** Legal moves.  In check, the king's moves are generated first. *)
Definition legal_moves (b : Position) : list Move :=
  let safe := List.filter (is_safe b) (pseudo_legal_moves b) in
  if is_check b then
    let from_king m := bool_decide (Some (from_square m) = king b (side b)) in
    List.filter from_king safe ++ List.filter (fun m => negb (from_king m)) safe
  else safe.

Definition is_checkmate (b : Position) : bool :=
  is_check b && bool_decide (legal_moves b = []).

(** ** FEN text *)

Definition piece_letter (p : Piece) : ascii :=
  if color p then upper (piece_symbol (piece_type p)) else piece_symbol (piece_type p).

Definition digit_char (n : nat) : ascii := ascii_of_nat (48 + n).

(** One rank of the board part, files a to h; [empty] counts the empty
    squares not yet written. *)
Fixpoint fen_rank (row : list (option Piece)) (empty : nat) : string :=
  match row with
  | [] => if (empty =? 0)%nat then EmptyString else String (digit_char empty) EmptyString
  | None :: row' => fen_rank row' (S empty)
  | Some p :: row' =>
      let rest := String (piece_letter p) (fen_rank row' O) in
      if (empty =? 0)%nat then rest else String (digit_char empty) rest
  end.

Definition rank_squares (b : Position) (r : nat) : list (option Piece) :=
  map (fun f => piece_at b (r * 8 + f)%nat) (seq 0 8).

Definition board_fen (b : Position) : string :=
  String.concat "/" (map (fun r => fen_rank (rank_squares b r) O) (rev (seq 0 8))).

Definition castling_fen (b : Position) : string :=
  let flags :=
    ((if can_castle_kingside b WHITE then "K" else "")
     ++ (if can_castle_queenside b WHITE then "Q" else "")
     ++ (if can_castle_kingside b BLACK then "k" else "")
     ++ (if can_castle_queenside b BLACK then "q" else ""))%string in
  if String.eqb flags "" then "-"%string else flags.

Definition has_legal_en_passant (b : Position) : bool :=
  existsb (is_safe b) (en_passant_moves b).

Definition fen (b : Position) : string :=
  (board_fen b ++ " " ++ (if side b then "w" else "b") ++ " " ++ castling_fen b ++ " "
   ++ (match ep_square b with
       | Some sq => if has_legal_en_passant b then square_name sq else "-"
       | None => "-"
       end)
   ++ " " ++ str_int (Z.of_nat (halfmove_clock b))
   ++ " " ++ str_int (Z.of_nat (fullmove_number b)))%string.

(** [s.split(sep)] on one separator character. *)
Fixpoint split_on (sep : ascii) (s : string) : list string :=
  match s with
  | EmptyString => [EmptyString]
  | String c s' =>
      if Ascii.eqb c sep then EmptyString :: split_on sep s'
      else match split_on sep s' with
           | w :: ws => String c w :: ws
           | [] => [String c EmptyString]
           end
  end.

(** [s.split()]: the words between blanks. *)
Definition words (s : string) : list string :=
  List.filter (fun w => negb (String.eqb w "")) (split_on " " s).

Definition digit_value (c : ascii) : option nat :=
  let n := nat_of_ascii c in
  if ((48 <=? n) && (n <=? 57))%nat then Some (n - 48)%nat else None.

(** A non-negative decimal number. *)
Fixpoint parse_digits (s : string) (acc : nat) : option nat :=
  match s with
  | EmptyString => Some acc
  | String c s' => d ← digit_value c; parse_digits s' (10 * acc + d)%nat
  end.

Definition parse_nat (s : string) : option nat :=
  if String.eqb s "" then None else parse_digits s O.

Definition piece_of_letter (c : ascii) : option Piece :=
  pt ← piece_of_symbol (lower c);
  Some {| piece_type := pt; color := bool_decide (lower c <> c) |}.

(** One rank of the board part: its squares, files a to h. *)
Fixpoint parse_rank (row : string) (previous_was_digit : bool)
  : option (list (option Piece)) :=
  match row with
  | EmptyString => Some []
  | String c row' =>
      match digit_value c with
      | Some n =>
          if previous_was_digit || (n =? 0)%nat || (8 <? n)%nat then None
          else rest ← parse_rank row' true; Some (replicate n None ++ rest)
      | None =>
          p ← piece_of_letter c;
          rest ← parse_rank row' false;
          Some (Some p :: rest)
      end
  end.

Definition parse_board (board_part : string) : option (list (option Piece)) :=
  let rows := split_on "/" board_part in
  if negb (length rows =? 8)%nat then None else
  ranks ← mapM (fun row => r ← parse_rank row false;
                           if (length r =? 8)%nat then Some r else None) rows;
  Some (concat (rev ranks)).

(** The castling part: [-], or flags among [KQ] followed by flags among
    [kq]. *)
Definition parse_castling (part : string) : option (bool * bool * bool * bool) :=
  let cs := list_ascii_of_string part in
  let has c := existsb (Ascii.eqb c) cs in
  if String.eqb part "-" then Some (false, false, false, false)
  else
    let upper_flags := List.filter (fun c => Ascii.eqb c "K" || Ascii.eqb c "Q") cs in
    let lower_flags := List.filter (fun c => Ascii.eqb c "k" || Ascii.eqb c "q") cs in
    if bool_decide (cs = upper_flags ++ lower_flags)
       && (length upper_flags <=? 2)%nat && (length lower_flags <=? 2)%nat
    then Some (has "K"%char, has "Q"%char, has "k"%char, has "q"%char)
    else None.

(** [chess.Board(fen)]: the parts after the board are optional. *)
Definition board_from_fen (fen : string) : option Position :=
  match words fen with
  | [] => None
  | board_part :: parts =>
      if (5 <? length parts)%nat then None else
      turn ← match parts !! 0%nat with
             | None => Some WHITE
             | Some part => if String.eqb part "w" then Some WHITE
                            else if String.eqb part "b" then Some BLACK else None
             end;
      rights ← match parts !! 1%nat with
               | None => Some (false, false, false, false)
               | Some part => parse_castling part
               end;
      ep ← match parts !! 2%nat with
           | None => Some None
           | Some part => if String.eqb part "-" then Some None
                          else Some <$> parse_square part
           end;
      halfmove ← match parts !! 3%nat with
                 | None => Some O
                 | Some part => parse_nat part
                 end;
      fullmove ← match parts !! 4%nat with
                 | None => Some 1%nat
                 | Some part => Nat.max 1 <$> parse_nat part
                 end;
      pl ← parse_board board_part;
      let '(K, Q, k, q) := rights in
      Some {| placement := pl; side := turn;
              castle_K := K; castle_Q := Q; castle_k := k; castle_q := q;
              ep_square := ep; halfmove_clock := halfmove;
              fullmove_number := fullmove |}
  end.

End Chess.

(** The concrete board as a rules engine. *)
#[global] Instance chess_board : RulesEngine := {|
  Board := Chess.Position;
  board_from_fen := Chess.board_from_fen;
  fen := Chess.fen;
  turn := Chess.side;
  piece_at := Chess.piece_at;
  legal_moves := Chess.legal_moves;
  push_ok := Chess.push_ok;
  push := Chess.push;
  is_check := Chess.is_check;
  is_checkmate := Chess.is_checkmate;
  is_attacked_by := Chess.is_attacked_by
|}.

(** Writing the move with these squares and reading it back gives the
    same move. *)
Definition reads_back (f t : nat) (p : option PieceType) : bool :=
  bool_decide (from_uci (uci {| from_square := f; to_square := t;
                                promotion := p; Uci.drop := None |})
               = Some {| from_square := f; to_square := t;
                         promotion := p; Uci.drop := None |}).

(** What [push] needs of a move and what its notation needs. *)
Definition playable (b : Chess.Position) (m : Move) : Prop :=
  well_formed m /\ Chess.piece_at b (from_square m) <> None.

(** Number of move sequences of length [n]: the usual test of a move
    generator. *)
Fixpoint perft (n : nat) (b : Chess.Position) : nat :=
  match n with
  | O => 1%nat
  | S n' => list_sum (map (fun m => perft n' (Chess.push b m)) (Chess.legal_moves b))
  end.

Definition position (fen : string) : Chess.Position :=
  default {| Chess.placement := []; Chess.side := WHITE;
             Chess.castle_K := false; Chess.castle_Q := false;
             Chess.castle_k := false; Chess.castle_q := false;
             Chess.ep_square := None; Chess.halfmove_clock := O;
             Chess.fullmove_number := 1%nat |}
          (Chess.board_from_fen fen).

Definition STARTING_FEN : string :=
  "rnbqkbnr/pppppppp/8/8/8/8/PPPPPPPP/RNBQKBNR w KQkq - 0 1".

(* ===================================================================== *)
(** * Notions used in the statements *)
(* ===================================================================== *)

Section Notions.
Context {E : RulesEngine}.

(** The condition under which [make_move] raises the extra-move flag: the
    destination holds a piece, the mover has played [max_moves - 1] moves,
    and the destination is attacked by the other colour on the board as it
    stands before the move is pushed. *)
Definition grants_extra_move (g : Game) (m : Move) : bool :=
  bool_decide (piece_at (board g) (to_square m) <> None)
  && ((moves_played g).[player_of (current_player g)] =? max_moves g - 1)
  && is_attacked_by (board g) (negb (current_player g)) (to_square m).

(** An extra move is pending when the move-budget check of [make_move]
    runs: the flag was already up, or this move raised it. *)
Definition extra_move_pending (g : Game) (m : Move) : bool :=
  extra_move_granted g || grants_extra_move g m.

(** The state that an accepted move [m] leaves behind, in closed form. *)
Definition move_result (g : Game) (m : Move) : Game :=
  let mover := player_of (current_player g) in
  let captured := piece_at (board g) (to_square m) in
  let value := from_option (fun cp => PIECE_VALUES (piece_type cp)) 0 captured in
  let pending := extra_move_pending g m in
  let played := tally_set (moves_played g) mover ((moves_played g).[mover] + 1) in
  let points := tally_set (points_captured g) mover ((points_captured g).[mover] + value) in
  let mate := is_checkmate (push (board g) m) in
  let budget_spent :=
    (played.[white] >=? max_moves g) && (played.[black] >=? max_moves g)
    && negb pending in
  {| board := push (board g) m;
     max_moves := max_moves g;
     moves_played := played;
     points_captured := points;
     current_player :=
       if mate || pending then current_player g else negb (current_player g);
     game_over := mate || budget_spent || game_over g;
     winner := if mate then Some (WinnerIs mover)
               else if budget_spent then Some (winner_by_points points)
               else winner g;
     last_move_was_capture := bool_decide (captured <> None);
     extra_move_granted := mate && pending |}.

(** The operations that mutate a game. *)
Inductive Op : Set :=
| MakeMove (move_uci : string)
| SkipTurn.

Definition apply_op (g : Game) (op : Op) : Game :=
  match op with
  | MakeMove move_uci => (make_move g move_uci).2
  | SkipTurn => (skip_turn g).2
  end.

Definition run (ops : list Op) (g : Game) : Game := fold_left apply_op ops g.

(** A game in which nothing has been played yet, as [__init__] and
    [reset_game_state] leave it, whichever side is to begin. *)
Definition fresh (g : Game) : Prop :=
  moves_played g = {| at_white := 0; at_black := 0 |}
  /\ game_over g = false /\ extra_move_granted g = false /\ 0 <= max_moves g.

(** Where the counters of a game in progress stand between two
    operations.  [mine] is the counter of the side [current_player] names
    and [other] that of the other side.  The sides alternate, so the
    counters are equal or [other] is one ahead, until a side is given an
    extra move on the last move of its budget: it then stands at the
    budget with the turn, and goes one past it. *)
Definition counters_in_play (g : Game) : Prop :=
  let budget := max_moves g in
  let mine := (moves_played g).[player_of (current_player g)] in
  let other := (moves_played g).[player_of (negb (current_player g))] in
  extra_move_granted g = false /\ 0 <= budget
  /\ ((mine = other /\ mine <= budget - 1)
      \/ (other = mine + 1 /\ mine <= budget - 1)
      \/ (mine = budget /\ budget - 1 <= other <= budget + 1)
      \/ (mine = budget - 1 /\ other = budget + 1)).

(** ** The evaluator as the specification words it *)

(** The values of the pieces that the legal moves of the side to move can
    capture, one entry per capturing move, in enumeration order. *)
Definition capture_values (g : Game) : list Z :=
  omap (fun move => (fun cp => PIECE_VALUES (piece_type cp))
                      <$> piece_at (board g) (to_square move))
       (legal_moves (board g)).

(** Rules 2 to 4 of the evaluator, applied in that order to the captured
    points differential. *)
Definition heuristic_spec (g : Game) : num :=
  let white_to_move := bool_decide (turn (board g) = WHITE) in
  let differential :=
    PInt ((points_captured g).[white] - (points_captured g).[black]) in
  let checked :=
    if is_check (board g)
    then (differential + PInt (if white_to_move then -5 else 5))%num
    else differential in
  let remaining side := max_moves g - (moves_played g).[side] in
  let scarce := bool_decide (remaining white <= 2 \/ remaining black <= 2) in
  let weighted := if scarce then (checked * PFloat 1.5)%num else checked in
  fold_left
    (fun total value =>
       if white_to_move then (total + PInt value * PFloat 0.1)%num
       else (total - PInt value * PFloat 0.1)%num)
    (capture_values g) weighted.

(** Rule 1 as stated: a game that ended by checkmate scores 10000 for the
    side that is not checkmated, the one that is not to move. *)
Definition terminal_by_checkmate (g : Game) : bool :=
  game_over g && is_checkmate (board g).

Definition evaluate_spec (g : Game) : num :=
  if terminal_by_checkmate g then
    if bool_decide (turn (board g) = WHITE) then PInt (-10000) else PInt 10000
  else heuristic_spec g.

(** Rule 1 as the program has it: any finished game scores by its recorded
    winner, 0 for a draw, however the game ended. *)
Definition evaluate_by_winner (g : Game) : num :=
  if game_over g then
    match winner g with
    | Some (WinnerIs white) => PInt 10000
    | Some (WinnerIs black) => PInt (-10000)
    | Some Draw | None => PInt 0
    end
  else heuristic_spec g.

End Notions.

(** ** Games on the concrete board *)

Definition EMPTY_FEN : string := "8/8/8/8/8/8/8/8 w - - 0 1".

(** [PointsChessGame()] *)
Definition new_game : Game := init (position EMPTY_FEN).

(** A new game set to the position [fen], after the moves [moves]. *)
Definition play (fen : string) (moves : list string) : Game :=
  run (MakeMove <$> moves) (set_custom_position new_game fen).2.

(** Kings shuffling between two squares, five moves each. *)
Definition shuffle (w1 w2 b1 b2 : string) : list string :=
  let w := (w1 ++ w2)%string in let w' := (w2 ++ w1)%string in
  let b := (b1 ++ b2)%string in let b' := (b2 ++ b1)%string in
  [w; b; w'; b'; w; b; w'; b'; w; b].

(** White rook a1, pawn a6 defended by the knight b8; both sides have
    played five moves, White is to play the sixth. *)
Definition defended_pawn : Game :=
  play "1n2k3/8/p7/8/8/8/8/R3K3 w - - 0 1" (shuffle "e1" "d1" "e8" "d8").

(** The position of [defended_pawn] before anything is played, and the
    line in which White then takes the defended pawn on the sixth move. *)
Definition defended_pawn_start : Game :=
  play "1n2k3/8/p7/8/8/8/8/R3K3 w - - 0 1" [].
Definition defended_pawn_line : list Op :=
  MakeMove <$> (shuffle "e1" "d1" "e8" "d8" ++ ["a1a6"]).

(** White rook a2 in front of the black rook a1, black pawn a6: the pawn
    is not defended, but a rook that takes it can be taken back. *)
Definition masked_rook : Game :=
  play "7k/8/p7/8/8/8/R6K/r7 w - - 0 1" (shuffle "h2" "g2" "h8" "g8").

(** White takes a pawn on the first move; five quiet moves each follow
    and Black's sixth ends the game on points. *)
Definition won_on_points : Game :=
  play "4k3/p7/8/8/8/8/8/R3K3 w - - 0 1"
       ["a1a7"; "e8d8"; "e1d1"; "d8e8"; "d1e1"; "e8d8";
        "e1d1"; "d8e8"; "d1e1"; "e8d8"; "e1d1"; "d8e8"].

(** The game [won_on_points] before Black's sixth and last move. *)
Definition one_move_left : Game :=
  play "4k3/p7/8/8/8/8/8/R3K3 w - - 0 1"
       ["a1a7"; "e8d8"; "e1d1"; "d8e8"; "d1e1"; "e8d8";
        "e1d1"; "d8e8"; "d1e1"; "e8d8"; "e1d1"].

(** The black king behind its pawns: the rook mates on a8. *)
Definition back_rank : Game := play "6k1/5ppp/8/8/8/8/8/R3K3 w - - 0 1" [].

(** Six quiet moves each. *)
Definition quiet_game : Game :=
  play "4k3/8/8/8/8/8/8/4K3 w - - 0 1"
       ["e1d1"; "e8d8"; "d1e1"; "d8e8"; "e1d1"; "e8d8";
        "d1e1"; "d8e8"; "e1d1"; "e8d8"; "d1e1"; "d8e8"].

(** ** Notions about the search *)

Section SearchNotions.
Context {E : RulesEngine}.

(** [m] may create objects but changes none that exists when it starts. *)
Definition frame {A} (m : M A) : Prop :=
  forall w, store_extends (store w) (store (m w).2).

(** [m] never raises [TimeoutError]. *)
Definition never_times_out {A} (m : M A) : Prop :=
  forall w, (m w).1 <> Raise TimeoutError.

(** Objects beyond those of [st0]: the game object at [r] and everything
    it refers to were created after [st0]. *)
Definition created_after (st0 st : Store) (r : loc) : Prop :=
  forall o, games st !! r = Some o ->
    (length (games st0) <= r)%nat
    /\ (length (boards st0) <= board_ref o)%nat
    /\ (length (dicts st0) <= moves_played_ref o)%nat
    /\ (length (dicts st0) <= points_captured_ref o)%nat.

(** The game object at [r] is there and its board object holds [b]. *)
Definition sees_board (st : Store) (r : loc) (b : Board) : Prop :=
  exists o, games st !! r = Some o /\ boards st !! board_ref o = Some b.

End SearchNotions.

(** ** Worlds for concrete runs *)

(** A store with one game object per game of the list, each on its own
    board object and dictionaries. *)
Definition add_game (st : Store) (g : Game) : Store :=
  {| games := games st ++
       [{| board_ref := length (boards st);
           moves_played_ref := length (dicts st);
           points_captured_ref := S (length (dicts st));
           obj_max_moves := max_moves g;
           obj_current_player := current_player g;
           obj_game_over := game_over g;
           obj_winner := winner g;
           obj_last_move_was_capture := last_move_was_capture g;
           obj_extra_move_granted := extra_move_granted g |}];
     boards := boards st ++ [board g];
     dicts := dicts st ++ [moves_played g; points_captured g] |}.

Definition world_of (gs : list Game) : World :=
  {| store := fold_left add_game gs {| games := []; boards := []; dicts := [] |};
     transposition_table := ∅;
     ticks := O |}.

(** A clock that advances by [step] seconds at every reading. *)
Definition steady_clock (step : float) (n : nat) : float :=
  PrimFloat.mul step (PyNum.float_of_Z (Z.of_nat n)).

(** White may castle on the king's side. *)
Definition may_castle : Game := play "4k3/8/8/8/8/8/8/4K2R w K - 0 1" [].

(** The spec's first scenario: rook and king against pawn and king. *)
Definition rook_and_pawn : Game := play "4k3/p7/8/8/8/8/8/R3K3 w - - 0 1" [].

(** Two games that reach the same position after one move each: the rook
    took a pawn on a7 in the first, a queen in the second. *)
Definition took_pawn : Game :=
  play "4k3/p7/8/8/8/8/8/R3K3 w - - 0 1" ["a1a7"; "e8d8"].
Definition took_queen : Game :=
  play "4k3/q7/8/8/8/8/8/R3K3 w - - 0 1" ["a1a7"; "e8d8"].

(** King and pawn against king: few moves, for deeper searches. *)
Definition king_and_pawn : Game := play "4k3/8/8/8/8/8/4P3/4K3 w - - 0 1" [].

(** A clock that stands still: no deadline ever passes. *)
Definition still_clock (_ : nat) : float := 0%float.

(** The legal moves of [rook_and_pawn], in generation order. *)
Definition rook_and_pawn_moves : list string :=
  ["e1f2"; "e1e2"; "e1d2"; "e1f1"; "e1d1"; "a1a7"; "a1a6"; "a1a5";
   "a1a4"; "a1a3"; "a1a2"; "a1d1"; "a1c1"; "a1b1"].

(* ===================================================================== *)
(** * Further notions about games *)
(* ===================================================================== *)

Section MoreNotions.
Context {E : RulesEngine}.

(** What the operation returns. *)
Definition accepted (g : Game) (op : Op) : bool :=
  match op with
  | MakeMove move_uci => (make_move g move_uci).1
  | SkipTurn => (skip_turn g).1
  end.

(** The number of operations of a sequence that return [True]. *)
Fixpoint accepted_count (ops : list Op) (g : Game) : Z :=
  match ops with
  | [] => 0
  | op :: ops' => (if accepted g op then 1 else 0) + accepted_count ops' (apply_op g op)
  end.

(** A result is recorded exactly when the game is over. *)
Definition result_recorded (g : Game) : Prop :=
  game_over g = true <-> winner g <> None.

(** What [_clone_game] copies: every attribute but [max_moves], which the
    new object has from [__init__]. *)
Definition clone_of (g : Game) : Game :=
  {| board := board g; max_moves := 6; moves_played := moves_played g;
     points_captured := points_captured g; current_player := current_player g;
     game_over := game_over g; winner := winner g;
     last_move_was_capture := last_move_was_capture g;
     extra_move_granted := extra_move_granted g |}.

(** [current_player] is the side that the board has to move. *)
Definition in_step (g : Game) : Prop := current_player g = turn (board g).

End MoreNotions.

(** More of the library's contract.  The legal moves of a position go
    between two different squares of the board, *)
Definition WellFormedLegalMoves (E : RulesEngine) : Prop :=
  forall (b : Board) (m : Move), m ∈ legal_moves b -> well_formed m.

(** they move a piece of the side to move, *)
Definition MovesOwnPieces (E : RulesEngine) : Prop :=
  forall (b : Board) (m : Move), m ∈ legal_moves b ->
    exists p, piece_at b (from_square m) = Some p /\ color p = turn b.

(** and pushing one passes the move to the other side. *)
Definition PushPassesTurn (E : RulesEngine) : Prop :=
  forall (b : Board) (m : Move), m ∈ legal_moves b -> turn (push b m) = negb (turn b).

(** ** The table during the search *)

Section TableNotions.
Context {E : RulesEngine}.

(** [m] removes no entry of the transposition table. *)
Definition keeps_table {A} (m : M A) : Prop :=
  forall (w : World) (key : string),
    is_Some (transposition_table w !! key) ->
    is_Some (transposition_table (m w).2 !! key).

End TableNotions.

(** ** Order of the scores *)

(** No score of the list is directly followed by a greater one. *)
Fixpoint descending (scores : list num) : bool :=
  match scores with
  | a :: (b :: _) as rest => negb (a <? b)%num && descending rest
  | _ => true
  end.

(** ** Text of the position signature *)

(** The character [c] occurs in [s]. *)
Fixpoint occurs (c : ascii) (s : string) : bool :=
  match s with
  | EmptyString => false
  | String c' s' => Ascii.eqb c' c || occurs c s'
  end.

(** Decimal digits and the sign are all there is in [str(z)]. *)
Definition numeric (s : string) : Prop :=
  forall c, occurs c s = true -> c = "-"%char \/ (48 <= nat_of_ascii c <= 57)%nat.

(* ===================================================================== *)
(** * class ManualPositionSetup *)
(* ===================================================================== *)

(** The two operations of [chess.Board] that edit a position.  Squares
    are indices into a table of 64 entries: the library raises
    [IndexError] beyond it, which the callers below write out. *)
Class BoardEditor (E : RulesEngine) : Type := {
  set_piece_at : Board -> Square -> Piece -> Board;
  remove_piece_at : Board -> Square -> Board
}.

(** Their contract: the edited square holds the piece, or nothing, and
    the other squares are as before. *)
Definition EditsOneSquare (E : RulesEngine) (Ed : BoardEditor E) : Prop :=
  (forall (b : Board) (sq : Square) (p : Piece) (sq' : Square), (sq < 64)%nat ->
     piece_at (set_piece_at b sq p) sq'
     = if bool_decide (sq' = sq) then Some p else piece_at b sq')
  /\ (forall (b : Board) (sq sq' : Square), (sq < 64)%nat ->
        piece_at (remove_piece_at b sq) sq'
        = if bool_decide (sq' = sq) then None else piece_at b sq').

(** [k in d] and [d[k]] for a dictionary with string keys, written as the
    list of its items. *)
Fixpoint dict_get {A : Type} (d : list (string * A)) (k : string) : option A :=
  match d with
  | [] => None
  | (k', v) :: d' => if String.eqb k' k then Some v else dict_get d' k
  end.

(** [str.isupper] on ASCII text: some letter is upper case and none is
    lower case. *)
Definition is_upper_letter (c : ascii) : bool :=
  let n := nat_of_ascii c in ((65 <=? n) && (n <=? 90))%nat.
Definition is_lower_letter (c : ascii) : bool :=
  let n := nat_of_ascii c in ((97 <=? n) && (n <=? 122))%nat.
Definition isupper (s : string) : bool :=
  existsb is_upper_letter (list_ascii_of_string s)
  && negb (existsb is_lower_letter (list_ascii_of_string s)).

(** [chess.SQUARES] *)
Definition SQUARES : list Square := seq 0 64.

Module ManualPositionSetup.
Section Setup.
Context {E : RulesEngine} {Ed : BoardEditor E}.

(** [chess.Board(fen="8/8/8/8/8/8/8/8 w - - 0 1")] *)
Variable empty : Board.

Record Setup : Type := {
  selected_piece : option string;
  board : Board
}.

(** [self.piece_mapping] *)
Definition piece_mapping : list (string * PieceType) :=
  [("P", PAWN); ("N", KNIGHT); ("B", BISHOP);
   ("R", ROOK); ("Q", QUEEN); ("K", KING);
   ("p", PAWN); ("n", KNIGHT); ("b", BISHOP);
   ("r", ROOK); ("q", QUEEN); ("k", KING)]%string.

Definition init : Setup := {| selected_piece := None; board := empty |}.

Definition set_board (self : Setup) (b : Board) : Setup :=
  {| selected_piece := selected_piece self; board := b |}.

Definition add_piece (self : Setup) (piece_symbol : string) (square : Square)
  : outcome Setup :=
  match dict_get piece_mapping piece_symbol with
  | Some piece_type =>
      let color := if isupper piece_symbol then WHITE else BLACK in
      if (64 <=? square)%nat then Raise IndexError
      else Return (set_board self
                     (set_piece_at (board self) square
                        {| piece_type := piece_type; color := color |}))
  | None => Return self
  end.

Definition remove_piece (self : Setup) (square : Square) : outcome Setup :=
  if (64 <=? square)%nat then Raise IndexError
  else Return (set_board self (remove_piece_at (board self) square)).

Definition clear_board (self : Setup) : Setup := set_board self empty.

Definition get_fen (self : Setup) : string := fen (board self).

Definition is_valid_position (self : Setup) : bool :=
  let '(white_king, black_king) :=
    fold_left
      (fun '(white_king, black_king) square =>
         match piece_at (board self) square with
         | Some piece =>
             if bool_decide (piece_type piece = KING) then
               if bool_decide (color piece = WHITE) then (true, black_king)
               else (white_king, true)
             else (white_king, black_king)
         | None => (white_king, black_king)
         end)
      SQUARES (false, false) in
  white_king && black_king.

End Setup.
End ManualPositionSetup.

(* ===================================================================== *)
(** * class ChessUI: what a mouse click does *)
(* ===================================================================== *)

Module ChessUI.

(** The board dimensions that [__init__] sets. *)
Definition board_size : Z := 400.
Definition square_size : Z := board_size / 8.
Definition board_offset_x : Z := 50.
Definition board_offset_y : Z := 50.

(** The test whether the click is on the chess board, and the square
    computed from it. *)
Definition square_at_point (x y : Z) : option Z :=
  if (board_offset_x <=? x) && (x <? board_offset_x + board_size)
     && (board_offset_y <=? y) && (y <? board_offset_y + board_size)
  then
    let file := (x - board_offset_x) / square_size in
    let rank := 7 - (y - board_offset_y) / square_size in
    Some (rank * 8 + file)
  else None.

(** The chain of tests on [y] for the setup buttons: the piece symbol
    selected after the click. *)
Definition piece_button (y : Z) (selected_piece_type : option string)
  : option string :=
  if (50 <=? y) && (y <=? 80) then Some "P"%string
  else if (90 <=? y) && (y <=? 120) then Some "N"%string
  else if (130 <=? y) && (y <=? 160) then Some "B"%string
  else if (170 <=? y) && (y <=? 200) then Some "R"%string
  else if (210 <=? y) && (y <=? 240) then Some "Q"%string
  else if (250 <=? y) && (y <=? 280) then Some "K"%string
  else if (290 <=? y) && (y <=? 320) then Some "p"%string
  else if (330 <=? y) && (y <=? 360) then Some "n"%string
  else if (370 <=? y) && (y <=? 400) then Some "b"%string
  else if (410 <=? y) && (y <=? 440) then Some "r"%string
  else if (450 <=? y) && (y <=? 480) then Some "q"%string
  else if (490 <=? y) && (y <=? 520) then Some "k"%string
  else if (530 <=? y) && (y <=? 560) then None
  else selected_piece_type.

(** Which branch of the handler of [MOUSEBUTTONDOWN] a click takes. *)
Inductive Branch : Set :=
| OnBoard (square : Z)
| SetupButtons
| MainButtons
| NoBranch.

Definition branch (setup_mode : bool) (x y : Z) : Branch :=
  match square_at_point x y with
  | Some square => OnBoard square
  | None =>
      if setup_mode && (500 <=? x) && (x <=? 750) then SetupButtons
      else if (500 <=? x) && (x <=? 750) && (530 <=? y) && (y <=? 560) then MainButtons
      else NoBranch
  end.

Section Clicks.
Context {E : RulesEngine} {Ed : BoardEditor E}.

(** The attributes of the interface that a click on the board reads or
    writes, and the local variable [selected_square] of [run]. *)
Record UI : Type := {
  game : Game;
  position_setup : ManualPositionSetup.Setup;
  setup_mode : bool;
  selected_piece_type : option string;
  hint_move : option string;
  selected_square : option Square
}.

Definition set_position_setup (ui : UI) (s : ManualPositionSetup.Setup) : UI :=
  {| game := game ui; position_setup := s; setup_mode := setup_mode ui;
     selected_piece_type := selected_piece_type ui; hint_move := hint_move ui;
     selected_square := selected_square ui |}.

Definition set_selected_square (ui : UI) (sq : option Square) : UI :=
  {| game := game ui; position_setup := position_setup ui;
     setup_mode := setup_mode ui;
     selected_piece_type := selected_piece_type ui; hint_move := hint_move ui;
     selected_square := sq |}.

(** [self.game.make_move(move_uci); self.hint_move = None] *)
Definition play_move (ui : UI) (move_uci : string) : UI :=
  {| game := (make_move (game ui) move_uci).2; position_setup := position_setup ui;
     setup_mode := setup_mode ui;
     selected_piece_type := selected_piece_type ui; hint_move := None;
     selected_square := selected_square ui |}.

(** The click on the square [square] of the board. *)
Definition board_click (ui : UI) (square : Square) : outcome UI :=
  if setup_mode ui then
    (* Setup mode: add or remove pieces *)
    let edited :=
      if truthy (selected_piece_type ui)
      then ManualPositionSetup.add_piece (position_setup ui)
             (default EmptyString (selected_piece_type ui)) square
      else ManualPositionSetup.remove_piece (position_setup ui) square in
    match edited with
    | Return s => Return (set_position_setup ui s)
    | Raise e => Raise e
    end
  else
    (* Game mode: handle piece selection and movement *)
    match selected_square ui with
    | None =>
        (* Select piece *)
        match piece_at (board (game ui)) square with
        | Some piece =>
            if bool_decide (color piece = current_player (game ui))
            then Return (set_selected_square ui (Some square))
            else Return ui
        | None => Return ui
        end
    | Some from =>
        (* Try to move the piece *)
        let move := mk_move from square in
        let move_uci := uci move in
        let ui := if bool_decide (move_uci ∈ get_legal_moves (game ui))
                  then play_move ui move_uci else ui in
        Return (set_selected_square ui None)
    end.

(** Clicks on squares of the board, one after the other, in game mode. *)
Fixpoint board_clicks (ui : UI) (squares : list Square) : outcome UI :=
  match squares with
  | [] => Return ui
  | square :: rest =>
      match board_click ui square with
      | Return ui' => board_clicks ui' rest
      | Raise e => Raise e
      end
  end.

End Clicks.
End ChessUI.

(* ===================================================================== *)
(** * class PointsChessEngine (points-chess-assistant.py) *)
(* ===================================================================== *)

(** Two more operations of [chess.Board]: [board.is_capture(move)], and
    [target in board.attacks(square)]. *)
Class CaptureRules (E : RulesEngine) : Type := {
  is_capture : Board -> Move -> bool;
  attacks : Board -> Square -> Square -> bool
}.

(** [l.sort(key=..., reverse=True)] with a key that is [True] or [False]:
    the elements with [True] first, each group in its original order. *)
Definition sort_true_first {A : Type} (key : A -> bool) (l : list A) : list A :=
  List.filter key l ++ List.filter (fun x => negb (key x)) l.

Module PointsChessEngine.
Section Engine.
Context {E : RulesEngine} {C : CaptureRules E}.

(** The attributes of the engine; [piece_values] has the values of
    [PIECE_VALUES]. *)
Record Engine : Type := {
  white_points : Z;
  black_points : Z;
  moves_made : Z;
  max_moves : Z;
  extra_move_granted : bool
}.

Definition init : Engine :=
  {| white_points := 0; black_points := 0; moves_made := 0; max_moves := 6;
     extra_move_granted := false |}.

Definition reset (self : Engine) : Engine :=
  {| white_points := 0; black_points := 0; moves_made := 0;
     max_moves := max_moves self; extra_move_granted := false |}.

Definition set_white_points (self : Engine) (v : Z) : Engine :=
  {| white_points := v; black_points := black_points self;
     moves_made := moves_made self; max_moves := max_moves self;
     extra_move_granted := extra_move_granted self |}.

Definition set_black_points (self : Engine) (v : Z) : Engine :=
  {| white_points := white_points self; black_points := v;
     moves_made := moves_made self; max_moves := max_moves self;
     extra_move_granted := extra_move_granted self |}.

Definition evaluate_position (self : Engine) (board : Board) : Z :=
  let score := white_points self - black_points self in
  (* Check if checkmate is possible *)
  if is_checkmate board then
    if bool_decide (turn board = WHITE) then -10000 else 10000
  else score.

Definition is_piece_supported (board : Board) (move : Move) : bool :=
  if negb (is_capture board move) then false else
  let to_square := to_square move in
  (* Get the color of the piece being captured *)
  let captured_color := negb (turn board) in
  (* Check if any piece of the captured color attacks the square *)
  existsb
    (fun square =>
       match piece_at board square with
       | Some piece => bool_decide (color piece = captured_color)
                       && attacks board square to_square
       | None => false
       end)
    SQUARES.

(** The board object with the positions that [push] has saved and [pop]
    restores, and the engine that the search updates in place. *)
Record Search : Type := {
  engine : Engine;
  board : Board;
  saved : list Board
}.

Definition set_engine (s : Search) (e : Engine) : Search :=
  {| engine := e; board := board s; saved := saved s |}.

(** [board.push(move)] *)
Definition push_board (s : Search) (move : Move) : outcome Search :=
  if push_ok (board s) move
  then Return {| engine := engine s; board := push (board s) move;
                 saved := board s :: saved s |}
  else Raise AssertionError.

(** [board.pop()] *)
Definition pop_board (s : Search) : outcome Search :=
  match saved s with
  | b :: rest => Return {| engine := engine s; board := b; saved := rest |}
  | [] => Raise IndexError
  end.

(** Adding to the points of the side that has just moved, and taking
    them back. *)
Definition add_capture (s : Search) (captured_piece : option Piece) : Search :=
  match captured_piece with
  | Some piece =>
      let capture_value := PIECE_VALUES (piece_type piece) in
      if bool_decide (turn (board s) = BLACK)
      then set_engine s (set_white_points (engine s)
                           (white_points (engine s) + capture_value))
      else set_engine s (set_black_points (engine s)
                           (black_points (engine s) + capture_value))
  | None => s
  end.

Definition undo_capture (s : Search) (captured_piece : option Piece) : Search :=
  match captured_piece with
  | Some piece =>
      let capture_value := PIECE_VALUES (piece_type piece) in
      if bool_decide (turn (board s) = WHITE)
      then set_engine s (set_black_points (engine s)
                           (black_points (engine s) - capture_value))
      else set_engine s (set_white_points (engine s)
                           (white_points (engine s) - capture_value))
  | None => s
  end.

(** The recursive call, where it is made; [None] when the recursion
    allowance is used up. *)
Definition Recur : Type := Search -> Z -> bool -> option (outcome (option Move * Search)).

(** [self.calculate_best_move(board, depth-1, False)], whose result is
    not used, and then [score = self.evaluate_position(board)]. *)
Definition score_deeper (recur : Recur) (s : Search) (depth : Z)
  : option (outcome (num * Search)) :=
  match recur s (depth - 1) false with
  | None => None
  | Some (Raise e) => Some (Raise e)
  | Some (Return (_, s)) =>
      Some (Return (PInt (evaluate_position (engine s) (board s)), s))
  end.

(** The loop of [calculate_best_move] over the sorted legal moves. *)
Fixpoint best_move_loop (recur : Recur) (depth : Z) (is_last_move : bool)
    (moves : list Move) (best_score : num) (best_move : option Move) (s : Search)
  : option (outcome (option Move * Search)) :=
  match moves with
  | [] => Some (Return (best_move, s))
  | move :: rest =>
      (* Make the move *)
      let captured_piece := piece_at (board s) (to_square move) in
      match push_board s move with
      | Raise e => Some (Raise e)
      | Return s =>
          (* Calculate score after move *)
          let s := add_capture s captured_piece in
          let scored : option (outcome (num * Search)) :=
            (* Check for checkmate (immediate win) *)
            if is_checkmate (board s) then
              Some (Return (PInt (if bool_decide (turn (board s) = BLACK)
                                  then 10000 else -10000), s))
            (* If last move and supported piece was captured *)
            else if is_last_move && bool_decide (captured_piece <> None)
                    && is_piece_supported (board s) move
            then score_deeper recur s depth
            (* Regular minimax recursion *)
            else if 1 <? depth then score_deeper recur s depth
            else Some (Return (PInt (evaluate_position (engine s) (board s)), s)) in
          match scored with
          | None => None
          | Some (Raise e) => Some (Raise e)
          | Some (Return (score, s)) =>
              (* Undo the move and point calculation *)
              let s := undo_capture s captured_piece in
              match pop_board s with
              | Raise e => Some (Raise e)
              | Return s =>
                  (* Update best move *)
                  if bool_decide (turn (board s) = WHITE) then
                    if (score >? best_score)%num
                    then best_move_loop recur depth is_last_move rest score (Some move) s
                    else best_move_loop recur depth is_last_move rest best_score best_move s
                  else
                    if (score <? best_score)%num
                    then best_move_loop recur depth is_last_move rest score (Some move) s
                    else best_move_loop recur depth is_last_move rest best_score best_move s
              end
          end
      end
  end.

(** One call of [calculate_best_move], with the recursive call given. *)
Definition best_move_call (recur : Recur) (s : Search) (depth : Z) (is_last_move : bool)
  : option (outcome (option Move * Search)) :=
  let best_score :=
    if bool_decide (turn (board s) = WHITE) then (- PyNum.inf)%num else PyNum.inf in
  let best_move := None in
  let legal_moves := legal_moves (board s) in
  (* Sort moves to check captures first (optimization) *)
  let legal_moves := sort_true_first (is_capture (board s)) legal_moves in
  best_move_loop recur depth is_last_move legal_moves best_score best_move s.

(** [calculate_best_move] with an allowance of nested calls. *)
Fixpoint calculate_best_move_within (calls : nat) : Recur :=
  match calls with
  | O => fun _ _ _ => None
  | S calls' => best_move_call (calculate_best_move_within calls')
  end.

(** The calls that a call at depth [depth] nests, itself included. *)
Definition nested_calls (depth : Z) (is_last_move : bool) : Z :=
  Z.max depth (if is_last_move then 2 else 1).

(** [calculate_best_move], with an allowance that covers them. *)
Definition calculate_best_move (s : Search) (depth : Z) (is_last_move : bool)
  : option (outcome (option Move * Search)) :=
  calculate_best_move_within (2 + Z.to_nat depth) s depth is_last_move.

(** The move of a result. *)
Definition chosen_move (r : option (outcome (option Move * Search)))
  : option (option Move) :=
  match r with
  | Some (Return (mv, _)) => Some mv
  | _ => None
  end.

End Engine.
End PointsChessEngine.

(* ===================================================================== *)
(** * class ChessBoardWidget (chess-improved-ui.py) *)
(* ===================================================================== *)

Module ChessBoardWidget.

(** [get_square_at_position], for a widget of the given width and height
    and the point [(pos.x(), pos.y())].  The outer [None] stands for the
    [ZeroDivisionError] of a widget without width or height, the inner one
    is the [None] that the function returns. *)
Definition get_square_at_position (width height pos_x pos_y : Z) : option (option Z) :=
  if (width =? 0) || (height =? 0) then None else
  let x := pos_x * 8 / width in
  let y := (height - pos_y) * 8 / height in
  (* Validate coordinates (ensure they're within the board) *)
  if (x <? 0) || (x >? 7) || (y <? 0) || (y >? 7) then Some None
  else
    (* Calculate square index (0-63) *)
    Some (Some (y * 8 + x)).

End ChessBoardWidget.

(** ** The concrete board as an editor *)

(** A position has 64 squares; a shorter placement is completed with
    empty squares before it is edited. *)
Definition completed (pl : list (option Piece)) : list (option Piece) :=
  pl ++ replicate (64 - length pl) None.

Definition edit_square (b : Chess.Position) (sq : Square) (p : option Piece)
  : Chess.Position :=
  {| Chess.placement := Chess.set_square (completed (Chess.placement b)) sq p;
     Chess.side := Chess.side b;
     Chess.castle_K := Chess.castle_K b; Chess.castle_Q := Chess.castle_Q b;
     Chess.castle_k := Chess.castle_k b; Chess.castle_q := Chess.castle_q b;
     Chess.ep_square := Chess.ep_square b;
     Chess.halfmove_clock := Chess.halfmove_clock b;
     Chess.fullmove_number := Chess.fullmove_number b |}.

#[global] Instance chess_board_editor : BoardEditor chess_board := {|
  set_piece_at b sq p := edit_square b sq (Some p);
  remove_piece_at b sq := edit_square b sq None
|}.

(** Captures and attacks on the concrete board: a move is a capture when
    one of its two squares holds a piece of the side that is not to move,
    or when it is an en passant capture. *)
#[global] Instance chess_board_captures : CaptureRules chess_board := {|
  is_capture b m :=
    negb (from_square m =? to_square m)%nat
    && (Chess.occupied_by b (negb (Chess.side b)) (from_square m)
        || Chess.occupied_by b (negb (Chess.side b)) (to_square m))
    || Chess.is_en_passant b m;
  attacks := Chess.attacks
|}.

(** The piece on the origin square of the move is of the side to move. *)
Definition moves_own_piece (b : Chess.Position) (m : Move) : Prop :=
  exists p, Chess.piece_at b (from_square m) = Some p /\ color p = Chess.side b.

(** ** Interfaces on the concrete board *)

(** The interface in game mode on the game [g], with a hint shown. *)
Definition playing (g : Game) : ChessUI.UI :=
  {| ChessUI.game := g;
     ChessUI.position_setup := ManualPositionSetup.init (position EMPTY_FEN);
     ChessUI.setup_mode := false;
     ChessUI.selected_piece_type := None;
     ChessUI.hint_move := Some "a1a7"%string;
     ChessUI.selected_square := None |}.

(** Setup mode with the white king selected. *)
Definition placing_king : ChessUI.UI :=
  {| ChessUI.game := new_game;
     ChessUI.position_setup := ManualPositionSetup.init (position EMPTY_FEN);
     ChessUI.setup_mode := true;
     ChessUI.selected_piece_type := Some "K"%string;
     ChessUI.hint_move := None;
     ChessUI.selected_square := None |}.

(** The search state of the first program's engine on the board of [g]. *)
Definition searching (g : Game) : PointsChessEngine.Search :=
  {| PointsChessEngine.engine := PointsChessEngine.init;
     PointsChessEngine.board := board g;
     PointsChessEngine.saved := [] |}.

(* ===================================================================== *)
(** * Theorems *)
(* ===================================================================== *)

(* ===================================================================== *)
(** * Numbers and coordinate notation: sanity checks *)
(* ===================================================================== *)

Example num_mixed_mul : (PInt 3 * PFloat 1.5)%num = PFloat 4.5.
Proof. vm_compute. reflexivity. Qed.

Example num_tenth_inexact :
  PyNum.eqb (PInt 3 * PFloat 0.1)%num (PFloat 0.3) = false.
Proof. vm_compute. reflexivity. Qed.

Example num_int_vs_float :
  (PInt 2 >? PFloat 1.5)%num = true /\ (PFloat 1.5 >? PInt 2)%num = false
  /\ (PInt (-1) >=? - PyNum.inf)%num = true
  /\ PyNum.max (- PyNum.inf)%num (PInt 7) = PInt 7.
Proof. vm_compute. repeat split; reflexivity. Qed.

Example from_uci_e2e4 : from_uci "e2e4" = Some (mk_move 12 28).
Proof. reflexivity. Qed.

Example from_uci_promotion :
  from_uci "e7e8q" = Some {| from_square := 52%nat; to_square := 60%nat;
                             promotion := Some QUEEN; drop := None |}.
Proof. reflexivity. Qed.

Example from_uci_rejects :
  from_uci "e2" = None /\ from_uci "e2e9" = None /\ from_uci "e2e2" = None
  /\ from_uci "e7e8x" = None /\ from_uci "" = None.
Proof. repeat split; reflexivity. Qed.

Example uci_examples :
  uci (mk_move 0 48) = "a1a7"%string /\ uci null_move = "0000"%string.
Proof. split; reflexivity. Qed.

(** The move generator counts the known numbers of move sequences from the
    starting position and from a position with castling, promotions and
    pins. *)
Example perft_starting_position :
  perft 1 (position STARTING_FEN) = 20%nat /\ perft 2 (position STARTING_FEN) = 400%nat.
Proof. vm_compute. split; reflexivity. Qed.

Example perft_kiwipete :
  let b := position "r3k2r/p1ppqpb1/bn2pnp1/3PN3/1p2P3/2N2Q1p/PPPBBPPP/R3K2R w KQkq - 0 1" in
  perft 1 b = 48%nat /\ perft 2 b = 2039%nat.
Proof. vm_compute. split; reflexivity. Qed.

Example fen_after_e2e4 :
  fen (push (position STARTING_FEN) (mk_move 12 28))
  = "rnbqkbnr/pppppppp/8/8/4P3/8/PPPP1PPP/RNBQKBNR b KQkq - 0 1"%string.
Proof. vm_compute. reflexivity. Qed.

(* ===================================================================== *)
(** * Move application: rejection, termination, the extra move *)
(* ===================================================================== *)

Section GameFacts.
Context {E : RulesEngine}.
Implicit Types (g : Game) (m : Move).

Lemma tally_get_set (d : Tally) (p q : Player) (v : Z) :
  (tally_set d p v).[q] = if bool_decide (p = q) then v else d.[q].
Proof. by destruct p, q. Qed.

Lemma player_of_negb (c : Color) : player_of (negb c) <> player_of c.
Proof. by destruct c. Qed.

(** Every generated move passes the library's legality test. *)
Lemma is_legal_listed (b : Board) m : m ∈ legal_moves b -> is_legal b m = true.
Proof. intros Hm. unfold is_legal. cbv zeta. by rewrite bool_decide_eq_true_2. Qed.

(** A move fails the test when neither it nor the castling move it may
    stand for is generated. *)
Lemma is_legal_false (b : Board) m :
  is_legal b m = false <->
  (m ∉ legal_moves b) /\ (_from_chess960 (king_on b) m ∉ legal_moves b).
Proof.
  unfold is_legal. cbv zeta. case_bool_decide as Hm.
  - split; [done|]. by intros [? _].
  - rewrite bool_decide_eq_false. split; [done|]. by intros [_ ?].
Qed.

(** Only a king's move from its original square to a corner of its rank
    is read as another move. *)
Lemma from_chess960_cases (kings : Square -> bool) m :
  _from_chess960 kings m = m
  \/ (m = mk_move E1 H1 /\ kings E1 = true /\ _from_chess960 kings m = mk_move E1 G1)
  \/ (m = mk_move E1 A1 /\ kings E1 = true /\ _from_chess960 kings m = mk_move E1 C1)
  \/ (m = mk_move E8 H8 /\ kings E8 = true /\ _from_chess960 kings m = mk_move E8 G8)
  \/ (m = mk_move E8 A8 /\ kings E8 = true /\ _from_chess960 kings m = mk_move E8 C8).
Proof.
  unfold _from_chess960. destruct m as [f t p d]; simpl.
  repeat case_bool_decide; simpl; subst; try (by left);
    destruct (kings _) eqn:Hk; simpl; try (by left);
    repeat case_bool_decide; subst; try (by left); try discriminate; auto 10.
Qed.

Lemma from_chess960_from_square (kings : Square -> bool) m :
  from_square (_from_chess960 kings m) = from_square m.
Proof.
  destruct (from_chess960_cases kings m)
    as [-> | [(-> & _ & ->) | [(-> & _ & ->) | [(-> & _ & ->) | (-> & _ & ->)]]]];
    reflexivity.
Qed.

(** [make_move] accepts exactly the strings that parse to a move that
    passes the legality test. *)
Lemma make_move_accepts g move_uci :
  (make_move g move_uci).1 = true <->
  exists m, from_uci move_uci = Some m /\ is_legal (board g) m = true.
Proof.
  unfold make_move. split.
  - destruct (from_uci move_uci) as [m|]; [|done].
    destruct (is_legal (board g) m) eqn:Hm; [|done]. intros _. by exists m.
  - intros (m & -> & ->). simpl. by repeat case_match.
Qed.

(** An accepted move returns [True] and leaves the state [move_result]. *)
Lemma make_move_accepted g move_uci m :
  from_uci move_uci = Some m -> is_legal (board g) m = true ->
  make_move g move_uci = (true, move_result g m).
Proof.
  intros Hparse Hm. unfold make_move, move_result, extra_move_pending, grants_extra_move.
  rewrite Hparse, Hm. cbn [negb].
  unfold _is_square_attacked.
  destruct g as [b mx mp pc cp go wn lc ex]; simpl.
  destruct (piece_at b (to_square m)) as [p|]; simpl;
    [destruct (_ =? _); simpl; [destruct (is_attacked_by _ _ _); simpl|]|];
    destruct (is_checkmate (push b m)); simpl;
    rewrite ?orb_true_r, ?orb_false_r, ?andb_true_r, ?andb_false_r; simpl;
    try reflexivity;
    destruct ex; simpl; rewrite ?andb_true_r, ?andb_false_r; try reflexivity;
    destruct (_ && _); reflexivity.
Qed.

(** In particular a generated move is accepted. *)
Lemma make_move_legal g move_uci m :
  from_uci move_uci = Some m -> m ∈ legal_moves (board g) ->
  make_move g move_uci = (true, move_result g m).
Proof. intros Hparse Hm. apply make_move_accepted; [done|]. by apply is_legal_listed. Qed.

(** A rejected move returns [False] and changes nothing. *)
Lemma make_move_illegal g move_uci :
  (from_uci move_uci = None
   \/ exists m, from_uci move_uci = Some m /\ is_legal (board g) m = false) ->
  make_move g move_uci = (false, g).
Proof.
  unfold make_move. intros [-> | (m & -> & ->)]; done.
Qed.

(** Every call is one or the other. *)
Lemma make_move_cases g move_uci :
  make_move g move_uci = (false, g)
  \/ exists m, from_uci move_uci = Some m /\ is_legal (board g) m = true
               /\ make_move g move_uci = (true, move_result g m).
Proof.
  destruct (from_uci move_uci) as [m|] eqn:Hparse.
  - destruct (is_legal (board g) m) eqn:Hm.
    + right. exists m. eauto using make_move_accepted.
    + left. apply make_move_illegal. eauto.
  - left. apply make_move_illegal. eauto.
Qed.

(** The winner on points: strictly more points, or a draw. *)
Lemma winner_by_points_spec (d : Tally) :
  (d.[white] > d.[black] -> winner_by_points d = WinnerIs white)
  /\ (d.[black] > d.[white] -> winner_by_points d = WinnerIs black)
  /\ (d.[white] = d.[black] -> winner_by_points d = Draw).
Proof.
  unfold winner_by_points.
  destruct (Z.gtb_spec d.[white] d.[black]), (Z.gtb_spec d.[black] d.[white]);
    repeat split; intros; try done; lia.
Qed.




(** One operation moves each counter up by zero or one. *)
Lemma apply_op_moves_played g op p :
  max_moves (apply_op g op) = max_moves g
  /\ (moves_played g).[p] <= (moves_played (apply_op g op)).[p]
     <= (moves_played g).[p] + 1.
Proof.
  destruct op as [move_uci|]; simpl.
  - destruct (make_move_cases g move_uci) as [-> | (m & _ & _ & ->)]; simpl.
    + split; [done|lia].
    + split; [done|]. rewrite tally_get_set. case_bool_decide; subst; lia.
  - unfold skip_turn. case_match; simpl; (split; [done|]);
      rewrite tally_get_set; case_bool_decide; subst; lia.
Qed.

(** Along any sequence of operations, from any state, the counter of each
    side never decreases and grows by at most one per operation;
    [max_moves] does not change. *)
Lemma moves_played_monotone (ops : list Op) g p :
  max_moves (run ops g) = max_moves g
  /\ (moves_played g).[p] <= (moves_played (run ops g)).[p]
     <= (moves_played g).[p] + Z.of_nat (length ops).
Proof.
  revert g. induction ops as [|op ops IH]; intros g; simpl.
  - split; [done|lia].
  - destruct (IH (apply_op g op)) as [-> ?].
    destruct (apply_op_moves_played g op p) as [-> ?]. split; [done|lia].
Qed.

(** The loop over the legal moves only sees the capturing ones. *)
Lemma fold_capture_values (f : num -> Z -> num) (b : Board) (l : list Move) (acc : num) :
  fold_left (fun total move =>
               match piece_at b (to_square move) with
               | Some cp => f total (PIECE_VALUES (piece_type cp))
               | None => total
               end) l acc
  = fold_left f
      (omap (fun move => (fun cp => PIECE_VALUES (piece_type cp))
                           <$> piece_at b (to_square move)) l) acc.
Proof.
  revert acc. induction l as [|move l IH]; intros acc; simpl; [done|].
  destruct (piece_at b (to_square move)); simpl; apply IH.
Qed.

(** C3, as the program has it.  [evaluate_position] scores a finished
    game by its recorded winner -- 10000 for White, -10000 for Black, 0 for
    a draw -- however the game ended; for a game in progress it is the
    captured points differential, then the check adjustment, then the
    factor 1.5 when a side has at most two moves left, then 0.1 times the
    value of each capture open to the side to move, added for White and
    subtracted for Black, in that order. *)
Theorem evaluate_position_by_winner g :
  evaluate_position g = evaluate_by_winner g.
Proof.
  unfold evaluate_position, evaluate_by_winner.
  destruct (game_over g).
  - by repeat case_match.
  - unfold heuristic_spec, capture_values.
    destruct (bool_decide (turn (board g) = WHITE)) eqn:Hturn;
      rewrite <- fold_capture_values; f_equal.
    all: replace (bool_decide (_ <= 2 \/ _ <= 2))
           with ((max_moves g - (moves_played g).[white] <=? 2)
                 || (max_moves g - (moves_played g).[black] <=? 2))
           by (apply eq_true_iff_eq; rewrite orb_true_iff, !Z.leb_le,
                 bool_decide_eq_true; done).
    all: by destruct (is_check (board g)).
Qed.
End GameFacts.

(** Closed facts about concrete games are settled by evaluation. *)
Ltac decide_closed := apply (bool_decide_unpack _); vm_compute; exact I.

(* ===================================================================== *)
(** * The rules at work on concrete games *)
(* ===================================================================== *)

(** Scenario B: six quiet moves each end the game in a draw, 0 to 0. *)
Example quiet_game_is_drawn :
  game_over quiet_game = true /\ winner quiet_game = Some Draw
  /\ points_captured quiet_game = {| at_white := 0; at_black := 0 |}
  /\ moves_played quiet_game = {| at_white := 6; at_black := 6 |}.
Proof. vm_compute. repeat split. Qed.

(** Scenario D: a mating first move ends the game at once. *)
Example back_rank_mate :
  let g := (make_move back_rank "a1a8").2 in
  game_over g = true /\ winner g = Some (WinnerIs white)
  /\ moves_played g = {| at_white := 1; at_black := 0 |}.
Proof. vm_compute. repeat split. Qed.








(** After that capture the board has Black to move while White is the
    current player: the next accepted move is a move of the black pieces.
    Here the knight takes the rook, the move and the five points are
    counted for White, and then Black is the current player on a board
    that has White to move. *)
Example extra_move_made_with_the_other_pieces :
  let g := (make_move defended_pawn "a1a6").2 in
  let g' := (make_move g "b8a6").2 in
  current_player g = WHITE /\ turn (board g) = BLACK
  /\ (make_move g "a6a7").1 = false
  /\ (make_move g "b8a6").1 = true
  /\ (moves_played g').[white] = 7 /\ (points_captured g').[white] = 1 + 5
  /\ extra_move_granted g' = false /\ game_over g' = false
  /\ current_player g' = BLACK /\ turn (board g') = WHITE.
Proof. vm_compute. repeat split; reflexivity. Qed.

(** C9 does not hold as stated.  Fifteen skipped turns in a new game take
    White's counter to 8, above [max_moves + 1 = 7]. *)
Lemma moves_played_exceeds_bound :
  let g := run (replicate 15 SkipTurn) new_game in
  (moves_played g).[white] = 8 /\ max_moves g + 1 = 7
  /\ ~ (moves_played g).[white] <= max_moves g + 1.
Proof. vm_compute. repeat split. intros H. apply H. reflexivity. Qed.

(** C3 does not hold as stated.  [won_on_points] ended on the move budget,
    not by checkmate; the program scores it 10000 for the winner, while
    the rules for a game not ended by checkmate give 1.5. *)
Lemma evaluate_differs_from_spec :
  game_over won_on_points = true
  /\ is_checkmate (board won_on_points) = false
  /\ evaluate_position won_on_points = PInt 10000
  /\ evaluate_spec won_on_points = PFloat 1.5
  /\ evaluate_position won_on_points <> evaluate_spec won_on_points.
Proof. vm_compute. repeat split. discriminate. Qed.

(* ===================================================================== *)
(** * The object store: what the search may touch *)
(* ===================================================================== *)

Section StoreFacts.
Context {E : RulesEngine}.
Implicit Types (st : Store) (w : World) (r : loc).

Lemma store_extends_refl st : store_extends st st.
Proof. by repeat split. Qed.

Lemma store_extends_trans st1 st2 st3 :
  store_extends st1 st2 -> store_extends st2 st3 -> store_extends st1 st3.
Proof.
  intros (? & ? & ?) (? & ? & ?). repeat split; by etrans.
Qed.

(** Rewriting a cell beyond a prefix keeps the prefix. *)
Lemma prefix_insert_beyond {A} (l0 l : list A) (i : nat) (x : A) :
  l0 `prefix_of` l -> (length l0 <= i)%nat -> l0 `prefix_of` <[i := x]> l.
Proof.
  intros [k ->] Hi. exists (<[(i - length l0)%nat := x]> k).
  by rewrite insert_app_r_alt by exact Hi.
Qed.

Lemma prefix_snoc {A} (l0 l : list A) (x : A) :
  l0 `prefix_of` l -> l0 `prefix_of` l ++ [x].
Proof. intros [k ->]. exists (k ++ [x]). by rewrite app_assoc. Qed.

(** An object of [st] reads the same in every extension of [st]. *)
Lemma load_game_extends st st' r g :
  store_extends st st' -> load_game st r = Some g -> load_game st' r = Some g.
Proof.
  intros (Hg & Hb & Hd). unfold load_game. intros H.
  destruct (games st !! r) as [o|] eqn:Ho; [|done]. simpl in H.
  destruct (boards st !! board_ref o) as [b|] eqn:Hbo; [|done]. simpl in H.
  destruct (dicts st !! moves_played_ref o) as [mp|] eqn:Hmp; [|done]. simpl in H.
  destruct (dicts st !! points_captured_ref o) as [pc|] eqn:Hpc; [|done]. simpl in H.
  rewrite (prefix_lookup_Some _ _ _ _ Ho Hg). simpl.
  rewrite (prefix_lookup_Some _ _ _ _ Hbo Hb). simpl.
  rewrite (prefix_lookup_Some _ _ _ _ Hmp Hd). simpl.
  by rewrite (prefix_lookup_Some _ _ _ _ Hpc Hd).
Qed.

(** What a method leaves in the attributes of a valid game object is what
    is read from it afterwards. *)
Lemma load_update_game st r g :
  valid_game st r -> load_game (update_game st r g) r = Some g.
Proof.
  intros (o & Ho & Hb & Hmp & Hpc & Hne).
  assert (Hr : (r < length (games st))%nat) by (by eapply lookup_lt_Some).
  unfold update_game, load_game. rewrite Ho. cbn [games boards dicts].
  rewrite (list_lookup_insert_eq (games st)) by exact Hr. simpl.
  rewrite (list_lookup_insert_eq (boards st)) by exact Hb. simpl.
  rewrite list_lookup_insert_eq by (by rewrite length_insert). simpl.
  rewrite list_lookup_insert_ne by exact Hne.
  rewrite list_lookup_insert_eq by exact Hpc. simpl.
  by destruct g.
Qed.

(** A game object stays valid under the methods. *)
Lemma update_game_valid st r r' g :
  valid_game st r' -> valid_game (update_game st r g) r'.
Proof.
  intros (o' & Ho' & Hb & Hmp & Hpc & Hne). unfold update_game.
  destruct (games st !! r) as [o|] eqn:Ho; [|by exists o'].
  destruct (decide (r' = r)) as [->|Hr].
  - assert (o' = o) as -> by congruence.
    eexists. cbn [games boards dicts]. split.
    + apply list_lookup_insert_eq. by eapply lookup_lt_Some.
    + simpl. by rewrite !length_insert.
  - exists o'. cbn [games boards dicts]. split.
    + by rewrite list_lookup_insert_ne.
    + by rewrite !length_insert.
Qed.

End StoreFacts.

(* ===================================================================== *)
(** * Computations that leave existing objects alone *)
(* ===================================================================== *)

Section FrameFacts.
Context {E : RulesEngine}.
Implicit Types (st : Store) (w : World) (r : loc).


Lemma frame_ret {A} (a : A) : frame (ret a).
Proof. intros w. apply store_extends_refl. Qed.

Lemma frame_raise {A} (e : exn) : frame (raise (A:=A) e).
Proof. intros w. apply store_extends_refl. Qed.

Lemma frame_bind {A B} (m : M A) (k : A -> M B) :
  frame m -> (forall a, frame (k a)) -> frame (x <- m ;; k x).
Proof.
  intros Hm Hk w. unfold bind. specialize (Hm w).
  destruct (m w) as [[a|e] w1]; simpl in *; [|done].
  eapply store_extends_trans; [done|apply Hk].
Qed.

Lemma frame_try_except {A} (m : M A) (e : exn) (h : M A) :
  frame m -> frame h -> frame (try_except m e h).
Proof.
  intros Hm Hh w. unfold try_except. specialize (Hm w).
  destruct (m w) as [[a|e'] w1]; simpl in *; [done|].
  case_bool_decide; [|done].
  eapply store_extends_trans; [done|apply Hh].
Qed.

Lemma frame_deref {A} (o : option A) : frame (deref o).
Proof. destruct o; [apply frame_ret|apply frame_raise]. Qed.

Lemma frame_get_store : frame get_store.
Proof. intros w. apply store_extends_refl. Qed.

Lemma frame_get_table : frame get_table.
Proof. intros w. apply store_extends_refl. Qed.

Lemma frame_put_table t : frame (put_table t).
Proof. intros w. apply store_extends_refl. Qed.

End FrameFacts.

Create HintDb frame.
#[export] Hint Resolve frame_ret frame_raise frame_deref frame_get_store
  frame_get_table frame_put_table frame_try_except : frame.

(** One step of a frame proof: split a bind, a conditional or a match, or
    close the goal with a known fact. *)
Ltac frame_step :=
  match goal with
  | |- frame (Objects.bind _ _) => apply frame_bind; [|intros ?]
  | |- frame (try_except _ _ _) => apply frame_try_except
  | |- frame (if ?c then _ else _) => destruct c
  | |- frame (match ?x with _ => _ end) => destruct x
  | |- frame _ => solve [eauto with frame]
  end.
Ltac frame_auto := repeat frame_step.

Section ObjectFrame.
Context {E : RulesEngine}.
Implicit Types (st : Store) (w : World) (r : nat).

Lemma frame_game_obj r : frame (game_obj r).
Proof. unfold game_obj. frame_auto. Qed.
Hint Resolve frame_game_obj : frame.

Lemma frame_board_of r : frame (board_of r).
Proof. unfold board_of. frame_auto. Qed.

Lemma frame_current_player_of r : frame (current_player_of r).
Proof. unfold current_player_of. frame_auto. Qed.

Lemma frame_game_over_of r : frame (game_over_of r).
Proof. unfold game_over_of. frame_auto. Qed.

Lemma frame_new_board b : frame (new_board b).
Proof.
  intros w. simpl. repeat split; simpl; try done. by apply prefix_app_r.
Qed.

Lemma frame_new_dict d : frame (new_dict d).
Proof.
  intros w. simpl. repeat split; simpl; try done. by apply prefix_app_r.
Qed.

Lemma frame_new_game_obj o : frame (new_game_obj o).
Proof.
  intros w. simpl. repeat split; simpl; try done. by apply prefix_app_r.
Qed.
Hint Resolve frame_new_board frame_new_dict frame_new_game_obj
  frame_board_of frame_current_player_of frame_game_over_of : frame.

Lemma frame_board_copy r : frame (board_copy r).
Proof. unfold board_copy. frame_auto. Qed.

Lemma frame_dict_copy r : frame (dict_copy r).
Proof. unfold dict_copy. frame_auto. Qed.
Hint Resolve frame_board_copy frame_dict_copy : frame.

Lemma frame_clone_game game : frame (_clone_game game).
Proof. unfold _clone_game. frame_auto. Qed.

Lemma frame_get_legal_moves_at r : frame (get_legal_moves_at r).
Proof. unfold get_legal_moves_at. frame_auto. Qed.

Lemma frame_get_position_hash game : frame (_get_position_hash game).
Proof. unfold _get_position_hash. frame_auto. Qed.

Lemma frame_evaluate_position game : frame (_evaluate_position game).
Proof. unfold _evaluate_position. frame_auto. Qed.

Lemma frame_parse_uci move_uci : frame (parse_uci move_uci).
Proof. unfold parse_uci. frame_auto. Qed.

Lemma frame_table_store pos_hash s d : frame (table_store pos_hash s d).
Proof. unfold table_store. frame_auto. Qed.

Hint Resolve frame_clone_game frame_get_legal_moves_at frame_get_position_hash
  frame_evaluate_position frame_parse_uci frame_table_store : frame.


(** An in-place update of such an object changes nothing of [st0]. *)
Lemma update_game_beyond st0 st r g :
  store_extends st0 st -> created_after st0 st r ->
  store_extends st0 (update_game st r g).
Proof.
  intros (Hg & Hb & Hd) Hnew. unfold update_game.
  destruct (games st !! r) as [o|] eqn:Ho; [|done].
  destruct (Hnew o Ho) as (? & ? & ? & ?).
  repeat split; simpl; auto using prefix_insert_beyond.
Qed.

Lemma make_move_at_beyond st0 w r move_uci :
  store_extends st0 (store w) -> created_after st0 (store w) r ->
  store_extends st0 (store (make_move_at r move_uci w).2).
Proof.
  intros Hext Hnew. unfold make_move_at, bind, get_store, deref. simpl.
  destruct (load_game (store w) r) as [g|]; simpl; [|done].
  destruct (make_move g move_uci) as [ok g']. simpl.
  by apply update_game_beyond.
Qed.

(** The clone is a new object on new cells. *)
Lemma clone_game_created game w r w1 :
  _clone_game game w = (Return r, w1) -> created_after (store w) (store w1) r.
Proof.
  unfold _clone_game, game_obj, board_copy, dict_copy, new_board, new_dict,
    new_game_obj, bind, get_store, put_store, deref, ret, raise. simpl.
  destruct (games (store w) !! game) as [o|]; simpl; [|done].
  destruct (boards (store w) !! board_ref o) as [b|]; simpl; [|done].
  destruct (dicts (store w) !! moves_played_ref o) as [mp|]; simpl; [|done].
  destruct ((dicts (store w) ++ [mp]) !! points_captured_ref o) as [pc|]; simpl;
    [|done].
  intros [= <- <-]. intros o'. simpl.
  rewrite lookup_app_r, Nat.sub_diag by done. simpl. intros [= <-]. simpl.
  rewrite length_app. simpl. repeat split; lia.
Qed.

(** [game_copy = self._clone_game(game); game_copy.make_move(move_uci)],
    then anything that leaves existing objects alone. *)
Lemma frame_simulate {A} game move_uci (k : loc -> M A) :
  (forall game_copy, frame (k game_copy)) ->
  frame (game_copy <- _clone_game game ;; make_move_at game_copy move_uci ;;; k game_copy).
Proof.
  intros Hk w. unfold bind at 1.
  pose proof (frame_clone_game game w) as Hclone.
  destruct (_clone_game game w) as [[r|e] w1] eqn:Hc; simpl in *; [|done].
  apply clone_game_created in Hc.
  pose proof (make_move_at_beyond (store w) w1 r move_uci Hclone Hc) as Hmove.
  unfold bind. destruct (make_move_at r move_uci w1) as [[ok|e] w2]; simpl in *; [|done].
  eapply store_extends_trans; [done|apply Hk].
Qed.

(** [board_copy = self.game.board.copy(); board_copy.push(move)], then
    anything that leaves existing objects alone. *)
Lemma frame_copy_push {A} r move (k : loc -> M A) :
  (forall copy, frame (k copy)) ->
  frame (copy <- board_copy r ;; push_at copy move ;;; k copy).
Proof.
  intros Hk w. unfold bind at 1, board_copy, new_board, bind, get_store, put_store,
    deref, ret, raise. simpl.
  destruct (boards (store w) !! r) as [b|]; simpl; [|apply store_extends_refl].
  unfold push_at, bind, get_store, put_store, deref, ret, raise. simpl.
  rewrite lookup_app_r, Nat.sub_diag by done. simpl.
  destruct (push_ok b move); simpl.
  - eapply store_extends_trans; [|apply Hk]. simpl.
    repeat split; simpl; try done.
    apply prefix_insert_beyond; [by apply prefix_app_r|done].
  - repeat split; simpl; try done. by apply prefix_app_r.
Qed.

Lemma frame_negamax_loop child game beta ordered_moves alpha max_score :
  (forall game_copy a b, frame (child game_copy a b)) ->
  frame (negamax_loop child game beta ordered_moves alpha max_score).
Proof.
  intros Hchild. revert alpha max_score.
  induction ordered_moves as [|move_uci rest IH]; intros; simpl; [frame_auto|].
  apply frame_simulate. intros game_copy. frame_auto.
Qed.

Lemma frame_negamax_leaf game depth color pos_hash :
  frame (negamax_leaf game depth color pos_hash).
Proof. unfold negamax_leaf. frame_auto. Qed.

End ObjectFrame.

#[export] Hint Resolve frame_game_obj frame_new_board frame_new_dict
  frame_new_game_obj frame_board_of frame_current_player_of frame_game_over_of
  frame_board_copy frame_dict_copy frame_clone_game frame_get_legal_moves_at
  frame_get_position_hash frame_evaluate_position frame_parse_uci
  frame_table_store frame_negamax_leaf : frame.

Section OrderingFrame.
Context {E : RulesEngine}.
Variable self_game : nat.

Lemma frame_gives_check move : frame (gives_check self_game move).
Proof.
  unfold gives_check. apply frame_bind; [eauto with frame|]. intros o.
  apply frame_copy_push. intros copy. frame_auto.
Qed.
Hint Resolve frame_gives_check : frame.

Lemma frame_order_score move_uci : frame (order_score self_game move_uci).
Proof. unfold order_score. frame_auto. Qed.
Hint Resolve frame_order_score : frame.

Lemma frame_score_moves moves : frame (score_moves self_game moves).
Proof. induction moves; simpl; frame_auto. Qed.
Hint Resolve frame_score_moves : frame.

Lemma frame_order_moves moves : frame (_order_moves self_game moves).
Proof. unfold _order_moves. frame_auto. Qed.
Hint Resolve frame_order_moves : frame.

Lemma frame_fast_score move_uci : frame (fast_score self_game move_uci).
Proof. unfold fast_score. frame_auto. Qed.
Hint Resolve frame_fast_score : frame.

Lemma frame_fast_loop legal_moves best_score best_move :
  frame (fast_loop self_game legal_moves best_score best_move).
Proof.
  revert best_score best_move.
  induction legal_moves; intros; simpl; frame_auto.
Qed.
Hint Resolve frame_fast_loop : frame.

Lemma frame_get_fast_move legal_moves : frame (_get_fast_move self_game legal_moves).
Proof. unfold _get_fast_move. frame_auto. Qed.
Hint Resolve frame_get_fast_move : frame.

End OrderingFrame.

#[export] Hint Resolve frame_gives_check frame_order_score frame_score_moves
  frame_order_moves frame_fast_score frame_fast_loop frame_get_fast_move : frame.

Section SearchFrame.
Context {E : RulesEngine}.
Variable clock : nat -> float.
Variable self_game : nat.

Lemma frame_time : frame (time clock).
Proof. intros w. apply store_extends_refl. Qed.
Hint Resolve frame_time : frame.

Lemma frame_out_of_time start_time time_limit :
  frame (out_of_time clock start_time time_limit).
Proof. unfold out_of_time. frame_auto. Qed.
Hint Resolve frame_out_of_time : frame.

Lemma frame_negamax game depth alpha beta color start_time time_limit :
  frame (_negamax clock self_game game depth alpha beta color start_time time_limit).
Proof.
  revert game alpha beta color.
  induction depth as [|depth IH]; intros; simpl; frame_auto.
  apply frame_negamax_loop. intros. apply IH.
Qed.
Hint Resolve frame_negamax : frame.

Lemma frame_root_loop depth start_time time_limit ordered_moves best_score best_move :
  frame (root_loop clock self_game depth start_time time_limit
           ordered_moves best_score best_move).
Proof.
  revert best_score best_move.
  induction ordered_moves as [|move_uci rest IH]; intros; simpl; [frame_auto|].
  apply frame_bind; [eauto with frame|]. intros late.
  destruct late; [frame_auto|].
  apply frame_simulate. intros game_copy. frame_auto.
Qed.
Hint Resolve frame_root_loop : frame.

Lemma frame_iterative_deepening_search depth time_limit :
  frame (_iterative_deepening_search clock self_game depth time_limit).
Proof. unfold _iterative_deepening_search. frame_auto. Qed.
Hint Resolve frame_iterative_deepening_search : frame.

Lemma frame_search_at_depth start_time time_limit depth :
  frame (search_at_depth clock self_game start_time time_limit depth).
Proof. unfold search_at_depth. frame_auto. Qed.
Hint Resolve frame_search_at_depth : frame.

Lemma frame_deepening_loop start_time time_limit depths best_move :
  frame (deepening_loop clock self_game start_time time_limit depths best_move).
Proof.
  revert best_move. induction depths as [|depth rest IH]; intros; simpl; frame_auto.
Qed.
Hint Resolve frame_deepening_loop : frame.

Lemma frame_find_best_move max_time time_limit :
  frame (find_best_move clock self_game max_time time_limit).
Proof. unfold find_best_move. frame_auto. Qed.

End SearchFrame.

#[export] Hint Resolve frame_time frame_out_of_time frame_negamax
  frame_iterative_deepening_search frame_search_at_depth frame_deepening_loop
  frame_find_best_move : frame.

(* ===================================================================== *)
(** * What the search returns *)
(* ===================================================================== *)

Section MonadFacts.
Context {E : RulesEngine}.

Lemma bind_Return_inv {A B} (m : M A) (k : A -> M B) w b w' :
  (x <- m ;; k x) w = (Return b, w') ->
  exists a w1, m w = (Return a, w1) /\ k a w1 = (Return b, w').
Proof.
  unfold bind. destruct (m w) as [[a|e] w1]; [eauto|done].
Qed.

Lemma bind_Return {A B} (m : M A) (k : A -> M B) w a w1 :
  m w = (Return a, w1) -> (x <- m ;; k x) w = k a w1.
Proof. unfold bind. by intros ->. Qed.

Lemma bind_Raise {A B} (m : M A) (k : A -> M B) w e w1 :
  m w = (Raise e, w1) -> (x <- m ;; k x) w = (Raise e, w1).
Proof. unfold bind. by intros ->. Qed.

(** Where a computation stops, existing objects are as they were. *)
Lemma frame_run {A} (m : M A) w out w' :
  frame m -> m w = (out, w') -> store_extends (store w) (store w').
Proof. intros Hm H. specialize (Hm w). by rewrite H in Hm. Qed.

End MonadFacts.

Section SortFacts.

(** Sorting by score rearranges the scored moves. *)
Lemma insert_by_score_perm x l : insert_by_score x l ≡ₚ x :: l.
Proof.
  induction l as [|y l IH]; simpl; [done|].
  destruct (_ <? _)%num; [|done]. rewrite IH. apply Permutation_swap.
Qed.

Lemma sort_by_score_perm l : sort_by_score l ≡ₚ l.
Proof.
  induction l as [|x l IH]; simpl; [done|].
  rewrite insert_by_score_perm. by rewrite IH.
Qed.

End SortFacts.

Section OrderingResults.
Context {E : RulesEngine}.
Variable self_game : nat.
Implicit Types (st : Store) (w : World) (b : Board).


Lemma sees_board_extends st st' r b :
  store_extends st st' -> sees_board st r b -> sees_board st' r b.
Proof.
  intros (Hg & Hb & _) (o & Ho & Hbo). exists o.
  eauto using prefix_lookup_Some.
Qed.

Lemma load_game_sees_board st r g :
  load_game st r = Some g -> sees_board st r (board g).
Proof.
  unfold load_game. intros H.
  destruct (games st !! r) as [o|] eqn:Ho; [|done]. simpl in H.
  destruct (boards st !! board_ref o) as [b|] eqn:Hbo; [|done]. simpl in H.
  destruct (dicts st !! moves_played_ref o) as [mp|]; [|done]. simpl in H.
  destruct (dicts st !! points_captured_ref o) as [pc|]; [|done]. simpl in H.
  injection H as <-. by exists o.
Qed.

Lemma board_of_sees w r b :
  sees_board (store w) r b -> board_of r w = (Return b, w).
Proof.
  intros (o & Ho & Hb). unfold board_of, game_obj, bind, get_store. simpl.
  rewrite Ho. simpl. by rewrite Hb.
Qed.

Lemma get_legal_moves_at_sees w r b :
  sees_board (store w) r b ->
  get_legal_moves_at r w = (Return (map uci (legal_moves b)), w).
Proof.
  intros Hb. unfold get_legal_moves_at.
  by rewrite (bind_Return _ _ _ _ _ (board_of_sees w r b Hb)).
Qed.

(** ** The move orderer *)

Lemma score_moves_fst moves w scored w' :
  score_moves self_game moves w = (Return scored, w') -> map fst scored = moves.
Proof.
  revert w scored. induction moves as [|move_uci rest IH]; intros w scored; simpl.
  - by intros [= <- <-].
  - intros H. apply bind_Return_inv in H as (s & w1 & _ & H).
    apply bind_Return_inv in H as (scored' & w2 & Hrest & H).
    injection H as <- <-. simpl. f_equal. eauto.
Qed.

Lemma order_moves_perm moves w l w' :
  _order_moves self_game moves w = (Return l, w') -> l ≡ₚ moves.
Proof.
  unfold _order_moves. intros H.
  apply bind_Return_inv in H as (scored & w1 & Hscored & H).
  injection H as <- <-. rewrite sort_by_score_perm.
  by rewrite (score_moves_fst _ _ _ _ Hscored).
Qed.

(** On a move that can be pushed on the engine's board, the check test
    runs to its end. *)
Lemma gives_check_run w b move :
  sees_board (store w) self_game b -> push_ok b move = true ->
  exists w1, gives_check self_game move w = (Return (is_check (push b move)), w1).
Proof.
  intros (o & Ho & Hb) Hok.
  unfold gives_check, game_obj, board_copy, new_board, push_at, bind, get_store,
    put_store, deref, ret. simpl.
  rewrite Ho. simpl. rewrite Hb. simpl.
  rewrite lookup_app_r, Nat.sub_diag by done. simpl. rewrite Hok. simpl.
  rewrite list_lookup_insert_eq by (rewrite length_app; simpl; lia). simpl.
  eauto.
Qed.

Lemma order_score_run w b move_uci move :
  sees_board (store w) self_game b ->
  from_uci move_uci = Some move -> push_ok b move = true ->
  exists s w1, order_score self_game move_uci w = (Return s, w1)
               /\ store_extends (store w) (store w1).
Proof.
  intros Hb Hparse Hok.
  assert (Hframe := frame_order_score self_game move_uci w).
  unfold order_score, parse_uci in *. rewrite Hparse in *.
  unfold bind at 1 in Hframe. unfold bind at 1. unfold ret at 1 in Hframe. unfold ret at 1.
  rewrite (bind_Return _ _ _ _ _ (board_of_sees w _ b Hb)) in *.
  rewrite (bind_Return _ _ _ _ _ (board_of_sees w _ b Hb)) in *.
  destruct (gives_check_run w b move Hb Hok) as (w1 & Hcheck).
  pose proof (frame_run _ _ _ _ (frame_gives_check self_game move) Hcheck) as Hext.
  rewrite (bind_Return _ _ _ _ _ Hcheck) in *.
  rewrite (bind_Return _ _ _ _ _
             (board_of_sees w1 _ b (sees_board_extends _ _ _ _ Hext Hb))) in *.
  eauto.
Qed.

Lemma score_moves_run moves w b :
  sees_board (store w) self_game b ->
  Forall (fun move_uci => exists move, from_uci move_uci = Some move
                                       /\ push_ok b move = true) moves ->
  exists scored w1, score_moves self_game moves w = (Return scored, w1).
Proof.
  intros Hb Hmoves. revert w Hb.
  induction Hmoves as [|move_uci rest (move & Hparse & Hok) _ IH]; intros w Hb; simpl.
  - eauto.
  - destruct (order_score_run w b move_uci move Hb Hparse Hok) as (s & w1 & Hs & Hext).
    rewrite (bind_Return _ _ _ _ _ Hs).
    destruct (IH w1 (sees_board_extends _ _ _ _ Hext Hb)) as (scored & w2 & Hrest).
    rewrite (bind_Return _ _ _ _ _ Hrest). eauto.
Qed.

(** On an engine that keeps its contract, the legal moves of a position
    are written in notation that reads back and can be pushed on it. *)
Lemma legal_move_strings_playable b :
  PushesLegalMoves E -> ReadsBackLegalMoves E ->
  Forall (fun move_uci => exists move, from_uci move_uci = Some move
                                       /\ push_ok b move = true)
         (map uci (legal_moves b)).
Proof.
  intros Hpush Hread. apply Forall_forall. intros move_uci Hin.
  apply list_elem_of_fmap in Hin as (m & -> & Hm). eauto.
Qed.


(** ** The moves the search can return *)

Lemma fast_loop_result legal_moves best_score best_move w m w' :
  fast_loop self_game legal_moves best_score best_move w = (Return m, w') ->
  m = best_move \/ m ∈ legal_moves.
Proof.
  revert best_score best_move w.
  induction legal_moves as [|move_uci rest IH]; intros best_score best_move w; simpl.
  - intros [= <- <-]. by left.
  - intros H. apply bind_Return_inv in H as (s & w1 & _ & H).
    apply bind_Return_inv in H as (player & w2 & _ & H).
    destruct (better player s best_score); apply IH in H as [->|H];
      rewrite elem_of_cons; auto.
Qed.

Lemma get_fast_move_result legal_moves w m w' :
  _get_fast_move self_game legal_moves w = (Return m, w') -> m ∈ legal_moves.
Proof.
  unfold _get_fast_move. intros H.
  apply bind_Return_inv in H as (player & w1 & _ & H).
  destruct legal_moves as [|first rest]; [done|].
  by apply fast_loop_result in H as [->|H]; [apply list_elem_of_here|].
Qed.

End OrderingResults.

Section SearchResults.
Context {E : RulesEngine}.
Variable clock : nat -> float.
Variable self_game : nat.
Implicit Types (st : Store) (w : World) (b : Board).

Lemma time_run w :
  time clock w = (Return (PFloat (clock (ticks w))),
                  {| store := store w; transposition_table := transposition_table w;
                     ticks := S (ticks w) |}).
Proof. done. Qed.

Lemma root_loop_result depth start_time time_limit ordered_moves best_score best_move
    w m w' :
  root_loop clock self_game depth start_time time_limit ordered_moves
    best_score best_move w = (Return m, w') ->
  m = best_move \/ m ∈ ordered_moves.
Proof.
  revert best_score best_move w.
  induction ordered_moves as [|move_uci rest IH]; intros best_score best_move w; simpl.
  - intros [= <- <-]. by left.
  - intros H. apply bind_Return_inv in H as (late & w1 & _ & H).
    destruct late; [done|].
    apply bind_Return_inv in H as (game_copy & w2 & _ & H).
    apply bind_Return_inv in H as (ok & w3 & _ & H).
    apply bind_Return_inv in H as (player & w4 & _ & H).
    apply bind_Return_inv in H as (s & w5 & _ & H).
    apply bind_Return_inv in H as (player' & w6 & _ & H).
    apply bind_Return_inv in H as (player'' & w7 & _ & H).
    destruct (better _ _ _); apply IH in H as [->|H];
      rewrite elem_of_cons; auto.
Qed.

(** A round of the search returns one of the legal moves it read. *)
Lemma iterative_deepening_search_result depth time_limit w b m w' :
  sees_board (store w) self_game b ->
  _iterative_deepening_search clock self_game depth time_limit w = (Return m, w') ->
  match m with
  | Some move_uci => move_uci ∈ map uci (legal_moves b)
  | None => legal_moves b = []
  end.
Proof.
  intros Hb. unfold _iterative_deepening_search. intros H.
  apply bind_Return_inv in H as (start_time & w1 & Htime & H).
  assert (Hb1 : sees_board (store w1) self_game b).
  { rewrite time_run in Htime. by injection Htime as _ <-. }
  rewrite (bind_Return _ _ _ _ _ (get_legal_moves_at_sees _ _ b Hb1)) in H.
  destruct (map uci (legal_moves b)) as [|first rest] eqn:Hlegal.
  - injection H as <- <-. by destruct (legal_moves b).
  - apply bind_Return_inv in H as (player & w2 & _ & H).
    apply bind_Return_inv in H as (ordered & w3 & Hordered & H).
    apply bind_Return_inv in H as (best & w4 & Hbest & H).
    injection H as <- <-.
    apply order_moves_perm in Hordered. apply root_loop_result in Hbest.
    rewrite Hordered in Hbest. destruct Hbest as [->|Hbest]; [|done].
    apply list_elem_of_here.
Qed.

End SearchResults.

(* ===================================================================== *)
(** * The timeout signal *)
(* ===================================================================== *)

Section TimeoutFacts.
Context {E : RulesEngine}.


Lemma nto_ret {A} (a : A) : never_times_out (ret a).
Proof. by intros w. Qed.

Lemma nto_raise {A} (e : exn) : e <> TimeoutError -> never_times_out (raise (A:=A) e).
Proof. intros He w. simpl. congruence. Qed.

Lemma nto_bind {A B} (m : M A) (k : A -> M B) :
  never_times_out m -> (forall a, never_times_out (k a)) ->
  never_times_out (x <- m ;; k x).
Proof.
  intros Hm Hk w. unfold bind. specialize (Hm w).
  destruct (m w) as [[a|e] w1]; simpl in *; [apply Hk|].
  intros [= ->]. done.
Qed.

Lemma nto_deref {A} (o : option A) : never_times_out (deref o).
Proof. destruct o; [apply nto_ret|by apply nto_raise]. Qed.

Lemma nto_get_store : never_times_out get_store.
Proof. by intros w. Qed.

Lemma nto_put_store st : never_times_out (put_store st).
Proof. by intros w. Qed.

Lemma nto_time clock : never_times_out (time clock).
Proof. by intros w. Qed.

End TimeoutFacts.

Create HintDb nto.
#[export] Hint Resolve nto_ret nto_deref nto_get_store nto_put_store nto_time : nto.
#[export] Hint Extern 1 (never_times_out (raise _)) => apply nto_raise; discriminate : nto.

Ltac nto_step :=
  match goal with
  | |- never_times_out (Objects.bind _ _) => apply nto_bind; [|intros ?]
  | |- never_times_out (if ?c then _ else _) => destruct c
  | |- never_times_out (match ?x with _ => _ end) => destruct x
  | |- never_times_out _ => solve [eauto with nto]
  end.
Ltac nto_auto := repeat nto_step.

Section FastMoveTimeout.
Context {E : RulesEngine}.
Variable self_game : nat.

Lemma nto_game_obj r : never_times_out (game_obj r).
Proof. unfold game_obj. nto_auto. Qed.
Hint Resolve nto_game_obj : nto.

Lemma nto_board_of r : never_times_out (board_of r).
Proof. unfold board_of. nto_auto. Qed.

Lemma nto_current_player_of r : never_times_out (current_player_of r).
Proof. unfold current_player_of. nto_auto. Qed.

Lemma nto_get_legal_moves_at r : never_times_out (get_legal_moves_at r).
Proof. unfold get_legal_moves_at. pose proof nto_board_of. nto_auto. Qed.

Lemma nto_gives_check move : never_times_out (gives_check self_game move).
Proof.
  unfold gives_check, board_copy, new_board, push_at. nto_auto.
Qed.

Lemma nto_fast_score move_uci : never_times_out (fast_score self_game move_uci).
Proof.
  pose proof nto_board_of. pose proof nto_gives_check.
  unfold fast_score, parse_uci. nto_auto.
Qed.

Lemma nto_fast_loop legal_moves best_score best_move :
  never_times_out (fast_loop self_game legal_moves best_score best_move).
Proof.
  pose proof nto_fast_score. pose proof nto_current_player_of.
  revert best_score best_move.
  induction legal_moves; intros; simpl; nto_auto.
Qed.

Lemma nto_get_fast_move legal_moves :
  never_times_out (_get_fast_move self_game legal_moves).
Proof.
  pose proof nto_fast_loop. pose proof nto_current_player_of.
  unfold _get_fast_move. nto_auto.
Qed.

End FastMoveTimeout.

Section Deepening.
Context {E : RulesEngine}.
Variable clock : nat -> float.
Variable self_game : nat.
Implicit Types (st : Store) (w : World) (b : Board).

Lemma out_of_time_run start_time time_limit w :
  out_of_time clock start_time time_limit w
  = (Return ((PFloat (clock (ticks w)) - start_time) >? (time_limit * PFloat 0.8))%num,
     (time clock w).2).
Proof. done. Qed.

Lemma deepening_trace_cons start_time time_limit depth rest w :
  deepening_trace clock self_game start_time time_limit (depth :: rest) w
  = match out_of_time clock start_time time_limit w with
    | (Return true, w1) => ([], Deadline, w1)
    | (Return false, w1) =>
        match search_at_depth clock self_game start_time time_limit depth w1 with
        | (Return move, w2) =>
            let '(completed, why, w') :=
              deepening_trace clock self_game start_time time_limit rest w2 in
            (move :: completed, why, w')
        | (Raise TimeoutError, w2) => ([], Aborted, w2)
        | (Raise e, w2) => ([], Failed e, w2)
        end
    | (Raise e, w1) => ([], Failed e, w1)
    end.
Proof. done. Qed.

(** The deepening loop returns the deepest completed result whenever the
    rounds end by exhaustion, by the deadline or by an aborted round, and
    passes on the exception of a round that failed otherwise. *)
Lemma deepening_loop_trace start_time time_limit depths fallback w :
  deepening_loop clock self_game start_time time_limit depths fallback w
  = let '(completed, why, w') :=
      deepening_trace clock self_game start_time time_limit depths w in
    (match why with
     | Failed e => Raise e
     | _ => Return (deepest_result fallback completed)
     end, w').
Proof.
  revert fallback w. induction depths as [|depth rest IH]; intros fallback w.
  - done.
  - rewrite deepening_trace_cons. cbn [deepening_loop].
    unfold bind at 1. rewrite out_of_time_run.
    destruct (_ >? _)%num; [done|].
    unfold bind at 1, try_except. unfold bind at 1.
    destruct (search_at_depth _ _ _ _ _ _) as [[move|e] w2]; simpl.
    + rewrite IH. by destruct (deepening_trace _ _ _ _ _ _) as [[completed why] w'].
    + by destruct e.
Qed.

(** The rounds never end on a [TimeoutError] that gets out. *)
Lemma deepening_trace_contains_timeout start_time time_limit depths w :
  (deepening_trace clock self_game start_time time_limit depths w).1.2
  <> Failed TimeoutError.
Proof.
  revert w. induction depths as [|depth rest IH]; intros w; [done|].
  rewrite deepening_trace_cons, out_of_time_run. destruct (_ >? _)%num; [done|].
  destruct (search_at_depth _ _ _ _ _ _) as [[move|e] w2]; simpl.
  - specialize (IH w2).
    by destruct (deepening_trace _ _ _ _ _ _) as [[completed why] w'].
  - by destruct e.
Qed.

Lemma nto_deepening_loop start_time time_limit depths fallback :
  never_times_out (deepening_loop clock self_game start_time time_limit depths fallback).
Proof.
  intros w. rewrite deepening_loop_trace.
  pose proof (deepening_trace_contains_timeout start_time time_limit depths w) as H.
  destruct (deepening_trace _ _ _ _ _ _) as [[completed why] w']. simpl in *.
  destruct why; try done. congruence.
Qed.

Lemma nto_find_best_move max_time time_limit :
  never_times_out (find_best_move clock self_game max_time time_limit).
Proof.
  pose proof nto_deepening_loop. pose proof nto_get_fast_move.
  pose proof nto_get_legal_moves_at.
  unfold find_best_move. nto_auto.
Qed.

(** Every move the deepening loop can return is the fallback or a legal
    move of the engine's game. *)
Lemma deepening_loop_result start_time time_limit depths fallback w b m w' :
  sees_board (store w) self_game b ->
  deepening_loop clock self_game start_time time_limit depths fallback w
  = (Return m, w') ->
  m = fallback \/ m ∈ map uci (legal_moves b).
Proof.
  revert fallback w. induction depths as [|depth rest IH]; intros fallback w Hb; simpl.
  - intros [= <- <-]. by left.
  - intros H. apply bind_Return_inv in H as (late & w1 & Hlate & H).
    pose proof (frame_run _ _ _ _ (frame_out_of_time clock _ _) Hlate) as Hext1.
    destruct late; [injection H as <- <-; by left|].
    apply bind_Return_inv in H as (next & w2 & Hround & H).
    unfold try_except in Hround. unfold bind at 1 in Hround.
    destruct (search_at_depth _ _ _ _ _ _) as [[move|e] w3] eqn:Hsearch; simpl in Hround.
    + injection Hround as <- <-.
      pose proof (frame_run _ _ _ _ (frame_search_at_depth clock self_game _ _ _) Hsearch)
        as Hext2.
      assert (Hb3 : sees_board (store w3) self_game b)
        by eauto using sees_board_extends.
      unfold search_at_depth in Hsearch.
      apply bind_Return_inv in Hsearch as (now & w4 & Hnow & Hsearch).
      assert (Hb4 : sees_board (store w4) self_game b).
      { rewrite time_run in Hnow. injection Hnow as _ <-. simpl.
        eauto using sees_board_extends. }
      apply (iterative_deepening_search_result clock self_game _ _ _ b) in Hsearch;
        [|done].
      apply IH in H as [->|H]; [|by right|done].
      destruct move as [move_uci|]; simpl; [|by left].
      destruct (negb _); simpl; auto.
    + destruct (bool_decide (e = TimeoutError)); [|done].
      injection Hround as <- <-. injection H as <- <-. by left.
Qed.

End Deepening.

Section FallbackMove.
Context {E : RulesEngine}.
Variable self_game : nat.
Implicit Types (st : Store) (w : World) (b : Board).

Lemma current_player_of_sees w r b :
  sees_board (store w) r b ->
  exists c, current_player_of r w = (Return c, w).
Proof.
  intros (o & Ho & _). unfold current_player_of, game_obj, bind, get_store. simpl.
  rewrite Ho. simpl. eauto.
Qed.

Lemma fast_score_run w b move_uci move :
  sees_board (store w) self_game b ->
  from_uci move_uci = Some move -> push_ok b move = true ->
  exists s w1, fast_score self_game move_uci w = (Return s, w1)
               /\ store_extends (store w) (store w1).
Proof.
  intros Hb Hparse Hok.
  assert (Hframe := frame_fast_score self_game move_uci w).
  unfold fast_score, parse_uci in *. rewrite Hparse in *.
  unfold bind at 1 in Hframe. unfold bind at 1. unfold ret at 1 in Hframe. unfold ret at 1.
  rewrite (bind_Return _ _ _ _ _ (board_of_sees w _ b Hb)) in *.
  rewrite (bind_Return _ _ _ _ _ (board_of_sees w _ b Hb)) in *.
  destruct (gives_check_run self_game w b move Hb Hok) as (w1 & Hcheck).
  rewrite (bind_Return _ _ _ _ _ Hcheck) in *. eauto.
Qed.

Lemma fast_loop_run legal_moves best_score best_move w b :
  sees_board (store w) self_game b ->
  Forall (fun move_uci => exists move, from_uci move_uci = Some move
                                       /\ push_ok b move = true) legal_moves ->
  exists m w1, fast_loop self_game legal_moves best_score best_move w = (Return m, w1).
Proof.
  intros Hb Hmoves. revert best_score best_move w Hb.
  induction Hmoves as [|move_uci rest (move & Hparse & Hok) _ IH];
    intros best_score best_move w Hb; simpl.
  - eauto.
  - destruct (fast_score_run w b move_uci move Hb Hparse Hok) as (s & w1 & Hs & Hext).
    rewrite (bind_Return _ _ _ _ _ Hs).
    assert (Hb1 : sees_board (store w1) self_game b) by eauto using sees_board_extends.
    destruct (current_player_of_sees w1 _ b Hb1) as (c & Hc).
    rewrite (bind_Return _ _ _ _ _ Hc).
    destruct (better c s best_score); eauto.
Qed.

(** The fallback move is always found. *)
Lemma get_fast_move_run legal_moves w b :
  sees_board (store w) self_game b -> legal_moves <> [] ->
  Forall (fun move_uci => exists move, from_uci move_uci = Some move
                                       /\ push_ok b move = true) legal_moves ->
  exists fallback w1, _get_fast_move self_game legal_moves w = (Return fallback, w1).
Proof.
  intros Hb Hne Hmoves. unfold _get_fast_move.
  destruct (current_player_of_sees w _ b Hb) as (c & Hc).
  rewrite (bind_Return _ _ _ _ _ Hc).
  destruct legal_moves as [|first rest]; [done|].
  by apply (fast_loop_run _ _ _ _ b).
Qed.

End FallbackMove.

(** The move that [find_best_move] settles on. *)
Lemma deepest_result_nil fallback : deepest_result fallback [] = fallback.
Proof. reflexivity. Qed.

Lemma deepest_result_snoc fallback completed move :
  deepest_result fallback (completed ++ [move])
  = if truthy move then default (deepest_result fallback completed) move
    else deepest_result fallback completed.
Proof. unfold deepest_result. by rewrite fold_left_app. Qed.

(** The result is the fallback or the move of a completed round. *)
Lemma deepest_result_cases fallback completed :
  deepest_result fallback completed = fallback
  \/ Some (deepest_result fallback completed) ∈ completed.
Proof.
  induction completed as [|move completed IH] using rev_ind; [by left|].
  rewrite deepest_result_snoc. destruct move as [s|]; simpl.
  - destruct (negb _); [right|].
    + apply elem_of_app. right. apply elem_of_cons. by left.
    + destruct IH as [IH|IH]; [by left|right]. apply elem_of_app. by left.
  - destruct IH as [IH|IH]; [by left|right]. apply elem_of_app. by left.
Qed.

(* ===================================================================== *)
(** * The search: legal results, contained timeouts, untouched games *)
(* ===================================================================== *)

Section SearchTheorems.
Context {E : RulesEngine}.
Variable clock : nat -> float.
Variable self_game : nat.
Implicit Types (st : Store) (w : World) (g : Game).

(** C5.  Let [b] be the position on the board of the engine's game when
    [find_best_move] is called.  It returns no move exactly when [b] has no
    legal move, and a move it returns is the notation of one of the legal
    moves of [b]. *)
Theorem find_best_move_returns_legal max_time time_limit w b :
  sees_board (store w) self_game b ->
  let result := (find_best_move clock self_game max_time time_limit w).1 in
  (result = Return None <-> legal_moves b = [])
  /\ (forall move_uci,
        result = Return (Some move_uci) -> move_uci ∈ map uci (legal_moves b)).
Proof.
  intros Hg. intros result. subst result.
  unfold find_best_move.
  set (w0 := (time clock w).2).
  rewrite (bind_Return (time clock) _ w _ w0 eq_refl).
  rewrite (bind_Return _ _ _ _ _ (get_legal_moves_at_sees w0 _ _ Hg)).
  destruct (legal_moves b) as [|first rest] eqn:Hlegal; cbn [map].
  - split; [done|]. intros move_uci. discriminate.
  - match goal with |- context [Objects.bind ?m ?k ?w0] =>
      destruct (Objects.bind m k w0) as [out w'] eqn:Hrun; cbn [fst] end.
    split.
    + split; [|done]. intros ->.
      apply bind_Return_inv in Hrun as (fallback & w1 & _ & Hrun).
      apply bind_Return_inv in Hrun as (best & w2 & _ & Hrun). done.
    + intros move_uci ->.
      apply bind_Return_inv in Hrun as (fallback & w1 & Hfast & Hrun).
      apply bind_Return_inv in Hrun as (best & w2 & Hloop & Hrun).
      injection Hrun as <- <-.
      pose proof (frame_run _ _ _ _ (frame_get_fast_move self_game _) Hfast) as Hext.
      apply get_fast_move_result in Hfast.
      apply (deepening_loop_result clock self_game _ _ _ _ _ b) in Hloop.
      * rewrite Hlegal in Hloop. cbn [map] in Hloop. by destruct Hloop as [->|].
      * eapply sees_board_extends; [exact Hext|]. exact Hg.
Qed.

(** C6.  A [TimeoutError] never gets out of [find_best_move].  Once the
    fallback move is there, the deepening runs as [deepening_trace]
    describes: when it ends because the depths are exhausted, the deadline
    has passed at the start of a round, or a round was aborted by the
    deadline, [find_best_move] returns the move of the deepest completed
    round, the fallback if none completed; the only way it fails is a
    round failing with another exception.  With a rules engine that keeps
    its contract and a position that has legal moves, the fallback move is
    always there. *)
Theorem timeout_never_escapes max_time time_limit w :
  let result := find_best_move clock self_game max_time time_limit w in
  let limit := default max_time time_limit in
  let start_time := PFloat (clock (ticks w)) in
  let w0 := (time clock w).2 in
  let outcome_of fallback w1 :=
    let trace := deepening_trace clock self_game start_time limit (seq 1 9) w1 in
    (match trace.1.2 with
     | Failed e => Raise e
     | Exhausted | Deadline | Aborted =>
         Return (Some (deepest_result fallback trace.1.1))
     end, trace.2) in
  result.1 <> Raise TimeoutError
  /\ (forall legal_moves fallback w1,
        get_legal_moves_at self_game w0 = (Return legal_moves, w0) ->
        legal_moves <> [] ->
        _get_fast_move self_game legal_moves w0 = (Return fallback, w1) ->
        (deepening_trace clock self_game start_time limit (seq 1 9) w1).1.2
          <> Failed TimeoutError
        /\ result = outcome_of fallback w1)
  /\ (PushesLegalMoves E -> ReadsBackLegalMoves E ->
      forall b, sees_board (store w) self_game b -> legal_moves b <> [] ->
      exists fallback w1,
        _get_fast_move self_game (map uci (legal_moves b)) w0 = (Return fallback, w1)
        /\ result = outcome_of fallback w1).
Proof.
  intros result limit start_time w0 outcome_of.
  assert (Hmain : forall legal_moves fallback w1,
    get_legal_moves_at self_game w0 = (Return legal_moves, w0) ->
    legal_moves <> [] ->
    _get_fast_move self_game legal_moves w0 = (Return fallback, w1) ->
    result = outcome_of fallback w1).
  { intros legal_moves fallback w1 Hlegal Hne Hfast.
    pose proof (deepening_loop_trace clock self_game start_time limit (seq 1 9)
                  fallback w1) as Hloop.
    unfold result, find_best_move. fold limit.
    rewrite (bind_Return (time clock) _ w start_time w0 eq_refl).
    rewrite (bind_Return _ _ _ _ _ Hlegal).
    destruct legal_moves as [|first rest]; [done|].
    rewrite (bind_Return _ _ _ _ _ Hfast).
    unfold bind. rewrite Hloop. unfold outcome_of.
    destruct (deepening_trace _ _ _ _ _ _) as [[completed why] w']. simpl.
    by destruct why. }
  split; [apply nto_find_best_move|]. split.
  - intros legal_moves fallback w1 Hlegal Hne Hfast.
    split; [apply deepening_trace_contains_timeout|]. by eapply Hmain.
  - intros Hpush Hread b Hb Hne.
    assert (Hb0 : sees_board (store w0) self_game b) by exact Hb.
    assert (Hne' : map uci (legal_moves b) <> []) by by destruct (legal_moves b).
    destruct (get_fast_move_run self_game (map uci (legal_moves b)) w0 b Hb0 Hne')
      as (fallback & w1 & Hfast); [by apply legal_move_strings_playable|].
    exists fallback, w1. split; [exact Hfast|].
    apply (Hmain (map uci (legal_moves b))); [|done..].
    by apply get_legal_moves_at_sees.
Qed.

(** C8.  The search works on copies.  Whatever [find_best_move] does, every
    game object that exists when it is called -- the engine's own game
    among them -- has the same board, counters, captured points, side to
    move, result and flags afterwards, and so have all other objects of
    the store.  The same holds for every call of [_negamax] and for its
    loop over the moves of a node: exploring a move changes neither the
    node's game nor any game above it, so the next move is tried from the
    same state. *)
Theorem search_leaves_games_alone :
  (forall max_time time_limit w,
     let w' := (find_best_move clock self_game max_time time_limit w).2 in
     store_extends (store w) (store w')
     /\ forall r g, load_game (store w) r = Some g -> load_game (store w') r = Some g)
  /\ (forall game depth alpha beta color start_time time_limit w,
        let w' := (_negamax clock self_game game depth alpha beta color
                     start_time time_limit w).2 in
        store_extends (store w) (store w')
        /\ forall r g, load_game (store w) r = Some g -> load_game (store w') r = Some g)
  /\ (forall game depth color start_time time_limit beta ordered_moves alpha max_score w,
        let child game_copy a b :=
          _negamax clock self_game game_copy depth a b color start_time time_limit in
        let w' := (negamax_loop child game beta ordered_moves alpha max_score w).2 in
        forall r g, load_game (store w) r = Some g -> load_game (store w') r = Some g).
Proof.
  split; [|split].
  - intros max_time time_limit w w'.
    pose proof (frame_find_best_move clock self_game max_time time_limit w) as H.
    split; [exact H|]. intros r g. by apply load_game_extends.
  - intros game depth alpha beta color start_time time_limit w w'.
    pose proof (frame_negamax clock self_game game depth alpha beta color
                  start_time time_limit w) as H.
    split; [exact H|]. intros r g. by apply load_game_extends.
  - intros game depth color start_time time_limit beta ordered_moves alpha max_score
      w child w' r g.
    apply load_game_extends. apply frame_negamax_loop.
    intros. apply frame_negamax.
Qed.

End SearchTheorems.

(* ===================================================================== *)
(** * The concrete board keeps the contract of the rules engine *)
(* ===================================================================== *)

Section UciFacts.


Lemma reads_back_all :
  forallb (fun f => forallb (fun t => forallb (fun p => (f =? t)%nat || reads_back f t p)
     [None; Some PAWN; Some KNIGHT; Some BISHOP; Some ROOK; Some QUEEN; Some KING])
     (seq 0 64)) (seq 0 64) = true.
Proof. vm_compute. reflexivity. Qed.

Lemma from_uci_uci (m : Move) : well_formed m -> from_uci (uci m) = Some m.
Proof.
  destruct m as [f t p d]. intros (Hf & Ht & Hne & Hd). simpl in *. subst d.
  pose proof reads_back_all as H.
  rewrite forallb_forall in H. specialize (H f).
  rewrite forallb_forall in H. specialize (H ltac:(apply in_seq; lia) t).
  rewrite forallb_forall in H. specialize (H ltac:(apply in_seq; lia) p).
  assert (Hp : In p [None; Some PAWN; Some KNIGHT; Some BISHOP; Some ROOK;
                     Some QUEEN; Some KING]).
  { destruct p as [[]|]; simpl; auto 10. }
  specialize (H Hp). apply orb_true_iff in H as [H|H].
  - apply Nat.eqb_eq in H. done.
  - by apply bool_decide_eq_true in H.
Qed.

End UciFacts.

Section ChessFacts.
Import Chess.
Implicit Types (b : Position) (m : Move).

Lemma squares_reversed_lt sq : In sq SQUARES_REVERSED -> (sq < 64)%nat.
Proof.
  intros H. assert (HF : Forall (fun sq => (sq < 64)%nat) SQUARES_REVERSED).
  { apply (bool_decide_unpack _). vm_compute. exact I. }
  rewrite Forall_forall in HF. apply HF. by apply list_elem_of_In.
Qed.

Lemma file_of_range sq : 0 <= file_of sq < 8.
Proof.
  unfold file_of. pose proof (Nat.mod_upper_bound sq 8 ltac:(done)). lia.
Qed.

Lemma rank_of_range sq : (sq < 64)%nat -> 0 <= rank_of sq < 8.
Proof.
  unfold rank_of. intros H.
  pose proof (Nat.Div0.div_lt_upper_bound sq 8 8 ltac:(lia)). lia.
Qed.

Lemma square_at_lt f r : 0 <= f < 8 -> 0 <= r < 8 -> (square_at f r < 64)%nat.
Proof. unfold square_at. lia. Qed.

Lemma square_at_rank_ne sq r :
  0 <= r -> r <> rank_of sq -> square_at (file_of sq) r <> sq.
Proof.
  unfold square_at, file_of, rank_of. intros Hr Hne Heq. apply Hne.
  pose proof (Nat.div_mod_eq sq 8). pose proof (Nat.mod_upper_bound sq 8 ltac:(done)).
  assert (Z.to_nat r = sq / 8)%nat; [|lia].
  apply (Nat.div_unique sq 8 (Z.to_nat r) (sq mod 8)); lia.
Qed.

Lemma attacks_ne b from to : attacks b from to = true -> from <> to.
Proof.
  unfold attacks, piece_attacks. intros H <-.
  destruct (piece_at b from) as [p|]; [|done].
  rewrite !Z.sub_diag in H. by destruct (piece_type p), (color p).
Qed.

Lemma own_piece b pawn sq : own b pawn sq = true -> piece_at b sq <> None.
Proof. unfold own. by destruct (piece_at b sq). Qed.

Lemma pawn_moves_to_ok from to m :
  In m (pawn_moves_to from to) ->
  from_square m = from /\ to_square m = to /\ Uci.drop m = None.
Proof.
  unfold pawn_moves_to. destruct (_ || _).
  - intros (pt & <- & _)%in_map_iff. done.
  - intros [<-|[]]. done.
Qed.


Lemma piece_moves_ok b m : In m (piece_moves b) -> playable b m.
Proof.
  unfold piece_moves. intros (from & Hfrom & Hm)%in_flat_map.
  destruct (own b false from) eqn:Hown; [|done].
  apply in_map_iff in Hm as (to & <- & (Hto & Hatt)%filter_In).
  apply andb_true_iff in Hatt as [Hatt _].
  repeat split; simpl; eauto using squares_reversed_lt, attacks_ne, own_piece.
Qed.

Lemma can_castle_kingside_king b c :
  can_castle_kingside b c = true -> piece_at b (if c then 4 else 60)%nat <> None.
Proof.
  unfold can_castle_kingside, has_piece. rewrite !andb_true_iff.
  intros [[_ Hk%bool_decide_eq_true] _]. by rewrite Hk.
Qed.

Lemma can_castle_queenside_king b c :
  can_castle_queenside b c = true -> piece_at b (if c then 4 else 60)%nat <> None.
Proof.
  unfold can_castle_queenside, has_piece. rewrite !andb_true_iff.
  intros [[_ Hk%bool_decide_eq_true] _]. by rewrite Hk.
Qed.

Lemma castling_moves_ok b m : In m (castling_moves b) -> playable b m.
Proof.
  unfold castling_moves. intros [Hm|Hm]%in_app_iff.
  - destruct (_ && _) eqn:Hc in Hm; [|done]. destruct Hm as [<-|[]].
    rewrite !andb_true_iff in Hc. destruct Hc as (((((Hc & _) & _) & _) & _) & _).
    apply can_castle_kingside_king in Hc.
    destruct (side b); repeat split; simpl; try (vm_compute; lia); done.
  - destruct (_ && _) eqn:Hc in Hm; [|done]. destruct Hm as [<-|[]].
    rewrite !andb_true_iff in Hc.
    destruct Hc as ((((((Hc & _) & _) & _) & _) & _) & _).
    apply can_castle_queenside_king in Hc.
    destruct (side b); repeat split; simpl; try (vm_compute; lia); done.
Qed.

Lemma pawn_captures_ok b m : In m (pawn_captures b) -> playable b m.
Proof.
  unfold pawn_captures. intros (from & Hfrom & Hm)%in_flat_map.
  destruct (own b true from) eqn:Hown; [|done].
  apply in_flat_map in Hm as (to & (Hto & Hatt)%filter_In & Hm).
  apply andb_true_iff in Hatt as [Hatt _].
  apply pawn_moves_to_ok in Hm as (Hf & Ht & Hd).
  unfold playable, well_formed. rewrite Hf, Ht.
  repeat split; eauto using squares_reversed_lt, attacks_ne, own_piece.
Qed.

Lemma pawn_single_pushes_ok b m : In m (pawn_single_pushes b) -> playable b m.
Proof.
  unfold pawn_single_pushes. intros (from & Hfrom & Hm)%in_flat_map.
  destruct (_ && _) eqn:Hc in Hm; [|done].
  apply andb_true_iff in Hc as [Hc _]. apply andb_true_iff in Hc as [Hc Hhi].
  apply andb_true_iff in Hc as [Hown Hlo].
  apply Z.leb_le in Hlo, Hhi.
  apply pawn_moves_to_ok in Hm as (Hf & Ht & Hd).
  unfold playable, well_formed. rewrite Hf, Ht.
  apply squares_reversed_lt in Hfrom.
  pose proof (file_of_range from).
  repeat split; eauto using own_piece.
  - apply square_at_lt; lia.
  - intros Heq. symmetry in Heq. revert Heq. apply square_at_rank_ne; [done|].
    unfold forward. destruct (side b); lia.
Qed.

Lemma pawn_double_pushes_ok b m : In m (pawn_double_pushes b) -> playable b m.
Proof.
  unfold pawn_double_pushes. intros (from & Hfrom & Hm)%in_flat_map.
  destruct (_ && _) eqn:Hc in Hm; [|done].
  apply andb_true_iff in Hc as [Hc _]. apply andb_true_iff in Hc as [Hc _].
  apply andb_true_iff in Hc as [Hown Hrank]. apply Z.eqb_eq in Hrank.
  destruct Hm as [<-|[]].
  apply squares_reversed_lt in Hfrom.
  pose proof (file_of_range from).
  repeat split; simpl; eauto using own_piece.
  - apply square_at_lt; [done|]. unfold forward. destruct (side b); lia.
  - intros Heq. symmetry in Heq. revert Heq. apply square_at_rank_ne.
    + unfold forward. destruct (side b); lia.
    + unfold forward. destruct (side b); lia.
Qed.

Lemma en_passant_moves_ok b m : In m (en_passant_moves b) -> playable b m.
Proof.
  unfold en_passant_moves. destruct (ep_square b) as [target|]; [|done].
  destruct (bool_decide _); [|done].
  intros (from & Hfrom & Hm)%in_flat_map.
  destruct (_ && _) eqn:Hc in Hm; [|done]. destruct Hm as [<-|[]].
  apply andb_true_iff in Hc as [Hc Hrank]. apply andb_true_iff in Hc as [Hown Hatt].
  apply Z.eqb_eq in Hrank. apply squares_reversed_lt in Hfrom.
  repeat split; simpl; eauto using own_piece, attacks_ne.
  (* the target lies one rank from the pawn *)
  unfold own in Hown. unfold attacks, piece_attacks in Hatt.
  destruct (piece_at b from) as [p|]; [|done].
  apply andb_true_iff in Hown as [_ Hpawn].
  destruct (bool_decide (piece_type p = PAWN)) eqn:Hp; [|done].
  apply bool_decide_eq_true in Hp. rewrite Hp in Hatt.
  apply andb_true_iff in Hatt as [_ Hdr]. apply Z.eqb_eq in Hdr.
  unfold rank_of in *.
  assert (target / 8 < 8)%nat by (destruct (side b), (color p); lia).
  pose proof (Nat.div_mod_eq target 8).
  pose proof (Nat.mod_upper_bound target 8 ltac:(done)). lia.
Qed.

Lemma pseudo_legal_moves_ok b m : In m (pseudo_legal_moves b) -> playable b m.
Proof.
  unfold pseudo_legal_moves. rewrite !in_app_iff.
  intros [?|[?|[?|[?|[?|?]]]]];
    eauto using piece_moves_ok, castling_moves_ok, pawn_captures_ok,
      pawn_single_pushes_ok, pawn_double_pushes_ok, en_passant_moves_ok.
Qed.

Lemma legal_moves_ok b m : In m (Chess.legal_moves b) -> playable b m.
Proof.
  unfold Chess.legal_moves. intros H. apply pseudo_legal_moves_ok.
  destruct (Chess.is_check b).
  - apply in_app_iff in H as [H|H]; apply filter_In in H as [H _];
      by apply filter_In in H as [H _].
  - by apply filter_In in H as [H _].
Qed.

(** The concrete board pushes its legal moves. *)
Lemma chess_board_pushes_legal_moves : PushesLegalMoves chess_board.
Proof.
  intros b m Hm. apply list_elem_of_In, legal_moves_ok in Hm as [_ Hm].
  simpl. unfold Chess.push_ok. by apply bool_decide_eq_true.
Qed.

(** The notation of its legal moves reads back. *)
Lemma chess_board_reads_back : ReadsBackLegalMoves chess_board.
Proof.
  intros b m Hm. apply list_elem_of_In, legal_moves_ok in Hm as [Hm _].
  by apply from_uci_uci.
Qed.

End ChessFacts.

(* ===================================================================== *)
(** * The search at work on concrete positions *)
(* ===================================================================== *)

(** The objects built for a game are valid and hold the game. *)
Lemma add_game_valid (st : Store) (g : Game) :
  valid_game (add_game st g) (length (games st)).
Proof.
  eexists. unfold add_game. cbn [games boards dicts]. split.
  - apply list_lookup_middle. reflexivity.
  - simpl. rewrite !length_app. simpl. repeat split; lia.
Qed.

Lemma load_add_game (st : Store) (g : Game) :
  load_game (add_game st g) (length (games st)) = Some g.
Proof.
  assert (Hmp : (dicts st ++ [moves_played g; points_captured g])
                  !! length (dicts st) = Some (moves_played g))
    by (by apply list_lookup_middle).
  assert (Hpc : (dicts st ++ [moves_played g; points_captured g])
                  !! S (length (dicts st)) = Some (points_captured g)).
  { rewrite lookup_app_r by lia.
    by replace (S (length (dicts st)) - length (dicts st))%nat with 1%nat by lia. }
  unfold load_game, add_game. cbn [games boards dicts].
  rewrite (list_lookup_middle (games st) []) by reflexivity. simpl.
  rewrite (list_lookup_middle (boards st) []) by reflexivity. simpl.
  rewrite Hmp. simpl. rewrite Hpc. simpl. by destruct g.
Qed.

(** The one game of [world_of [g]] is [g]. *)
Lemma load_world_of_one (g : Game) : load_game (store (world_of [g])) 0 = Some g.
Proof. exact (load_add_game {| games := []; boards := []; dicts := [] |} g). Qed.

(** The engine's game in [world_of [g]] is on the board of [g]. *)
Ltac sees_closed := eexists; split; vm_compute; reflexivity.

(** The result and the final world of a run, from the result alone. *)
Lemma run_eq {A} (m : M A) (w : World) (out : outcome A) :
  (m w).1 = out -> m w = (out, (m w).2).
Proof. intros <-. apply surjective_pairing. Qed.


(** The capture comes first (105.5), then the moves by their square bonus:
    1.0 for the king on f1, 0.5 for the rook on d1, 0 and -0.5 for the
    rest, moves of equal score in generation order. *)
Example order_moves_rook_and_pawn :
  (_order_moves 0 rook_and_pawn_moves (world_of [rook_and_pawn])).1
  = Return ["a1a7"; "e1f1"; "a1d1"; "e1f2"; "e1e2"; "e1d2"; "e1d1"; "a1c1";
            "a1b1"; "a1a6"; "a1a5"; "a1a4"; "a1a3"; "a1a2"]%string.
Proof. vm_compute. reflexivity. Qed.

Lemma find_best_move_returns_legal_witness :
  let w := world_of [rook_and_pawn] in
  sees_board (store w) 0 (board rook_and_pawn)
  /\ forall time_limit move_uci,
       (find_best_move (steady_clock 0.001) 0 (PInt 5) time_limit w).1
       = Return (Some move_uci) ->
       move_uci ∈ get_legal_moves rook_and_pawn.
Proof.
  intros w.
  assert (Hb : sees_board (store w) 0 (board rook_and_pawn)) by sees_closed.
  split; [exact Hb|]. intros time_limit.
  exact (proj2 (find_best_move_returns_legal (steady_clock 0.001) 0%nat (PInt 5)
                  time_limit w _ Hb)).
Defined.

(** A mated side has no move to be found. *)
Example find_best_move_when_mated :
  (find_best_move (steady_clock 0.01) 0 (PInt 5) None
     (world_of [(make_move back_rank "a1a8").2])).1 = Return None.
Proof. vm_compute. reflexivity. Qed.

(** With a clock that advances a tenth of a second per reading and the
    default limit of five seconds, the first round completes with a1a7 and
    the second is aborted by the deadline: [find_best_move] returns a1a7. *)
Lemma timeout_never_escapes_witness :
  let clock := steady_clock 0.1 in
  let w := world_of [rook_and_pawn] in
  let w0 := (time clock w).2 in
  let w1 := (_get_fast_move 0 rook_and_pawn_moves w0).2 in
  let trace :=
    deepening_trace clock 0 (PFloat (clock (ticks w))) (default (PInt 5) None)
      (seq 1 9) w1 in
  trace.1 = ([Some "a1a7"%string], Aborted)
  /\ (find_best_move clock 0 (PInt 5) None w).1 = Return (Some "a1a7"%string).
Proof.
  intros clock w w0 w1 trace.
  assert (Htrace : trace.1 = ([Some "a1a7"%string], Aborted))
    by (vm_compute; reflexivity).
  split; [exact Htrace|].
  assert (Hlegal1 : (get_legal_moves_at 0 w0).1 = Return rook_and_pawn_moves)
    by (vm_compute; reflexivity).
  assert (Hlegal2 : (get_legal_moves_at 0 w0).2 = w0) by reflexivity.
  assert (Hfast1 : (_get_fast_move 0 rook_and_pawn_moves w0).1 = Return "a1a7"%string)
    by (vm_compute; reflexivity).
  pose proof (run_eq _ _ _ Hlegal1) as Hlegal. rewrite Hlegal2 in Hlegal.
  pose proof (run_eq _ _ _ Hfast1) as Hfast.
  destruct (timeout_never_escapes clock 0%nat (PInt 5) None w) as (_ & Hrun & _).
  specialize (Hrun rook_and_pawn_moves "a1a7"%string _ Hlegal ltac:(discriminate) Hfast).
  destruct Hrun as [_ Hrun]. cbv beta zeta in Hrun. fold w1 trace in Hrun.
  rewrite Htrace in Hrun. rewrite Hrun. reflexivity.
Defined.

(** With one second per reading no round completes: the fallback stands. *)
Example find_best_move_falls_back :
  let clock := steady_clock 1 in
  let w := world_of [rook_and_pawn] in
  (deepening_trace clock 0 (PFloat 0) (PInt 5) (seq 1 9)
     (_get_fast_move 0 rook_and_pawn_moves (time clock w).2).2).1 = ([], Aborted)
  /\ (find_best_move clock 0 (PInt 5) None w).1 = Return (Some "a1a7"%string).
Proof. vm_compute. split; reflexivity. Qed.

(** The legal moves of a position two plies down are not all moves of the
    board of the engine's game: after e2e4 and the reply the pawn can go on
    from e4, a square that is empty on the engine's board, and
    [_order_moves], which pushes every move on a copy of that board, fails
    on the list. *)
Example order_moves_two_plies_down :
  let w := world_of [king_and_pawn] in
  let node := play "4k3/8/8/8/8/8/4P3/4K3 w - - 0 1" ["e2e4"; "e8e7"] in
  "e4e5"%string ∈ get_legal_moves node
  /\ piece_at (board king_and_pawn) 28%nat = None
  /\ (_order_moves 0 (get_legal_moves node) w).1 = Raise AssertionError.
Proof.
  split; [decide_closed|]. split; vm_compute; reflexivity.
Qed.

(** Given time, the third round fails: [_order_moves] scores the moves of a
    position two plies down on the board of the engine's game, where the
    origin square of one of them is empty. *)
Example find_best_move_third_round :
  let clock := steady_clock 0.01 in
  let w := world_of [king_and_pawn] in
  (deepening_trace clock 0 (PFloat 0) (PInt 5) (seq 1 9)
     (_get_fast_move 0 (get_legal_moves king_and_pawn) (time clock w).2).2).1
  = ([Some "e2e4"; Some "e2e4"]%string, Failed AssertionError)
  /\ (find_best_move clock 0 (PInt 5) None w).1 = Raise AssertionError.
Proof. vm_compute. split; reflexivity. Qed.

(** C4 fails on the program: the position signature is the FEN text
    followed by the move counters and leaves the captured points out.
    [took_pawn] and [took_queen] have the same board and counters, hence
    the same signature, but 1 and 9 captured points and different
    evaluations; once the first is searched, the transposition table
    answers 1 for the second, whose own score is 9. *)
Theorem position_hash_collision :
  let w := world_of [took_pawn; took_queen] in
  let search_first :=
    _negamax still_clock 0 0 0 (- PyNum.inf)%num PyNum.inf 1 (PFloat 0) (PInt 5) w in
  (_get_position_hash 0 w).1
    = Return "3k4/R7/8/8/8/8/8/4K3 w - - 1 2{'white': 1, 'black': 1}"%string
  /\ (_get_position_hash 1 w).1 = (_get_position_hash 0 w).1
  /\ points_captured took_pawn = {| at_white := 1; at_black := 0 |}
  /\ points_captured took_queen = {| at_white := 9; at_black := 0 |}
  /\ (_evaluate_position 0 w).1 = Return (PInt 1)
  /\ (_evaluate_position 1 w).1 = Return (PInt 9)
  /\ (_negamax still_clock 0 1 0 (- PyNum.inf)%num PyNum.inf 1 (PFloat 0) (PInt 5) w).1
     = Return (PInt 9)
  /\ (_negamax still_clock 0 1 0 (- PyNum.inf)%num PyNum.inf 1 (PFloat 0) (PInt 5)
        search_first.2).1 = Return (PInt 1).
Proof. vm_compute. repeat split; reflexivity. Qed.

(* ===================================================================== *)
(** * Further properties of the game *)
(* ===================================================================== *)

Section MoreGameFacts.
Context {E : RulesEngine}.
Implicit Types (g : Game) (m : Move) (op : Op) (p : Player).

Lemma piece_value_range (pt : PieceType) : 0 <= PIECE_VALUES pt <= 9.
Proof. destruct pt; simpl; lia. Qed.

Lemma captured_value_range (cp : option Piece) :
  0 <= from_option (fun cp => PIECE_VALUES (piece_type cp)) 0 cp <= 9.
Proof. destruct cp as [cp|]; simpl; [apply piece_value_range|lia]. Qed.

(** [skip_turn] in closed form. *)
Lemma skip_turn_result g :
  let mover := player_of (current_player g) in
  let played := tally_set (moves_played g) mover ((moves_played g).[mover] + 1) in
  let spent := (played.[white] >=? max_moves g) && (played.[black] >=? max_moves g) in
  skip_turn g =
  (true, {| board := board g; max_moves := max_moves g; moves_played := played;
            points_captured := points_captured g;
            current_player := negb (current_player g);
            game_over := spent || game_over g;
            winner := if spent then Some (winner_by_points (points_captured g))
                      else winner g;
            last_move_was_capture := last_move_was_capture g;
            extra_move_granted := extra_move_granted g |}).
Proof.
  unfold skip_turn. destruct g as [b mx mp pc cp go wn lc ex]; simpl.
  by destruct (_ && _).
Qed.

(** X1.  [set_custom_position] with a text that the library does not
    accept returns [False] and leaves the game as it is, counters
    included.  With a text it accepts the board is replaced and counters,
    points, result and flags are reset; [current_player] and [max_moves]
    are not, and nothing else of the earlier state matters. *)
Theorem set_custom_position_result g fen :
  (board_from_fen fen = None -> set_custom_position g fen = (false, g))
  /\ (forall b, board_from_fen fen = Some b ->
        let g' := (set_custom_position g fen).2 in
        (set_custom_position g fen).1 = true
        /\ board g' = b
        /\ moves_played g' = {| at_white := 0; at_black := 0 |}
        /\ points_captured g' = {| at_white := 0; at_black := 0 |}
        /\ game_over g' = false /\ winner g' = None
        /\ last_move_was_capture g' = false /\ extra_move_granted g' = false
        /\ current_player g' = current_player g /\ max_moves g' = max_moves g
        /\ forall g0, current_player g0 = current_player g ->
                      max_moves g0 = max_moves g ->
                      set_custom_position g0 fen = set_custom_position g fen).
Proof.
  unfold set_custom_position. split.
  - by intros ->.
  - intros b ->. simpl. repeat split; try done.
    intros g0 Hcp Hmx. unfold reset_game_state. simpl. by rewrite Hcp, Hmx.
Qed.

Lemma apply_op_game_over g op : game_over g = true -> game_over (apply_op g op) = true.
Proof.
  intros Hover. destruct op as [move_uci|]; cbn [apply_op].
  - destruct (make_move_cases g move_uci) as [-> | (m & _ & _ & ->)]; simpl; [done|].
    by rewrite Hover, orb_true_r.
  - rewrite skip_turn_result. simpl. by rewrite Hover, orb_true_r.
Qed.

(** X2.  Neither operation ever takes [game_over] back: once a game is
    over it stays over along every sequence of [make_move] and [skip_turn]
    calls, and [evaluate_position] is then 10000, -10000 or 0. *)
Theorem game_over_is_final (ops : list Op) g :
  game_over g = true ->
  game_over (run ops g) = true
  /\ (evaluate_position (run ops g) = PInt 10000
      \/ evaluate_position (run ops g) = PInt (-10000)
      \/ evaluate_position (run ops g) = PInt 0).
Proof.
  intros Hover.
  assert (Hrun : game_over (run ops g) = true).
  { revert g Hover. induction ops as [|op ops IH]; intros g Hover; simpl; [done|].
    by apply IH, apply_op_game_over. }
  split; [done|]. unfold evaluate_position. rewrite Hrun.
  destruct (winner (run ops g)) as [[[]|]|]; auto.
Qed.

Lemma apply_op_result_recorded g op :
  result_recorded g -> result_recorded (apply_op g op).
Proof.
  unfold result_recorded. intros Hg. destruct op as [move_uci|]; cbn [apply_op].
  - destruct (make_move_cases g move_uci) as [-> | (m & _ & _ & ->)]; simpl; [done|].
    destruct (is_checkmate _); simpl; [done|].
    destruct (_ && _); simpl; [done|done].
  - rewrite skip_turn_result. simpl. by destruct (_ && _).
Qed.

(** X3.  [winner] is set exactly when [game_over] is: both operations
    keep this, so it holds in every state reached from a new game or from
    a custom position. *)
Theorem result_recorded_invariant (ops : list Op) g :
  result_recorded g -> result_recorded (run ops g).
Proof.
  revert g. induction ops as [|op ops IH]; intros g Hg; simpl; [done|].
  by apply IH, apply_op_result_recorded.
Qed.

Lemma apply_op_extra_move g op :
  extra_move_granted g = false \/ game_over g = true ->
  extra_move_granted (apply_op g op) = false \/ game_over (apply_op g op) = true.
Proof.
  intros Hg. destruct op as [move_uci|]; cbn [apply_op].
  - destruct (make_move_cases g move_uci) as [-> | (m & _ & _ & ->)]; simpl; [done|].
    destruct (is_checkmate _); simpl; auto.
  - rewrite skip_turn_result. simpl. destruct Hg as [->| ->]; auto.
    right. by rewrite orb_true_r.
Qed.

(** X4.  The extra-move flag is never up in a running game: in every
    state reached by [make_move] and [skip_turn] from a state where the
    flag is down (a new game, a custom position) or the game over, the
    flag is down or the game is over. *)
Theorem extra_move_flag_only_when_over (ops : list Op) g :
  extra_move_granted g = false \/ game_over g = true ->
  extra_move_granted (run ops g) = false \/ game_over (run ops g) = true.
Proof.
  revert g. induction ops as [|op ops IH]; intros g Hg; simpl; [done|].
  by apply IH, apply_op_extra_move.
Qed.

Lemma apply_op_points g op p :
  (points_captured g).[p] <= (points_captured (apply_op g op)).[p]
    <= (points_captured g).[p] + 9.
Proof.
  destruct op as [move_uci|]; cbn [apply_op].
  - destruct (make_move_cases g move_uci) as [-> | (m & _ & _ & ->)]; simpl; [lia|].
    rewrite tally_get_set.
    pose proof (captured_value_range (piece_at (board g) (to_square m))).
    case_bool_decide; subst; lia.
  - rewrite skip_turn_result. simpl. lia.
Qed.


Lemma apply_op_moves_counted g op :
  let total g := (moves_played g).[white] + (moves_played g).[black] in
  total (apply_op g op) = total g + (if accepted g op then 1 else 0).
Proof.
  destruct op as [move_uci|]; cbn [apply_op accepted].
  - destruct (make_move_cases g move_uci) as [-> | (m & _ & _ & ->)]; simpl; [lia|].
    destruct (current_player g); simpl; lia.
  - rewrite skip_turn_result. simpl. destruct (current_player g); simpl; lia.
Qed.

(** X6.  The two move counters together count the operations that
    returned [True]: every accepted move and every skipped turn adds one
    to exactly one counter, that of [current_player], and a rejected move
    adds nothing. *)
Theorem moves_played_counts_accepted (ops : list Op) g :
  (moves_played (run ops g)).[white] + (moves_played (run ops g)).[black]
  = (moves_played g).[white] + (moves_played g).[black] + accepted_count ops g.
Proof.
  revert g. induction ops as [|op ops IH]; intros g.
  - simpl. lia.
  - change (run (op :: ops) g) with (run ops (apply_op g op)).
    cbn [accepted_count]. rewrite IH.
    pose proof (apply_op_moves_counted g op) as H. cbv beta zeta in H.
    destruct (accepted g op); lia.
Qed.

(** X7.  [skip_turn] does not touch the board: it returns [True], passes
    [current_player] on and counts a move, but the position, its side to
    move and so the legal moves offered are those of before.  A game whose
    [current_player] was the side to move on the board is out of step
    after a skipped turn. *)
Theorem skip_turn_keeps_board g :
  let g' := (skip_turn g).2 in
  (skip_turn g).1 = true
  /\ board g' = board g
  /\ get_legal_moves g' = get_legal_moves g
  /\ current_player g' = negb (current_player g)
  /\ points_captured g' = points_captured g
  /\ extra_move_granted g' = extra_move_granted g
  /\ (in_step g -> ~ in_step g').
Proof.
  rewrite skip_turn_result. simpl. unfold in_step, get_legal_moves. simpl.
  repeat split; try done. intros <-. by destruct (current_player g).
Qed.


End MoreGameFacts.

(* ===================================================================== *)
(** * The move budget *)
(* ===================================================================== *)

Section BudgetFacts.
Context {E : RulesEngine}.
Implicit Types (g : Game) (m : Move) (op : Op) (p : Player).

Lemma fresh_counters_in_play g : fresh g -> counters_in_play g.
Proof.
  intros (Hplayed & _ & Hflag & Hbudget). unfold counters_in_play.
  rewrite Hplayed. split; [done|]. split; [done|].
  destruct (current_player g); simpl; lia.
Qed.

(** One operation on a game in progress: no counter goes past
    [max_moves + 1], and if the game goes on the counters stand as
    [counters_in_play] says. *)
Lemma counters_in_play_step g op :
  counters_in_play g -> game_over g = false ->
  (forall p, (moves_played (apply_op g op)).[p] <= max_moves g + 1)
  /\ (game_over (apply_op g op) = false -> counters_in_play (apply_op g op)).
Proof.
  unfold counters_in_play. cbv zeta. intros (Hflag & Hbudget & Hcount) Hover.
  destruct op as [move_uci|]; cbn [apply_op].
  - destruct (make_move_cases g move_uci) as [-> | (m & _ & _ & ->)].
    { split; [|by intros _].
      intros p. destruct (current_player g), p; simpl in *; lia. }
    unfold move_result, extra_move_pending, grants_extra_move.
    rewrite Hflag, Hover.
    destruct g as [b mx [pw pb] pc cp go wn lc ex]; simpl in *.
    destruct (is_checkmate (push b m)); simpl.
    { split; [|done]. intros p. destruct cp, p; simpl in *; lia. }
    destruct (bool_decide (piece_at b (to_square m) <> None)),
             (is_attacked_by b (negb cp) (to_square m));
      rewrite ?andb_false_r, ?andb_false_l, ?andb_true_r, ?andb_true_l,
              ?orb_false_r, ?orb_false_l, ?Z.geb_leb;
      destruct cp; simpl in *; rewrite ?Z.geb_leb;
      repeat match goal with
             | |- context [Z.eqb ?x ?y] => destruct (Z.eqb_spec x y); simpl
             | |- context [Z.leb ?x ?y] => destruct (Z.leb_spec x y); simpl
             end;
      (split; [intros []; simpl; lia
             | try done; intros _; simpl; (split; [done|lia])]).
  - rewrite skip_turn_result. cbv zeta.
    destruct g as [b mx [pw pb] pc cp go wn lc ex]; simpl in *.
    rewrite Hover, ?Z.geb_leb.
    destruct cp; simpl in *; rewrite ?Z.geb_leb;
      repeat match goal with
             | |- context [Z.leb ?x ?y] => destruct (Z.leb_spec x y); simpl
             end;
      (split; [intros []; simpl; lia
             | try done; intros _; simpl; (split; [done|lia])]).
Qed.

Lemma apply_op_max_moves g op : max_moves (apply_op g op) = max_moves g.
Proof. by destruct (apply_op_moves_played g op white) as [-> _]. Qed.

(** A game that is still in progress after a sequence of operations was
    in progress all along, and its counters stand as [counters_in_play]
    says. *)
Lemma run_in_play (ops : list Op) g :
  counters_in_play g -> game_over g = false -> game_over (run ops g) = false ->
  counters_in_play (run ops g).
Proof.
  revert g. induction ops as [|op ops IH]; intros g Hg Hover Hrun; [done|].
  change (run (op :: ops) g) with (run ops (apply_op g op)) in *.
  destruct (game_over (apply_op g op)) eqn:Hnext.
  - exfalso. assert (game_over (run ops (apply_op g op)) = true); [|congruence].
    clear Hrun IH. revert Hnext. generalize (apply_op g op).
    induction ops as [|op' ops IH]; intros g' Hg'; [done|].
    apply IH. by apply apply_op_game_over.
  - apply IH; [|done|done]. by apply (counters_in_play_step g op).
Qed.

(** C9, as the program has it.  Along any sequence of [make_move] and
    [skip_turn] operations, from any state, the counter of each side
    never decreases and grows by at most one per operation, and
    [max_moves] does not change.  From a game in which nothing has been
    played, an operation on a game that is not over leaves no counter
    above [max_moves + 1].  Operations on a finished game are outside the
    bound: neither operation looks at [game_over], and each still counts. *)
Theorem moves_played_bounded_in_play (ops : list Op) g p :
  (max_moves (run ops g) = max_moves g
   /\ (moves_played g).[p] <= (moves_played (run ops g)).[p]
      <= (moves_played g).[p] + Z.of_nat (length ops))
  /\ (fresh g -> forall op, game_over (run ops g) = false ->
      (moves_played (run ops g)).[p]
      <= (moves_played (apply_op (run ops g) op)).[p] <= max_moves g + 1).
Proof.
  split; [apply moves_played_monotone|].
  intros Hfresh op Hrun.
  split; [apply (apply_op_moves_played (run ops g) op p)|].
  pose proof (fresh_counters_in_play g Hfresh) as Hg.
  destruct Hfresh as (_ & Hover & _).
  pose proof (run_in_play ops g Hg Hover Hrun) as Hplay.
  destruct (counters_in_play_step (run ops g) op Hplay Hrun) as [Hbound _].
  specialize (Hbound p).
  by destruct (moves_played_monotone ops g p) as [<- _].
Qed.

End BudgetFacts.

(* ===================================================================== *)
(** * Move strings *)
(* ===================================================================== *)

Section NotationFacts.

Lemma index_of_nth (x : string) (l : list string) (n : nat) :
  index_of x l = Some n -> nth n l EmptyString = x.
Proof.
  revert n. induction l as [|y l IH]; intros n; simpl; [done|].
  destruct (String.eqb_spec y x) as [->|_].
  - by intros [= <-].
  - destruct (index_of x l) as [k|]; simpl; [|done]. intros [= <-]. by apply IH.
Qed.

Lemma parse_square_name (s : string) (sq : Square) :
  parse_square s = Some sq -> square_name sq = s.
Proof. apply index_of_nth. Qed.

Lemma piece_of_symbol_symbol (c : ascii) (pt : PieceType) :
  piece_of_symbol c = Some pt -> piece_symbol pt = c.
Proof.
  unfold piece_of_symbol. intros H. apply find_some in H as [_ H].
  by apply Ascii.eqb_eq.
Qed.

(** The notation of a move that was read from a string is that string,
    for moves between two different squares. *)
Lemma uci_from_uci (s : string) (m : Move) :
  from_uci s = Some m -> well_formed m -> uci m = s.
Proof.
  unfold from_uci. intros H (_ & _ & Hne & Hdrop).
  destruct (String.eqb s "0000"); [by injection H as <-|].
  destruct (_ && bool_decide _).
  { destruct (String.get 0 s) as [c|]; simpl in H; [|done].
    destruct (piece_of_symbol (lower c)); simpl in H; [|done].
    destruct (parse_square _); simpl in H; [|done]. by injection H as <-. }
  destruct (_ && _) eqn:Hlen; [|done].
  destruct (parse_square (substring 0 2 s)) as [f|] eqn:Hf; simpl in H; [|done].
  destruct (parse_square (substring 2 2 s)) as [t|] eqn:Ht; simpl in H; [|done].
  apply parse_square_name in Hf, Ht.
  destruct s as [|c1 [|c2 [|c3 [|c4 [|c5 [|c6 s]]]]]]; try done; simpl in *.
  - destruct (f =? t)%nat; [done|]. injection H as <-. unfold uci. simpl.
    rewrite bool_decide_eq_false_2.
    + by rewrite Hf, Ht.
    + intros [=]. simpl in Hne. congruence.
  - destruct (piece_of_symbol c5) as [pt|] eqn:Hpt; simpl in H; [|done].
    destruct (f =? t)%nat; [done|]. injection H as <-. unfold uci. simpl.
    rewrite Hf, Ht. simpl. by rewrite (piece_of_symbol_symbol _ _ Hpt).
Qed.

(** What is read back from the notation of a move without promotion
    between two squares of the board is that move, if anything. *)
Lemma from_uci_mk_move (f t : Square) (m : Move) :
  (f < 64)%nat -> (t < 64)%nat ->
  from_uci (uci (mk_move f t)) = Some m -> m = mk_move f t.
Proof.
  intros Hf Ht.
  assert (Hall : forallb (fun f => forallb (fun t =>
            match from_uci (uci (mk_move f t)) with
            | Some m => bool_decide (m = mk_move f t)
            | None => true
            end) (seq 0 64)) (seq 0 64) = true) by (vm_compute; reflexivity).
  rewrite forallb_forall in Hall.
  specialize (Hall f ltac:(apply in_seq; lia)).
  rewrite forallb_forall in Hall.
  specialize (Hall t ltac:(apply in_seq; lia)).
  intros H. rewrite H in Hall. by apply bool_decide_eq_true in Hall.
Qed.

End NotationFacts.

Section ListedMoves.
Context {E : RulesEngine}.
Implicit Types (g : Game) (m : Move).

(** X9.  With a library whose legal moves go between two different
    squares of the board, [make_move] accepts every string that
    [get_legal_moves] lists, and beyond those only castling written as
    the king taking its rook: [e1h1], [e1a1], [e8h8] or [e8a8], when a
    king stands on the origin square and the castling string it stands
    for is listed. *)
Theorem make_move_accepts_listed_moves g move_uci :
  WellFormedLegalMoves E ->
  (make_move g move_uci).1 = true <->
  move_uci ∈ get_legal_moves g
  \/ exists (origin : Square) (castling : string),
       (move_uci, origin, castling)
         ∈ [("e1h1", E1, "e1g1"); ("e1a1", E1, "e1c1");
            ("e8h8", E8, "e8g8"); ("e8a8", E8, "e8c8")]%string
       /\ king_on (board g) origin = true
       /\ castling ∈ get_legal_moves g.
Proof.
  intros Hwf. rewrite make_move_accepts. unfold get_legal_moves.
  assert (Hlisted : forall m, m ∈ legal_moves (board g) ->
                              uci m ∈ map uci (legal_moves (board g))).
  { intros m Hm. apply list_elem_of_In, in_map. by apply list_elem_of_In. }
  assert (Hback : forall s m, from_uci s = Some m ->
            s ∈ map uci (legal_moves (board g)) -> m ∈ legal_moves (board g)).
  { intros s m Hparse (m' & <- & Hm')%list_elem_of_In%in_map_iff.
    apply list_elem_of_In in Hm'.
    rewrite (from_uci_uci m' (Hwf _ _ Hm')) in Hparse. by injection Hparse as <-. }
  split.
  - intros (m & Hparse & Hm). unfold is_legal in Hm. cbv zeta in Hm.
    case_bool_decide as Hin.
    { left. rewrite <- (uci_from_uci _ _ Hparse (Hwf _ _ Hin)). by apply Hlisted. }
    apply bool_decide_eq_true in Hm.
    destruct (from_chess960_cases (king_on (board g)) m)
      as [Heq | [(-> & Hk & Heq) | [(-> & Hk & Heq) | [(-> & Hk & Heq) | (-> & Hk & Heq)]]]];
      rewrite Heq in Hm; [done|..]; right;
      (apply uci_from_uci in Hparse;
         [|vm_compute; repeat split; first [lia | reflexivity]]);
      subst move_uci; apply Hlisted in Hm.
    + exists E1, "e1g1"%string. split; [rewrite !elem_of_cons; auto 8|done].
    + exists E1, "e1c1"%string. split; [rewrite !elem_of_cons; auto 8|done].
    + exists E8, "e8g8"%string. split; [rewrite !elem_of_cons; auto 8|done].
    + exists E8, "e8c8"%string. split; [rewrite !elem_of_cons; auto 8|done].
  - intros [Hin | (origin & castling & Htable & Hk & Hin)].
    + apply list_elem_of_In, in_map_iff in Hin as (m & <- & Hm%list_elem_of_In).
      exists m. split; [by apply from_uci_uci, (Hwf _ _ Hm)|by apply is_legal_listed].
    + rewrite !elem_of_cons, elem_of_nil in Htable.
      destruct Htable as [[= -> -> ->] | [[= -> -> ->] | [[= -> -> ->] | [[= -> -> ->] | []]]]].
      * exists (mk_move E1 H1). split; [reflexivity|].
        apply (Hback "e1g1"%string (mk_move E1 G1) eq_refl) in Hin.
        unfold is_legal, _from_chess960. simpl. rewrite Hk. simpl.
        case_bool_decide; [done|]. by apply bool_decide_eq_true.
      * exists (mk_move E1 A1). split; [reflexivity|].
        apply (Hback "e1c1"%string (mk_move E1 C1) eq_refl) in Hin.
        unfold is_legal, _from_chess960. simpl. rewrite Hk. simpl.
        case_bool_decide; [done|]. by apply bool_decide_eq_true.
      * exists (mk_move E8 H8). split; [reflexivity|].
        apply (Hback "e8g8"%string (mk_move E8 G8) eq_refl) in Hin.
        unfold is_legal, _from_chess960. simpl. rewrite Hk. simpl.
        case_bool_decide; [done|]. by apply bool_decide_eq_true.
      * exists (mk_move E8 A8). split; [reflexivity|].
        apply (Hback "e8c8"%string (mk_move E8 C8) eq_refl) in Hin.
        unfold is_legal, _from_chess960. simpl. rewrite Hk. simpl.
        case_bool_decide; [done|]. by apply bool_decide_eq_true.
Qed.

End ListedMoves.

(* ===================================================================== *)
(** * The position signature *)
(* ===================================================================== *)

Section SignatureText.

Lemma occurs_app (c : ascii) (s t : string) :
  occurs c (s ++ t) = occurs c s || occurs c t.
Proof. induction s as [|c' s IH]; simpl; [done|]. by rewrite IH, orb_assoc. Qed.

(** Two texts that agree up to the first [c] and after it. *)
Lemma app_separator_inj (c : ascii) (a1 a2 r1 r2 : string) :
  occurs c a1 = false -> occurs c a2 = false ->
  (a1 ++ String c r1 = a2 ++ String c r2)%string -> a1 = a2 /\ r1 = r2.
Proof.
  revert a2. induction a1 as [|x a1 IH]; intros [|y a2]; simpl.
  - intros _ _ [= ->]. done.
  - intros _ Hy [= <- _]. by rewrite Ascii.eqb_refl in Hy.
  - intros Hx _ [= -> _]. by rewrite Ascii.eqb_refl in Hx.
  - intros [_ Hx]%orb_false_iff [_ Hy]%orb_false_iff [= -> H].
    destruct (IH a2 Hx Hy H) as [-> ->]. done.
Qed.

(** Two texts that end in parts which both start with their only [c]. *)
Lemma app_marker_inj (c : ascii) (s1 s2 r1 r2 : string) :
  occurs c r1 = false -> occurs c r2 = false ->
  (s1 ++ String c r1 = s2 ++ String c r2)%string -> s1 = s2 /\ r1 = r2.
Proof.
  intros H1 H2. revert s2. induction s1 as [|x s1 IH]; intros [|y s2]; simpl.
  - intros [= ->]. done.
  - intros [= <- ->]. rewrite occurs_app in H1. simpl in H1.
    rewrite Ascii.eqb_refl, orb_true_r in H1. done.
  - intros [= -> <-]. rewrite occurs_app in H2. simpl in H2.
    rewrite Ascii.eqb_refl, orb_true_r in H2. done.
  - intros [= -> H]. destruct (IH s2 H) as [-> ->]. done.
Qed.

Lemma numeric_uint (d : Decimal.uint) : numeric (NilEmpty.string_of_uint d).
Proof.
  induction d; intros c; cbn [NilEmpty.string_of_uint occurs]; intros H; [done|..];
    (apply orb_true_iff in H as [Hc|Hc];
     [apply Ascii.eqb_eq in Hc; subst c; right; vm_compute; lia | by apply IHd]).
Qed.

Lemma numeric_zero : numeric "0".
Proof.
  intros c. cbn [occurs]. rewrite orb_false_r. intros Hc.
  apply Ascii.eqb_eq in Hc. subst c. right. vm_compute. lia.
Qed.

Lemma numeric_nil_zero (d : Decimal.uint) : numeric (NilZero.string_of_uint d).
Proof.
  unfold NilZero.string_of_uint.
  destruct d; first [apply numeric_zero | apply numeric_uint].
Qed.

Lemma numeric_str_int (z : Z) : numeric (str_int z).
Proof.
  unfold str_int, NilZero.string_of_int.
  destruct (Z.to_int z) as [d|d]; [apply numeric_nil_zero|].
  intros c. cbn [occurs]. intros H. apply orb_true_iff in H as [Hc|Hc].
  - apply Ascii.eqb_eq in Hc. by left.
  - by apply numeric_nil_zero in Hc.
Qed.

Lemma numeric_occurs (c : ascii) (s : string) :
  numeric s -> c <> "-"%char -> ~ (48 <= nat_of_ascii c <= 57)%nat ->
  occurs c s = false.
Proof.
  intros Hs Hc Hd. destruct (occurs c s) eqn:H; [|done].
  destruct (Hs c H); done.
Qed.

(** [str] is one to one on the integers. *)
Lemma str_int_inj (z1 z2 : Z) : str_int z1 = str_int z2 -> z1 = z2.
Proof.
  unfold str_int. intros H. apply DecimalZ.to_int_inj.
  assert (Hnil : forall z, Z.to_int z <> Decimal.Pos Decimal.Nil
                           /\ Z.to_int z <> Decimal.Neg Decimal.Nil).
  { intros z. split; intros Hz; pose proof (f_equal Z.of_int Hz) as Hz';
      rewrite DecimalZ.of_to in Hz'; subst z; vm_compute in Hz; done. }
  destruct (Hnil z1), (Hnil z2).
  apply (f_equal NilZero.int_of_string) in H.
  rewrite !NilZero.isi in H by done. by injection H.
Qed.

(** [str] is one to one on the dictionaries of counters. *)
Lemma str_tally_inj (d1 d2 : Tally) : str_tally d1 = str_tally d2 -> d1 = d2.
Proof.
  unfold str_tally. intros H. simpl in H. injection H as H.
  change (String "," ?s) with (String "," s) in H.
  apply (app_separator_inj ","%char) in H as [Hw H];
    [|apply numeric_occurs; [apply numeric_str_int|done|vm_compute; lia]..].
  simpl in H. injection H as H.
  apply (app_separator_inj "}"%char) in H as [Hb _];
    [|apply numeric_occurs; [apply numeric_str_int|done|vm_compute; lia]..].
  apply str_int_inj in Hw, Hb. destruct d1, d2; simpl in *. by subst.
Qed.

(** The text of the counters comes after the only opening brace. *)
Lemma str_tally_marker (d : Tally) :
  exists r, str_tally d = String "{" r /\ occurs "{" r = false.
Proof.
  exists ("'white': " ++ str_int (at_white d) ++ ", 'black': "
          ++ str_int (at_black d) ++ "}")%string.
  split; [reflexivity|].
  assert (Hint : forall z, occurs "{" (str_int z) = false).
  { intros z. apply numeric_occurs; [apply numeric_str_int|done|vm_compute; lia]. }
  rewrite !occurs_app, !Hint. reflexivity.
Qed.

(** A signature determines the position text and the counters. *)
Lemma signature_inj (s1 s2 : string) (d1 d2 : Tally) :
  (s1 ++ str_tally d1 = s2 ++ str_tally d2)%string -> s1 = s2 /\ d1 = d2.
Proof.
  destruct (str_tally_marker d1) as (r1 & E1 & H1).
  destruct (str_tally_marker d2) as (r2 & E2 & H2).
  intros H. rewrite E1, E2 in H.
  apply app_marker_inj in H as [-> Hr]; [|done..].
  split; [done|]. apply str_tally_inj. by rewrite E1, E2, Hr.
Qed.

End SignatureText.

Section SignatureFacts.
Context {E : RulesEngine}.
Implicit Types (st : Store) (w : World) (r : loc) (g : Game).

(** The signature of a game object is read off its board and its move
    counters, and reading it changes nothing. *)
Lemma get_position_hash_run w r g :
  load_game (store w) r = Some g ->
  _get_position_hash r w
  = (Return (fen (board g) ++ str_tally (moves_played g))%string, w).
Proof.
  unfold load_game. intros H.
  destruct (games (store w) !! r) as [o|] eqn:Ho; [|done]. simpl in H.
  destruct (boards (store w) !! board_ref o) as [b|] eqn:Hb; [|done]. simpl in H.
  destruct (dicts (store w) !! moves_played_ref o) as [mp|] eqn:Hmp; [|done].
  simpl in H.
  destruct (dicts (store w) !! points_captured_ref o) as [pc|]; [|done].
  injection H as <-.
  unfold _get_position_hash, board_of, game_obj, bind, get_store, deref, ret. simpl.
  rewrite Ho. simpl. rewrite Hb. simpl. rewrite Ho. simpl. by rewrite Hmp.
Qed.

(** X10.  The position signature is the text of the board followed by the
    move counters, and nothing else: two games have the same signature
    exactly when their boards have the same text and their move counters
    are equal, whatever their captured points, flags, result and player to
    move. *)
Theorem position_hash_determines w r1 r2 g1 g2 :
  load_game (store w) r1 = Some g1 -> load_game (store w) r2 = Some g2 ->
  exists h1 h2,
    _get_position_hash r1 w = (Return h1, w)
    /\ _get_position_hash r2 w = (Return h2, w)
    /\ (h1 = h2 <->
        fen (board g1) = fen (board g2) /\ moves_played g1 = moves_played g2).
Proof.
  intros H1 H2. eexists _, _.
  split; [by apply get_position_hash_run|].
  split; [by apply get_position_hash_run|]. split.
  - apply signature_inj.
  - by intros [-> ->].
Qed.

(** The world after [_clone_game]. *)
Lemma clone_game_run w game o b mp pc :
  games (store w) !! game = Some o ->
  boards (store w) !! board_ref o = Some b ->
  dicts (store w) !! moves_played_ref o = Some mp ->
  dicts (store w) !! points_captured_ref o = Some pc ->
  _clone_game game w
  = (Return (length (games (store w))),
     {| store :=
          {| games := games (store w) ++
               [{| board_ref := length (boards (store w));
                   moves_played_ref := length (dicts (store w));
                   points_captured_ref := length (dicts (store w) ++ [mp]);
                   obj_max_moves := 6;
                   obj_current_player := obj_current_player o;
                   obj_game_over := obj_game_over o;
                   obj_winner := obj_winner o;
                   obj_last_move_was_capture := obj_last_move_was_capture o;
                   obj_extra_move_granted := obj_extra_move_granted o |}];
             boards := boards (store w) ++ [b];
             dicts := (dicts (store w) ++ [mp]) ++ [pc] |};
        transposition_table := transposition_table w;
        ticks := ticks w |}).
Proof.
  intros Ho Hb Hmp Hpc.
  unfold _clone_game, game_obj, board_copy, dict_copy, new_board, new_dict,
    new_game_obj, bind, get_store, put_store, deref, ret. simpl.
  rewrite Ho. simpl. rewrite Hb. simpl. rewrite Hmp. simpl.
  rewrite (lookup_app_l_Some _ _ _ _ Hpc). simpl. reflexivity.
Qed.

(** X11.  [_clone_game] makes a new game object on a new board object
    and new dictionaries.  The clone has the attribute values of the
    original, except [max_moves], which is 6 as in every new game; a move
    made on the clone is the move made on those values, and the original
    reads as before. *)
Theorem clone_game_copies w game g move_uci :
  load_game (store w) game = Some g ->
  exists game_copy w1 w2,
    _clone_game game w = (Return game_copy, w1)
    /\ game_copy = length (games (store w))
    /\ load_game (store w1) game_copy = Some (clone_of g)
    /\ load_game (store w1) game = Some g
    /\ transposition_table w1 = transposition_table w /\ ticks w1 = ticks w
    /\ make_move_at game_copy move_uci w1
       = (Return (make_move (clone_of g) move_uci).1, w2)
    /\ load_game (store w2) game_copy = Some (make_move (clone_of g) move_uci).2
    /\ load_game (store w2) game = Some g.
Proof.
  intros Hg. pose proof Hg as Hload. unfold load_game in Hload.
  destruct (games (store w) !! game) as [o|] eqn:Ho; [|done]. simpl in Hload.
  destruct (boards (store w) !! board_ref o) as [b|] eqn:Hb; [|done]. simpl in Hload.
  destruct (dicts (store w) !! moves_played_ref o) as [mp|] eqn:Hmp; [|done].
  simpl in Hload.
  destruct (dicts (store w) !! points_captured_ref o) as [pc|] eqn:Hpc; [|done].
  simpl in Hload. injection Hload as Hgval.
  pose proof (clone_game_run w game o b mp pc Ho Hb Hmp Hpc) as Hclone.
  set (game_copy := length (games (store w))) in *.
  destruct (_clone_game game w) as [out w1] eqn:Hw1.
  injection Hclone as -> Hw1eq.
  pose proof (frame_run _ _ _ _ (frame_clone_game game) Hw1) as Hframe.
  pose proof (clone_game_created _ _ _ _ Hw1) as Hnew.
  assert (Hcopy : load_game (store w1) game_copy = Some (clone_of g)).
  { rewrite Hw1eq. unfold load_game, game_copy. cbn [store games boards dicts].
    rewrite (list_lookup_middle (games (store w)) []) by done.
    cbn [mbind option_bind board_ref moves_played_ref points_captured_ref].
    rewrite (list_lookup_middle (boards (store w)) []) by done.
    cbn [mbind option_bind].
    rewrite (lookup_app_l_Some (dicts (store w) ++ [mp]) [pc] (length (dicts (store w))) mp)
      by (by apply list_lookup_middle).
    cbn [mbind option_bind].
    rewrite (list_lookup_middle (dicts (store w) ++ [mp]) []) by done.
    cbn [mbind option_bind]. rewrite <- Hgval. reflexivity. }
  assert (Hvalid : valid_game (store w1) game_copy).
  { rewrite Hw1eq. unfold game_copy. eexists. cbn [store games boards dicts].
    split; [by apply list_lookup_middle|]. simpl.
    rewrite !length_app. simpl. repeat split; lia. }
  assert (Hmove : make_move_at game_copy move_uci w1
                  = (Return (make_move (clone_of g) move_uci).1,
                     {| store := update_game (store w1) game_copy
                                   (make_move (clone_of g) move_uci).2;
                        transposition_table := transposition_table w1;
                        ticks := ticks w1 |})).
  { unfold make_move_at, bind, get_store, put_store, deref, ret. simpl.
    rewrite Hcopy. simpl. by destruct (make_move (clone_of g) move_uci). }
  eexists game_copy, w1, _.
  split; [done|]. split; [done|]. split; [done|].
  split; [by eapply load_game_extends|].
  split; [by rewrite Hw1eq|]. split; [by rewrite Hw1eq|].
  split; [exact Hmove|]. cbn [store]. split.
  - by apply load_update_game.
  - eapply load_game_extends; [|exact Hg]. by apply update_game_beyond.
Qed.

End SignatureFacts.

(* ===================================================================== *)
(** * The transposition table *)
(* ===================================================================== *)

Section TableFacts.
Context {E : RulesEngine}.
Variable clock : nat -> float.
Variable self_game : nat.
Implicit Types (st : Store) (w : World) (g : Game).

Lemma table_lookup_Some (t : gmap string TTEntry) pos_hash d s :
  table_lookup t pos_hash d = Some s <->
  exists e, t !! pos_hash = Some e /\ (d <= depth e)%nat /\ score e = s.
Proof.
  unfold table_lookup. destruct (t !! pos_hash) as [e|]; [|by split; [|intros (? & ? & _)]].
  destruct (Nat.leb_spec d (depth e)); split.
  - intros [= <-]. eauto.
  - by intros (? & [= <-] & _ & <-).
  - done.
  - intros (? & [= <-] & ? & _). lia.
Qed.

(** Whatever runs before it, a result that is stored last is in the
    table at the end. *)
Lemma stored_last {A} (m : M A) (f : A -> num) pos_hash d w s w' :
  (x <- m ;; table_store pos_hash (f x) d ;;; ret (f x)) w = (Return s, w') ->
  transposition_table w' !! pos_hash = Some {| score := s; depth := d |}.
Proof.
  intros H. apply bind_Return_inv in H as (x & w1 & _ & H).
  unfold table_store, bind, get_table, put_table, ret in H. simpl in H.
  injection H as <- <-. simpl. apply lookup_insert_eq.
Qed.

Lemma negamax_leaf_stores game d color pos_hash w s w' :
  negamax_leaf game d color pos_hash w = (Return s, w') ->
  transposition_table w' !! pos_hash = Some {| score := s; depth := d |}.
Proof.
  unfold negamax_leaf. apply (stored_last _ (fun e => (PInt color * e)%num)).
Qed.

(** X12.  [_negamax] leaves its result in the transposition table: when a
    call on a game returns a score at some depth, the table then holds,
    under the signature of that game, that score with a depth at least the
    one asked for.  Any later call on the game at that depth or less that
    is made in time returns the stored score at once, whatever bounds and
    sign it is given, without touching the table or any object. *)
Theorem negamax_memoizes game g depth alpha beta color start_time time_limit w s w' :
  load_game (store w) game = Some g ->
  _negamax clock self_game game depth alpha beta color start_time time_limit w
  = (Return s, w') ->
  let pos_hash := (fen (board g) ++ str_tally (moves_played g))%string in
  (exists e, transposition_table w' !! pos_hash = Some e
             /\ score e = s /\ (depth <= Objects.depth e)%nat)
  /\ forall depth2 alpha2 beta2 color2 start2 limit2,
       (depth2 <= depth)%nat ->
       (out_of_time clock start2 limit2 w').1 = Return false ->
       let again := _negamax clock self_game game depth2 alpha2 beta2 color2
                      start2 limit2 w' in
       again.1 = Return s
       /\ store again.2 = store w'
       /\ transposition_table again.2 = transposition_table w'.
Proof.
  intros Hg Hrun pos_hash.
  assert (Hentry : exists e, transposition_table w' !! pos_hash = Some e
                             /\ score e = s /\ (depth <= Objects.depth e)%nat).
  { destruct depth as [|depth']; cbn [_negamax] in Hrun;
      apply bind_Return_inv in Hrun as (late & w1 & Hlate & Hrun);
      rewrite out_of_time_run in Hlate; injection Hlate as <- <-;
      (destruct (_ >? _)%num; [done|]);
      rewrite (bind_Return _ _ _ _ _
                 (get_position_hash_run (time clock w).2 game g Hg)) in Hrun;
      fold pos_hash in Hrun;
      unfold bind at 1 in Hrun; unfold get_table at 1 in Hrun; cbn [fst snd] in Hrun;
      destruct (table_lookup _ pos_hash _) as [cached|] eqn:Hhit.
    - injection Hrun as <- <-. apply table_lookup_Some in Hhit as (e & ? & ? & ?).
      exists e. done.
    - apply negamax_leaf_stores in Hrun. eauto.
    - injection Hrun as <- <-. apply table_lookup_Some in Hhit as (e & ? & ? & ?).
      exists e. done.
    - apply bind_Return_inv in Hrun as (over & w2 & _ & Hrun).
      destruct over.
      + apply negamax_leaf_stores in Hrun. eauto.
      + apply bind_Return_inv in Hrun as (legal & w3 & _ & Hrun).
        apply bind_Return_inv in Hrun as (ordered & w4 & _ & Hrun).
        apply (stored_last _ (fun x => x)) in Hrun. eauto. }
  split; [exact Hentry|].
  intros depth2 alpha2 beta2 color2 start2 limit2 Hle Hintime again.
  destruct Hentry as (e & He & Hs & Hd).
  pose proof (frame_run _ _ _ _
                (frame_negamax clock self_game game depth alpha beta color
                   start_time time_limit) Hrun) as Hext.
  pose proof (load_game_extends _ _ _ _ Hext Hg) as Hg'.
  destruct (out_of_time clock start2 limit2 w') as [late w1] eqn:Hlate.
  cbn [fst] in Hintime. subst late.
  assert (Hw1 : w1 = (time clock w').2).
  { rewrite out_of_time_run in Hlate. by injection Hlate as _ <-. }
  assert (Hg1 : load_game (store w1) game = Some g) by (by rewrite Hw1).
  assert (Hagain : again = (Return s, w1)).
  { unfold again.
    destruct depth2 as [|depth2']; cbn [_negamax];
      rewrite (bind_Return _ _ _ _ _ Hlate);
      rewrite (bind_Return _ _ _ _ _ (get_position_hash_run w1 game g Hg1));
      fold pos_hash;
      unfold bind at 1; unfold get_table at 1; cbn [fst snd];
      (replace (table_lookup _ pos_hash _) with (Some s);
       [reflexivity|symmetry; apply table_lookup_Some; exists e; rewrite Hw1; cbn;
                    repeat split; [done|lia|done]]). }
  rewrite Hagain, Hw1. done.
Qed.

End TableFacts.

Section TableKept.
Context {E : RulesEngine}.
Implicit Types (w : World).

Lemma keeps_ret {A} (a : A) : keeps_table (ret a).
Proof. by intros w key. Qed.

Lemma keeps_raise {A} (e : exn) : keeps_table (raise (A:=A) e).
Proof. by intros w key. Qed.

Lemma keeps_bind {A B} (m : M A) (k : A -> M B) :
  keeps_table m -> (forall a, keeps_table (k a)) -> keeps_table (x <- m ;; k x).
Proof.
  intros Hm Hk w key Hkey. unfold bind. specialize (Hm w key Hkey).
  destruct (m w) as [[a|e] w1]; simpl in *; [|done]. by apply Hk.
Qed.

Lemma keeps_try_except {A} (m : M A) (e : exn) (h : M A) :
  keeps_table m -> keeps_table h -> keeps_table (try_except m e h).
Proof.
  intros Hm Hh w key Hkey. unfold try_except. specialize (Hm w key Hkey).
  destruct (m w) as [[a|e'] w1]; simpl in *; [done|].
  case_bool_decide; [|done]. by apply Hh.
Qed.

Lemma keeps_deref {A} (o : option A) : keeps_table (deref o).
Proof. destruct o; [apply keeps_ret|apply keeps_raise]. Qed.

Lemma keeps_get_store : keeps_table get_store.
Proof. by intros w key. Qed.

Lemma keeps_put_store st : keeps_table (put_store st).
Proof. by intros w key. Qed.

Lemma keeps_get_table : keeps_table get_table.
Proof. by intros w key. Qed.

Lemma keeps_time clock : keeps_table (time clock).
Proof. by intros w key. Qed.

(** Storing a result adds or overwrites an entry. *)
Lemma keeps_table_store pos_hash s d : keeps_table (table_store pos_hash s d).
Proof.
  intros w key Hkey. unfold table_store, bind, get_table, put_table. simpl.
  destruct (decide (key = pos_hash)) as [->|Hne].
  - by rewrite lookup_insert_eq.
  - by rewrite lookup_insert_ne.
Qed.

End TableKept.

Create HintDb table.
#[export] Hint Resolve keeps_ret keeps_raise keeps_deref keeps_get_store
  keeps_put_store keeps_get_table keeps_time keeps_table_store : table.

Create HintDb engine.
#[export] Hint Unfold game_obj board_of current_player_of game_over_of new_board
  new_dict new_game_obj board_copy dict_copy push_at make_move_at
  get_legal_moves_at _clone_game _get_position_hash _evaluate_position
  gives_check parse_uci order_score _order_moves fast_score _get_fast_move
  negamax_leaf out_of_time _iterative_deepening_search search_at_depth
  find_best_move : engine.

(** One step of a proof that the table is kept: split a bind, a
    conditional or a match, close the goal with a known fact, or look
    into a definition. *)
Ltac table_step :=
  match goal with
  | |- keeps_table (Objects.bind _ _) => apply keeps_bind; [|intros ?]
  | |- keeps_table (try_except _ _ _) => apply keeps_try_except
  | |- keeps_table (if ?c then _ else _) => destruct c
  | |- keeps_table (match ?x with _ => _ end) => destruct x
  | |- keeps_table _ => solve [eauto with table]
  | |- keeps_table _ => progress autounfold with engine
  end.
Ltac table_auto := repeat table_step.

Section TableKeptBySearch.
Context {E : RulesEngine}.
Variable clock : nat -> float.
Variable self_game : nat.

Lemma keeps_score_moves moves : keeps_table (score_moves self_game moves).
Proof. induction moves as [|move_uci rest IH]; simpl; table_auto. Qed.

Lemma keeps_fast_loop legal_moves best_score best_move :
  keeps_table (fast_loop self_game legal_moves best_score best_move).
Proof.
  revert best_score best_move.
  induction legal_moves as [|move_uci rest IH]; intros; simpl; table_auto.
Qed.

Lemma keeps_negamax_loop child game beta ordered_moves alpha max_score :
  (forall game_copy a b, keeps_table (child game_copy a b)) ->
  keeps_table (negamax_loop child game beta ordered_moves alpha max_score).
Proof.
  intros Hchild. revert alpha max_score.
  induction ordered_moves as [|move_uci rest IH]; intros; simpl; table_auto.
Qed.

Lemma keeps_negamax game depth alpha beta color start_time time_limit :
  keeps_table (_negamax clock self_game game depth alpha beta color start_time
                 time_limit).
Proof.
  revert game alpha beta color.
  induction depth as [|depth IH]; intros; simpl; table_auto;
    first [apply keeps_score_moves
          | apply keeps_negamax_loop; intros; apply IH].
Qed.

Lemma keeps_root_loop depth start_time time_limit ordered_moves best_score best_move :
  keeps_table (root_loop clock self_game depth start_time time_limit
                 ordered_moves best_score best_move).
Proof.
  revert best_score best_move.
  induction ordered_moves as [|move_uci rest IH]; intros; simpl; table_auto;
    apply keeps_negamax.
Qed.

Lemma keeps_deepening_loop start_time time_limit depths best_move :
  keeps_table (deepening_loop clock self_game start_time time_limit depths best_move).
Proof.
  revert best_move.
  induction depths as [|depth rest IH]; intros; simpl; table_auto;
    first [apply keeps_score_moves | apply keeps_root_loop].
Qed.

(** X25.  The search never removes an entry of the transposition table:
    a signature that is in the table stays in it through every call of
    [_negamax] and of [find_best_move], however the call ends; entries are
    added and overwritten only, and the table is cleared nowhere. *)
Theorem search_keeps_table_entries max_time :
  (forall time_limit, keeps_table (find_best_move clock self_game max_time time_limit))
  /\ (forall game depth alpha beta color start_time time_limit,
        keeps_table (_negamax clock self_game game depth alpha beta color
                       start_time time_limit)).
Proof.
  split; [|intros; apply keeps_negamax].
  intros time_limit. table_auto;
    first [apply keeps_fast_loop | apply keeps_deepening_loop].
Qed.

End TableKeptBySearch.

(* ===================================================================== *)
(** * The order of the moves *)
(* ===================================================================== *)

Section ComparisonFacts.

Lemma SFcompare_opp (a b : spec_float) :
  SFcompare b a = CompOpp <$> SFcompare a b.
Proof.
  destruct a as [sa|sa| |sa ma ea], b as [sb|sb| |sb mb eb]; simpl;
    try reflexivity; try (by destruct sa); try (by destruct sb);
    try (by destruct sa, sb).
  destruct sa, sb; simpl; try reflexivity;
    rewrite (Z.compare_antisym ea eb);
    destruct (ea ?= eb); simpl; try reflexivity;
    rewrite (ZC4 mb ma); by destruct (Pos.compare_cont Eq ma mb).
Qed.

Lemma float_compare_opp (a b : float) :
  PyNum.float_compare b a = CompOpp <$> PyNum.float_compare a b.
Proof.
  unfold PyNum.float_compare. rewrite !FloatAxioms.compare_spec.
  rewrite (SFcompare_opp (Prim2SF a) (Prim2SF b)).
  by destruct (SFcompare (Prim2SF a) (Prim2SF b)) as [[]|].
Qed.

(** Comparing the other way round gives the opposite answer. *)
Lemma compare_opp (x y : num) : PyNum.compare y x = CompOpp <$> PyNum.compare x y.
Proof.
  destruct x as [a|f], y as [b|g]; simpl.
  - by rewrite (Z.compare_antisym a b).
  - done.
  - by destruct (PyNum.Z_compare_SF b (Prim2SF f)) as [[]|].
  - apply float_compare_opp.
Qed.

Lemma ltb_asym (x y : num) : (x <? y)%num = true -> (y <? x)%num = false.
Proof.
  unfold PyNum.ltb. rewrite (compare_opp x y).
  by destruct (PyNum.compare x y) as [[]|].
Qed.

End ComparisonFacts.

Section SortedFacts.

Lemma insert_by_score_descending x l :
  descending (map snd l) = true ->
  descending (map snd (insert_by_score x l)) = true.
Proof.
  induction l as [|y l IH]; [done|].
  intros Hl. cbn [insert_by_score].
  destruct (snd x <? snd y)%num eqn:Hlt.
  - assert (Hrest : descending (map snd l) = true).
    { destruct l; [done|]. simpl in Hl. by apply andb_true_iff in Hl as [_ ?]. }
    specialize (IH Hrest).
    destruct l as [|z l'].
    + simpl. by rewrite (ltb_asym _ _ Hlt).
    + cbn [insert_by_score] in *.
      destruct (snd x <? snd z)%num eqn:Hxz.
      * simpl in Hl. apply andb_true_iff in Hl as [Hyz _].
        cbn [map descending] in *. by rewrite Hyz, IH.
      * cbn [map descending] in *. by rewrite (ltb_asym _ _ Hlt), IH.
  - cbn [map descending] in *. by rewrite Hlt, Hl.
Qed.

Lemma sort_by_score_descending l : descending (map snd (sort_by_score l)) = true.
Proof.
  induction l as [|x l IH]; [done|]. simpl. by apply insert_by_score_descending.
Qed.

(** Moves of equal score stay in the order of the list: the sort changes
    nothing in a list that is in descending order already. *)
Lemma insert_by_score_first x l :
  descending (map snd (x :: l)) = true -> insert_by_score x l = x :: l.
Proof.
  destruct l as [|y l]; [done|]. simpl.
  intros [Hxy _]%andb_true_iff. by destruct (snd x <? snd y)%num.
Qed.

Lemma sort_by_score_sorted l :
  descending (map snd l) = true -> sort_by_score l = l.
Proof.
  induction l as [|x l IH]; [done|]. intros Hl. simpl.
  rewrite IH.
  - by apply insert_by_score_first.
  - destruct l; [done|]. simpl in Hl. by apply andb_true_iff in Hl as [_ ?].
Qed.

End SortedFacts.

Section OrderFacts.
Context {E : RulesEngine}.
Variable self_game : nat.

(** X13.  [_order_moves] returns the moves in descending order of the
    scores it gave them: with the scores that its loop computed, no move
    of the result is directly followed by a move with a greater score, and
    a list whose scores are in descending order already is returned as it
    is. *)
Theorem order_moves_descending moves w ordered w' :
  _order_moves self_game moves w = (Return ordered, w') ->
  exists scored,
    score_moves self_game moves w = (Return scored, w')
    /\ map fst scored = moves
    /\ ordered = map fst (sort_by_score scored)
    /\ descending (map snd (sort_by_score scored)) = true
    /\ (descending (map snd scored) = true -> ordered = moves).
Proof.
  unfold _order_moves. intros H.
  apply bind_Return_inv in H as (scored & w1 & Hscored & H).
  injection H as <- <-. exists scored.
  pose proof (score_moves_fst _ _ _ _ _ Hscored) as Hfst.
  split; [done|]. split; [done|]. split; [done|].
  split; [apply sort_by_score_descending|].
  intros Hdesc. by rewrite sort_by_score_sorted.
Qed.

End OrderFacts.

(* ===================================================================== *)
(** * Setting up a position *)
(* ===================================================================== *)

Section SetupFacts.
Context {E : RulesEngine} {Ed : BoardEditor E}.
Import ManualPositionSetup.
Implicit Types (s : Setup) (sq : Square).

Lemma kings_fold (b : Board) (l : list Square) (white_king black_king : bool) :
  fold_left
    (fun '(white_king, black_king) square =>
       match piece_at b square with
       | Some piece =>
           if bool_decide (piece_type piece = KING) then
             if bool_decide (color piece = WHITE) then (true, black_king)
             else (white_king, true)
           else (white_king, black_king)
       | None => (white_king, black_king)
       end) l (white_king, black_king)
  = (white_king
     || existsb (fun sq => bool_decide
                   (piece_at b sq = Some {| piece_type := KING; color := WHITE |})) l,
     black_king
     || existsb (fun sq => bool_decide
                   (piece_at b sq = Some {| piece_type := KING; color := BLACK |})) l).
Proof.
  set (f := fun '(white_king, black_king) square => _).
  assert (Hstep : forall wk bk sq,
    f (wk, bk) sq
    = (wk || bool_decide (piece_at b sq = Some {| piece_type := KING; color := WHITE |}),
       bk || bool_decide (piece_at b sq = Some {| piece_type := KING; color := BLACK |}))).
  { intros wk bk sq. unfold f.
    destruct (piece_at b sq) as [[[] []]|], wk, bk; vm_compute; reflexivity. }
  revert white_king black_king.
  induction l as [|sq l IH]; intros white_king black_king; cbn [fold_left existsb].
  - by rewrite !orb_false_r.
  - by rewrite Hstep, IH, !orb_assoc.
Qed.

(** X14.  [is_valid_position] is true exactly when a white king stands
    on some square of the board and a black king on some square; nothing
    else about the position is looked at. *)
Theorem is_valid_position_spec s :
  is_valid_position s = true <->
  (exists sq, (sq < 64)%nat
              /\ piece_at (board s) sq = Some {| piece_type := KING; color := WHITE |})
  /\ (exists sq, (sq < 64)%nat
                 /\ piece_at (board s) sq = Some {| piece_type := KING; color := BLACK |}).
Proof.
  unfold is_valid_position. rewrite kings_fold. cbv beta iota.
  rewrite !orb_false_l, andb_true_iff, !existsb_exists. unfold SQUARES.
  split; intros [(sq1 & H1 & K1) (sq2 & H2 & K2)]; split.
  - exists sq1. apply in_seq in H1. apply bool_decide_eq_true in K1. split; [lia|done].
  - exists sq2. apply in_seq in H2. apply bool_decide_eq_true in K2. split; [lia|done].
  - exists sq1. split; [apply in_seq; lia|by apply bool_decide_eq_true].
  - exists sq2. split; [apply in_seq; lia|by apply bool_decide_eq_true].
Qed.

(** The symbols of [piece_mapping] are the letters of the pieces, upper
    case for the first six. *)
Lemma piece_mapping_letters symbol pt :
  dict_get piece_mapping symbol = Some pt ->
  symbol = String (if isupper symbol then upper (piece_symbol pt)
                   else piece_symbol pt) EmptyString.
Proof.
  unfold piece_mapping. cbn [dict_get].
  repeat match goal with
         | |- context [String.eqb ?k symbol] =>
             destruct (String.eqb_spec k symbol) as [<-|_];
             [intros [= <-]; vm_compute; reflexivity|]
         end.
  discriminate.
Qed.

Lemma add_piece_run s symbol pt sq :
  EditsOneSquare E Ed ->
  dict_get piece_mapping symbol = Some pt -> (sq < 64)%nat ->
  exists s', add_piece s symbol sq = Return s'
    /\ forall sq', piece_at (board s') sq'
         = if bool_decide (sq' = sq)
           then Some {| piece_type := pt; color := isupper symbol |}
           else piece_at (board s) sq'.
Proof.
  intros [Hset _] Hpt Hsq. unfold add_piece. rewrite Hpt.
  rewrite (proj2 (Nat.leb_gt _ _) Hsq). eexists. split; [done|].
  intros sq'. simpl. rewrite Hset by done. by destruct (isupper symbol).
Qed.

Lemma remove_piece_run s sq :
  EditsOneSquare E Ed -> (sq < 64)%nat ->
  exists s', remove_piece s sq = Return s'
    /\ forall sq', piece_at (board s') sq'
         = if bool_decide (sq' = sq) then None else piece_at (board s) sq'.
Proof.
  intros [_ Hremove] Hsq. unfold remove_piece.
  rewrite (proj2 (Nat.leb_gt _ _) Hsq). eexists. split; [done|].
  intros sq'. simpl. by rewrite Hremove.
Qed.

(** X15.  [add_piece] with a symbol that is not one of the twelve piece
    letters does nothing.  With a piece letter and a square of the board
    it puts the piece of that letter on the square -- white for an upper
    case letter, black for a lower case one -- whatever stood there, and
    leaves the other squares alone; [remove_piece] empties the square.
    Beyond the board both raise [IndexError]. *)
Theorem add_piece_spec s symbol sq :
  EditsOneSquare E Ed ->
  (dict_get piece_mapping symbol = None -> add_piece s symbol sq = Return s)
  /\ (forall pt, dict_get piece_mapping symbol = Some pt ->
        symbol = String (if isupper symbol then upper (piece_symbol pt)
                         else piece_symbol pt) EmptyString
        /\ ((64 <= sq)%nat -> add_piece s symbol sq = Raise IndexError)
        /\ ((sq < 64)%nat ->
            exists s', add_piece s symbol sq = Return s'
              /\ forall sq', piece_at (board s') sq'
                   = if bool_decide (sq' = sq)
                     then Some {| piece_type := pt; color := isupper symbol |}
                     else piece_at (board s) sq'))
  /\ ((64 <= sq)%nat -> remove_piece s sq = Raise IndexError)
  /\ ((sq < 64)%nat ->
      exists s', remove_piece s sq = Return s'
        /\ forall sq', piece_at (board s') sq'
             = if bool_decide (sq' = sq) then None else piece_at (board s) sq').
Proof.
  intros Hedit.
  split; [unfold add_piece; by intros ->|]. split; [|split].
  - intros pt Hpt. split; [by apply piece_mapping_letters|]. split.
    + intros Hsq. unfold add_piece. by rewrite Hpt, (proj2 (Nat.leb_le _ _) Hsq).
    + by apply add_piece_run.
  - intros Hsq. unfold remove_piece. by rewrite (proj2 (Nat.leb_le _ _) Hsq).
  - by apply remove_piece_run.
Qed.

End SetupFacts.

(* ===================================================================== *)
(** * Mouse clicks *)
(* ===================================================================== *)

Section PointFacts.
Import ChessUI.

Lemma square_at_point_Some (x y square : Z) :
  square_at_point x y = Some square ->
  50 <= x < 450 /\ 50 <= y < 450 /\ 0 <= square < 64
  /\ square mod 8 = (x - 50) / 50 /\ square / 8 = 7 - (y - 50) / 50.
Proof.
  unfold square_at_point, board_offset_x, board_offset_y, square_size, board_size.
  change (400 / 8) with 50. change (50 + 400) with 450.
  destruct (Z.leb_spec 50 x), (Z.ltb_spec x 450), (Z.leb_spec 50 y),
    (Z.ltb_spec y 450); simpl; try done.
  intros [= <-].
  assert (0 <= (x - 50) / 50 < 8)
    by (split; [apply Z.div_pos; lia|apply Z.div_lt_upper_bound; lia]).
  assert (0 <= (y - 50) / 50 < 8)
    by (split; [apply Z.div_pos; lia|apply Z.div_lt_upper_bound; lia]).
  repeat split; try lia.
  - rewrite Z.add_comm, Z.mod_add by lia. apply Z.mod_small. lia.
  - rewrite Z.add_comm, Z.div_add by lia. rewrite Z.div_small by lia. lia.
Qed.

Lemma square_at_point_None (x y : Z) :
  square_at_point x y = None <-> ~ (50 <= x < 450 /\ 50 <= y < 450).
Proof.
  unfold square_at_point, board_offset_x, board_offset_y, square_size, board_size.
  change (50 + 400) with 450.
  destruct (Z.leb_spec 50 x), (Z.ltb_spec x 450), (Z.leb_spec 50 y),
    (Z.ltb_spec y 450); simpl; split; try done; try lia;
    intros H; exfalso; apply H; lia.
Qed.

(** X16.  A click is taken as a click on the board exactly when it lies
    in the square of 400 by 400 points at (50, 50); the square computed
    from it is then one of the 64 squares, with the file counted from the
    left and the rank from the bottom, and every square is under the
    points of its own 50 by 50 cell. *)
Theorem square_at_point_spec (x y : Z) :
  (forall square, square_at_point x y = Some square ->
     50 <= x < 450 /\ 50 <= y < 450 /\ 0 <= square < 64
     /\ square mod 8 = (x - 50) / 50 /\ square / 8 = 7 - (y - 50) / 50)
  /\ (square_at_point x y = None <-> ~ (50 <= x < 450 /\ 50 <= y < 450))
  /\ (forall square dx dy, 0 <= square < 64 -> 0 <= dx < 50 -> 0 <= dy < 50 ->
        square_at_point (50 + 50 * (square mod 8) + dx)
                        (50 + 50 * (7 - square / 8) + dy) = Some square).
Proof.
  split; [apply square_at_point_Some|]. split; [apply square_at_point_None|].
  intros square dx dy Hsq Hdx Hdy.
  unfold square_at_point, board_offset_x, board_offset_y, square_size, board_size.
  change (400 / 8) with 50. change (50 + 400) with 450.
  assert (0 <= square mod 8 < 8) by (apply Z.mod_pos_bound; lia).
  assert (0 <= square / 8 < 8)
    by (split; [apply Z.div_pos; lia|apply Z.div_lt_upper_bound; lia]).
  rewrite (proj2 (Z.leb_le _ _)), (proj2 (Z.ltb_lt _ _)),
    (proj2 (Z.leb_le _ _)), (proj2 (Z.ltb_lt _ _)) by lia.
  simpl. f_equal.
  replace (50 + 50 * (square mod 8) + dx - 50) with (dx + (square mod 8) * 50) by lia.
  replace (50 + 50 * (7 - square / 8) + dy - 50) with (dy + (7 - square / 8) * 50)
    by lia.
  rewrite !Z.div_add by lia.
  rewrite (Z.div_small dx 50), (Z.div_small dy 50) by lia.
  pose proof (Z.div_mod square 8 ltac:(lia)). lia.
Qed.

(** X17.  In setup mode every click in the column of buttons, from
    x = 500 to x = 750, is taken by the branch of the piece buttons, at
    whatever height: the branch of the main button, in which "Start Game"
    is tested for, is only taken when [setup_mode] is false. *)
Theorem main_buttons_only_in_game_mode (setup_mode : bool) (x y : Z) :
  (branch setup_mode x y = MainButtons -> setup_mode = false)
  /\ (setup_mode = true -> 500 <= x <= 750 -> branch setup_mode x y = SetupButtons)
  /\ (branch setup_mode x y = MainButtons <->
      setup_mode = false /\ 500 <= x <= 750 /\ 530 <= y <= 560).
Proof.
  assert (Hoff : 500 <= x -> square_at_point x y = None).
  { intros Hx. apply square_at_point_None. lia. }
  unfold branch.
  destruct (Z.leb_spec 500 x), (Z.leb_spec x 750), (Z.leb_spec 530 y),
    (Z.leb_spec y 560), setup_mode;
    rewrite ?Hoff by lia; simpl;
    repeat split; try done; try lia;
    try (destruct (square_at_point x y); done);
    try (by intros (_ & ? & ?); lia).
Qed.

(** The symbols that the piece buttons select are symbols that
    [add_piece] knows. *)
Lemma piece_button_known (y : Z) (selected symbol : option string) :
  piece_button y selected = symbol ->
  symbol = selected
  \/ symbol = None
  \/ exists s pt, symbol = Some s
                  /\ dict_get ManualPositionSetup.piece_mapping s = Some pt
                  /\ truthy symbol = true.
Proof.
  unfold piece_button. intros <-.
  repeat match goal with
         | |- context [(?a <=? y) && (y <=? ?b)] =>
             destruct ((a <=? y) && (y <=? b));
             [first [by right; left
                    |right; right; eexists _, _; vm_compute; repeat split; reflexivity]|]
         end.
  by left.
Qed.

(** X18.  The piece buttons only ever select a symbol that [add_piece]
    knows: after a click in their column [selected_piece_type] is one of
    the twelve piece letters or [None], or it is what it was -- between
    two buttons and below the last one nothing is selected or cleared. *)
Theorem piece_button_selects_known (y : Z) (selected : option string) :
  (forall s, selected = Some s ->
             dict_get ManualPositionSetup.piece_mapping s <> None) ->
  (forall s, piece_button y selected = Some s ->
             dict_get ManualPositionSetup.piece_mapping s <> None)
  /\ (530 <= y <= 560 -> piece_button y selected = None)
  /\ (y < 50 \/ 560 < y \/ (exists k, 0 <= k < 12 /\ 80 + 40 * k < y < 90 + 40 * k) ->
      piece_button y selected = selected).
Proof.
  intros Hknown. split; [|split].
  - intros s Hs.
    destruct (piece_button_known y selected _ Hs) as [Heq|[Hnone|(s' & pt & Hs' & Hpt & _)]].
    + by apply Hknown.
    + done.
    + injection Hs' as <-. by rewrite Hpt.
  - intros Hy. unfold piece_button.
    repeat match goal with
           | |- context [(?a <=? y) && (y <=? ?b)] =>
               destruct (Z.leb_spec a y), (Z.leb_spec y b); simpl; try lia; try done
           end.
  - intros Hy. unfold piece_button.
    repeat match goal with
           | |- context [(?a <=? y) && (y <=? ?b)] =>
               destruct (Z.leb_spec a y), (Z.leb_spec y b); simpl;
               try done; try (exfalso; destruct Hy as [?|[?|(k & ? & ?)]]; lia)
           end.
Qed.

End PointFacts.

Section ClickFacts.
Context {E : RulesEngine} {Ed : BoardEditor E}.
Import ChessUI.
Implicit Types (ui : UI) (square from : Square).

(** X19.  In setup mode a click on the board never fails and only edits
    the clicked square of the position being set up: with a piece letter
    selected the square then holds that piece, with nothing selected it is
    empty; the game is not touched. *)
Theorem setup_click_edits ui (x y square : Z) :
  EditsOneSquare E Ed ->
  setup_mode ui = true ->
  square_at_point x y = Some square ->
  (forall s, selected_piece_type ui = Some s ->
             dict_get ManualPositionSetup.piece_mapping s <> None) ->
  exists ui',
    board_click ui (Z.to_nat square) = Return ui'
    /\ game ui' = game ui /\ setup_mode ui' = true
    /\ selected_piece_type ui' = selected_piece_type ui
    /\ forall sq',
         piece_at (ManualPositionSetup.board (position_setup ui')) sq'
         = if bool_decide (sq' = Z.to_nat square)
           then s ← selected_piece_type ui;
                pt ← dict_get ManualPositionSetup.piece_mapping s;
                Some {| piece_type := pt; color := isupper s |}
           else piece_at (ManualPositionSetup.board (position_setup ui)) sq'.
Proof.
  intros Hedit Hmode Hpoint Hknown.
  assert (Hsq : (Z.to_nat square < 64)%nat).
  { destruct (square_at_point_Some x y square Hpoint) as (_ & _ & ? & _). lia. }
  unfold board_click. rewrite Hmode.
  destruct (remove_piece_run (position_setup ui) (Z.to_nat square) Hedit Hsq)
    as (sr & Hsr & Hpieces).
  destruct (selected_piece_type ui) as [s|] eqn:Hsel.
  - destruct (dict_get ManualPositionSetup.piece_mapping s) as [pt|] eqn:Hpt;
      [|by destruct (Hknown s)].
    assert (Htruthy : truthy (Some s) = true).
    { apply piece_mapping_letters in Hpt. rewrite Hpt. done. }
    rewrite Htruthy. simpl in *.
    destruct (add_piece_run (position_setup ui) s pt (Z.to_nat square) Hedit Hpt Hsq)
      as (sa & -> & Hsa).
    eexists. split; [done|]. simpl. repeat split; try done.
    intros sq'. rewrite Hsa. by rewrite Hpt.
  - simpl. rewrite Hsr. eexists. split; [done|]. simpl. repeat split; try done.
Qed.

Lemma listed_simple_move (b : Board) from square :
  ReadsBackLegalMoves E -> (from < 64)%nat -> (square < 64)%nat ->
  uci (mk_move from square) ∈ map uci (legal_moves b)
  <-> mk_move from square ∈ legal_moves b.
Proof.
  intros Hread Hfrom Hsquare. rewrite list_elem_of_In, in_map_iff. split.
  - intros (m & Hm & Hlegal%list_elem_of_In).
    pose proof (Hread _ _ Hlegal) as Hparse. rewrite Hm in Hparse.
    by rewrite <- (from_uci_mk_move _ _ _ Hfrom Hsquare Hparse).
  - intros Hlegal. exists (mk_move from square). by rewrite <- list_elem_of_In.
Qed.

Lemma game_click_run ui from square :
  ReadsBackLegalMoves E ->
  setup_mode ui = false -> selected_square ui = Some from ->
  (from < 64)%nat -> (square < 64)%nat ->
  exists ui',
    board_click ui square = Return ui'
    /\ selected_square ui' = None /\ position_setup ui' = position_setup ui
    /\ setup_mode ui' = false
    /\ (mk_move from square ∈ legal_moves (board (game ui)) ->
        game ui' = move_result (game ui) (mk_move from square)
        /\ hint_move ui' = None)
    /\ (mk_move from square ∉ legal_moves (board (game ui)) ->
        game ui' = game ui /\ hint_move ui' = hint_move ui).
Proof.
  intros Hread Hmode Hsel Hfrom Hsquare.
  unfold board_click. rewrite Hmode, Hsel. eexists. split; [done|].
  pose proof (listed_simple_move (board (game ui)) from square Hread Hfrom Hsquare)
    as Hlisted.
  unfold get_legal_moves. case_bool_decide as Hin; simpl.
  - apply Hlisted in Hin. split; [done|]. split; [done|]. split; [done|].
    split; [|done]. intros _. split; [|done].
    pose proof (make_move_legal (game ui) _ _ (Hread _ _ Hin) Hin) as Hmove.
    by rewrite Hmove.
  - split; [done|]. split; [done|]. split; [done|]. split; [|done].
    intros Hlegal. by apply Hlisted in Hlegal.
Qed.

(** X20.  In game mode, with a square selected, a click on a second
    square plays the move between the two squares when that move, without
    promotion, is a legal move of the position, and changes nothing of the
    game otherwise; the selection is cleared in both cases.  A move with a
    promotion is therefore never played from the board. *)
Theorem game_click_plays_simple_moves ui from square :
  ReadsBackLegalMoves E ->
  setup_mode ui = false -> selected_square ui = Some from ->
  (from < 64)%nat -> (square < 64)%nat ->
  exists ui',
    board_click ui square = Return ui'
    /\ selected_square ui' = None /\ position_setup ui' = position_setup ui
    /\ (mk_move from square ∈ legal_moves (board (game ui)) ->
        game ui' = move_result (game ui) (mk_move from square)
        /\ hint_move ui' = None)
    /\ (mk_move from square ∉ legal_moves (board (game ui)) ->
        game ui' = game ui /\ hint_move ui' = hint_move ui).
Proof.
  intros Hread Hmode Hsel Hfrom Hsquare.
  destruct (game_click_run ui from square Hread Hmode Hsel Hfrom Hsquare)
    as (ui' & Hclick & Hnone & Hsetup & _ & Hlegal & Hillegal).
  exists ui'. done.
Qed.

Lemma out_of_step_click ui square :
  ReadsBackLegalMoves E -> MovesOwnPieces E ->
  setup_mode ui = false ->
  current_player (game ui) <> turn (board (game ui)) ->
  (forall from, selected_square ui = Some from ->
     (from < 64)%nat
     /\ exists p, piece_at (board (game ui)) from = Some p
                  /\ color p = current_player (game ui)) ->
  (square < 64)%nat ->
  exists ui',
    board_click ui square = Return ui'
    /\ game ui' = game ui /\ setup_mode ui' = false
    /\ (forall from, selected_square ui' = Some from ->
          (from < 64)%nat
          /\ exists p, piece_at (board (game ui')) from = Some p
                       /\ color p = current_player (game ui')).
Proof.
  intros Hread Hown Hmode Hstep Hsel Hsquare.
  destruct (selected_square ui) as [from|] eqn:Hselected.
  - destruct (Hsel from eq_refl) as (Hfrom & p & Hp & Hcolor).
    destruct (game_click_run ui from square Hread Hmode Hselected
                Hfrom Hsquare) as (ui' & Hclick & Hnone & _ & Hmode' & _ & Hillegal).
    assert (Hnot : mk_move from square ∉ legal_moves (board (game ui))).
    { intros Hlegal. destruct (Hown _ _ Hlegal) as (p' & Hp' & Hcolor').
      simpl in Hp'. congruence. }
    exists ui'. split; [done|]. destruct (Hillegal Hnot) as [Hgame _].
    split; [done|]. split; [done|]. by rewrite Hnone.
  - unfold board_click. rewrite Hmode, Hselected.
    destruct (piece_at (board (game ui)) square) as [piece|] eqn:Hpiece.
    + case_bool_decide as Hcolor.
      * eexists. split; [done|]. simpl. split; [done|]. split; [done|].
        intros from' [= <-]. eauto.
      * eexists. split; [done|]. rewrite Hselected. done.
    + eexists. split; [done|]. rewrite Hselected. done.
Qed.

(** X21.  When [current_player] is not the side that the board has to
    move -- as after a skipped turn, or after the capture that earns an
    extra move -- no sequence of clicks on the board changes the game: only
    pieces of [current_player] can be selected, and only pieces of the
    other side have legal moves. *)
Theorem out_of_step_clicks_change_nothing ui squares :
  ReadsBackLegalMoves E -> MovesOwnPieces E ->
  setup_mode ui = false -> selected_square ui = None ->
  current_player (game ui) <> turn (board (game ui)) ->
  Forall (fun square => (square < 64)%nat) squares ->
  exists ui', board_clicks ui squares = Return ui' /\ game ui' = game ui.
Proof.
  intros Hread Hown Hmode Hnone Hstep Hsquares.
  assert (Hsel : forall from, selected_square ui = Some from ->
            (from < 64)%nat
            /\ exists p, piece_at (board (game ui)) from = Some p
                         /\ color p = current_player (game ui))
    by (by rewrite Hnone).
  clear Hnone. revert ui Hmode Hstep Hsel.
  induction Hsquares as [|square squares Hsquare _ IH]; intros ui Hmode Hstep Hsel.
  - by exists ui.
  - destruct (out_of_step_click ui square Hread Hown Hmode Hstep Hsel Hsquare)
      as (ui1 & Hclick & Hgame & Hmode1 & Hsel1).
    cbn [board_clicks]. rewrite Hclick.
    destruct (IH ui1 Hmode1) as (ui' & Hrest & Hgame'); [by rewrite Hgame|done|].
    exists ui'. split; [done|]. by rewrite Hgame', Hgame.
Qed.

End ClickFacts.

(* ===================================================================== *)
(** * The engine of the first program *)
(* ===================================================================== *)

Section FirstEngineFacts.
Context {E : RulesEngine} {C : CaptureRules E}.
Import PointsChessEngine.
Implicit Types (s : Search) (e : Engine) (m : Move).

(** Any score is above minus infinity and below infinity. *)
Lemma above_minus_inf (z : Z) : (PInt z >? - PyNum.inf)%num = true.
Proof. reflexivity. Qed.

Lemma below_inf (z : Z) : (PInt z <? PyNum.inf)%num = true.
Proof. reflexivity. Qed.

(** Taking the points back after adding them leaves the engine as it
    was. *)
Lemma undo_add_capture s captured_piece :
  undo_capture (add_capture s captured_piece) captured_piece = s.
Proof.
  unfold add_capture, undo_capture. destruct captured_piece as [piece|]; [|done].
  destruct s as [[wp bp mm mx ex] b saved]; simpl.
  destruct (turn b) eqn:Hturn; simpl;
    unfold set_engine, set_white_points, set_black_points; simpl;
    rewrite Hturn; simpl; do 2 f_equal; lia.
Qed.

Lemma sort_true_first_elem {A} (key : A -> bool) (l : list A) (x : A) :
  In x (sort_true_first key l) <-> In x l.
Proof.
  unfold sort_true_first. rewrite in_app_iff, !filter_In.
  destruct (key x); simpl; intuition congruence.
Qed.

(** What one iteration leaves before the comparison: the score of the
    move and the state as it was. *)
Lemma best_move_loop_step (recur : Recur) depth is_last_move move rest best_score
    best_move s :
  push_ok (board s) move = true ->
  (is_last_move = true \/ 1 < depth ->
   forall s', exists mv, recur s' (depth - 1) false = Some (Return (mv, s'))) ->
  exists score : Z,
    best_move_loop recur depth is_last_move (move :: rest) best_score best_move s
    = (if bool_decide (turn (board s) = WHITE) then
         if (PInt score >? best_score)%num
         then best_move_loop recur depth is_last_move rest (PInt score) (Some move) s
         else best_move_loop recur depth is_last_move rest best_score best_move s
       else
         if (PInt score <? best_score)%num
         then best_move_loop recur depth is_last_move rest (PInt score) (Some move) s
         else best_move_loop recur depth is_last_move rest best_score best_move s)
    /\ best_move_loop (fun _ _ _ => None) 1 false (move :: rest) best_score best_move s
       = (if bool_decide (turn (board s) = WHITE) then
            if (PInt score >? best_score)%num
            then best_move_loop (fun _ _ _ => None) 1 false rest (PInt score) (Some move) s
            else best_move_loop (fun _ _ _ => None) 1 false rest best_score best_move s
          else
            if (PInt score <? best_score)%num
            then best_move_loop (fun _ _ _ => None) 1 false rest (PInt score) (Some move) s
            else best_move_loop (fun _ _ _ => None) 1 false rest best_score best_move s).
Proof.
  intros Hok Hrecur.
  set (captured_piece := piece_at (board s) (to_square move)).
  set (s1 := {| engine := engine s; board := push (board s) move;
                saved := board s :: saved s |}).
  set (s2 := add_capture s1 captured_piece).
  assert (Hback : pop_board (undo_capture s2 captured_piece) = Return s).
  { unfold s2. rewrite undo_add_capture. unfold pop_board, s1. simpl. by destruct s. }
  exists (if is_checkmate (board s2)
          then (if bool_decide (turn (board s2) = BLACK) then 10000 else -10000)
          else evaluate_position (engine s2) (board s2)).
  cbn [best_move_loop]. unfold push_board. rewrite Hok.
  fold captured_piece. fold s1. fold s2.
  destruct (is_checkmate (board s2)) eqn:Hmate.
  - rewrite Hback. done.
  - assert (Hdeeper : is_last_move = true \/ 1 < depth ->
              score_deeper recur s2 depth
              = Some (Return (PInt (evaluate_position (engine s2) (board s2)), s2))).
    { intros H. unfold score_deeper. destruct (Hrecur H s2) as (mv & ->). done. }
    change (1 <? 1) with false. cbn [andb].
    destruct (is_last_move && bool_decide (captured_piece <> None)
              && is_piece_supported (board s2) move) eqn:Hlast.
    + rewrite Hdeeper, Hback; [done|]. left.
      by destruct is_last_move.
    + destruct (Z.ltb_spec 1 depth).
      * rewrite Hdeeper, Hback; [done|by right].
      * rewrite Hback. done.
Qed.

(** With recursive calls that return and restore, the loop is the loop of
    a call at depth 1; it returns and restores too; and it returns a move
    of the list unless the list is empty and no move was chosen before. *)
Lemma best_move_loop_flat (recur : Recur) depth is_last_move moves best_score
    best_move s :
  Forall (fun move => push_ok (board s) move = true) moves ->
  (is_last_move = true \/ 1 < depth ->
   forall s', exists mv, recur s' (depth - 1) false = Some (Return (mv, s'))) ->
  best_move_loop recur depth is_last_move moves best_score best_move s
  = best_move_loop (fun _ _ _ => None) 1 false moves best_score best_move s
  /\ exists mv,
       best_move_loop recur depth is_last_move moves best_score best_move s
       = Some (Return (mv, s))
       /\ (mv = best_move \/ exists m, mv = Some m /\ In m moves).
Proof.
  intros Hmoves Hrecur. revert best_score best_move.
  induction Hmoves as [|move rest Hok _ IH]; intros best_score best_move.
  - split; [done|]. exists best_move. split; [done|by left].
  - destruct (best_move_loop_step recur depth is_last_move move rest best_score
                best_move s Hok Hrecur) as (score & -> & ->).
    assert (Hcons : forall mv,
      (mv = Some move \/ exists m, mv = Some m /\ In m rest) ->
      mv = best_move \/ exists m, mv = Some m /\ In m (move :: rest)).
    { intros mv [->|(m & -> & Hm)]; right; eexists; split; try done;
        [by left|by right]. }
    assert (Hkeep : forall mv,
      (mv = best_move \/ exists m, mv = Some m /\ In m rest) ->
      mv = best_move \/ exists m, mv = Some m /\ In m (move :: rest)).
    { intros mv [->|(m & -> & Hm)]; [by left|right]. eexists. split; [done|by right]. }
    destruct (bool_decide (turn (board s) = WHITE)).
    + destruct (PInt score >? best_score)%num.
      * destruct (IH (PInt score) (Some move)) as (-> & mv & -> & Hmv).
        split; [done|]. exists mv. split; [done|]. by apply Hcons.
      * destruct (IH best_score best_move) as (-> & mv & -> & Hmv).
        split; [done|]. exists mv. split; [done|]. by apply Hkeep.
    + destruct (PInt score <? best_score)%num.
      * destruct (IH (PInt score) (Some move)) as (-> & mv & -> & Hmv).
        split; [done|]. exists mv. split; [done|]. by apply Hcons.
      * destruct (IH best_score best_move) as (-> & mv & -> & Hmv).
        split; [done|]. exists mv. split; [done|]. by apply Hkeep.
Qed.

(** The first move of the list is always taken as the best so far. *)
Lemma best_move_call_first (recur : Recur) depth is_last_move s :
  PushesLegalMoves E ->
  (is_last_move = true \/ 1 < depth ->
   forall s', exists mv, recur s' (depth - 1) false = Some (Return (mv, s'))) ->
  best_move_call recur s depth is_last_move
  = best_move_call (fun _ _ _ => None) s 1 false
  /\ exists mv,
       best_move_call recur s depth is_last_move = Some (Return (mv, s))
       /\ (mv = None <-> legal_moves (board s) = [])
       /\ (forall m, mv = Some m -> m ∈ legal_moves (board s)).
Proof.
  intros Hpush Hrecur. unfold best_move_call.
  set (moves := sort_true_first (is_capture (board s)) (legal_moves (board s))).
  assert (Hin : forall m, In m moves <-> m ∈ legal_moves (board s)).
  { intros m. unfold moves. by rewrite sort_true_first_elem, list_elem_of_In. }
  assert (Hmoves : Forall (fun move => push_ok (board s) move = true) moves).
  { apply Forall_forall. intros m Hm%list_elem_of_In%Hin. by apply Hpush. }
  assert (Hnil : moves = [] <-> legal_moves (board s) = []).
  { split; intros Hempty.
    - destruct (legal_moves (board s)) as [|m l]; [done|].
      assert (Hm : In m moves) by (apply Hin; by left).
      by rewrite Hempty in Hm.
    - destruct moves as [|m l] eqn:Hl; [done|].
      assert (Hm : m ∈ legal_moves (board s)) by (apply Hin; by left).
      rewrite Hempty in Hm. by apply not_elem_of_nil in Hm. }
  set (best_score := if bool_decide (turn (board s) = WHITE)
                     then (- PyNum.inf)%num else PyNum.inf).
  destruct (best_move_loop_flat recur depth is_last_move moves best_score None s
              Hmoves Hrecur) as (Hflat & mv & Hrun & Hmv).
  split; [exact Hflat|]. exists mv. split; [exact Hrun|].
  destruct moves as [|move rest] eqn:Hlist.
  - injection Hrun as <-. split; [by rewrite <- Hnil|done].
  - assert (Hsome : exists m, mv = Some m /\ In m (move :: rest)).
    { inversion Hmoves as [|? ? Hok Hrest]; subst.
      destruct (best_move_loop_step recur depth is_last_move move rest best_score
                  None s Hok Hrecur) as (score & Hstep & _).
      rewrite Hstep in Hrun. unfold best_score in Hrun.
      destruct (bool_decide (turn (board s) = WHITE));
        rewrite ?above_minus_inf, ?below_inf in Hrun;
        destruct (best_move_loop_flat recur depth is_last_move rest (PInt score)
                    (Some move) s Hrest Hrecur) as (_ & mv' & Hrun' & Hmv');
        rewrite Hrun' in Hrun; injection Hrun as <-;
        (destruct Hmv' as [->|(m & -> & Hm)];
         [exists move; split; [done|by left]|exists m; split; [done|by right]]). }
    destruct Hsome as (m & -> & Hm). split.
    + split; [done|]. intros Hempty%Hnil. done.
    + intros m' [= <-]. by apply Hin.
Qed.

(** Within a sufficient allowance every call returns, restores the state
    and gives the result of a call at depth 1. *)
Lemma calculate_best_move_within_flat (calls : nat) s depth is_last_move :
  PushesLegalMoves E ->
  nested_calls depth is_last_move <= Z.of_nat calls ->
  calculate_best_move_within calls s depth is_last_move
  = best_move_call (fun _ _ _ => None) s 1 false
  /\ exists mv,
       calculate_best_move_within calls s depth is_last_move = Some (Return (mv, s))
       /\ (mv = None <-> legal_moves (board s) = [])
       /\ (forall m, mv = Some m -> m ∈ legal_moves (board s)).
Proof.
  intros Hpush. revert s depth is_last_move.
  induction calls as [|calls IH]; intros s depth is_last_move Hcalls.
  - unfold nested_calls in Hcalls. destruct is_last_move; lia.
  - cbn [calculate_best_move_within]. apply best_move_call_first; [done|].
    intros Hdeeper s'.
    destruct (IH s' (depth - 1) false) as (_ & mv & Hrun & _).
    + unfold nested_calls in *. destruct Hdeeper as [->|?]; lia.
    + eauto.
Qed.

(** X22.  [calculate_best_move] undoes what it tries: with a library
    that pushes its legal moves, every call returns, and the board, its
    stack of saved positions and the engine's points are afterwards what
    they were before.  It returns no move exactly when the position has no
    legal move, and otherwise a legal move of the position. *)
Theorem calculate_best_move_restores s depth is_last_move :
  PushesLegalMoves E ->
  exists mv,
    calculate_best_move s depth is_last_move = Some (Return (mv, s))
    /\ (mv = None <-> legal_moves (board s) = [])
    /\ (forall m, mv = Some m -> m ∈ legal_moves (board s)).
Proof.
  intros Hpush. unfold calculate_best_move.
  apply calculate_best_move_within_flat; [done|].
  unfold nested_calls. destruct is_last_move; lia.
Qed.

(** X23.  The search depth and the last-move flag have no effect on the
    move that [calculate_best_move] returns: the deeper calls are made and
    their results are dropped, so that each move is scored by the position
    right after it, and a call at any depth returns what a call at depth 1
    returns. *)
Theorem calculate_best_move_ignores_depth s depth is_last_move :
  PushesLegalMoves E ->
  calculate_best_move s depth is_last_move = calculate_best_move s 1 false.
Proof.
  intros Hpush. unfold calculate_best_move.
  destruct (calculate_best_move_within_flat (2 + Z.to_nat depth) s depth is_last_move
              Hpush) as [-> _]; [unfold nested_calls; destruct is_last_move; lia|].
  destruct (calculate_best_move_within_flat (2 + Z.to_nat 1) s 1 false Hpush)
    as [-> _]; [unfold nested_calls; lia|].
  done.
Qed.

End FirstEngineFacts.

Section WidgetFacts.
Import ChessBoardWidget.

(** X24.  On a widget with a width and a height,
    [get_square_at_position] gives a square exactly for the points with
    [0 <= x < width] and [0 < y <= height], and the square is then one of
    the 64: the row of points at [y = 0] is outside, the row at
    [y = height] inside. *)
Theorem get_square_at_position_spec (width height pos_x pos_y : Z) :
  0 < width -> 0 < height ->
  (forall square, get_square_at_position width height pos_x pos_y = Some (Some square) ->
     0 <= square < 64
     /\ square mod 8 = pos_x * 8 / width
     /\ square / 8 = (height - pos_y) * 8 / height)
  /\ ((exists square,
         get_square_at_position width height pos_x pos_y = Some (Some square))
      <-> 0 <= pos_x < width /\ 0 < pos_y <= height)
  /\ get_square_at_position width height pos_x pos_y <> None.
Proof.
  intros Hw Hh. unfold get_square_at_position.
  rewrite (proj2 (Z.eqb_neq width 0)), (proj2 (Z.eqb_neq height 0)) by lia.
  cbn [orb].
  set (x := pos_x * 8 / width). set (y := (height - pos_y) * 8 / height).
  assert (Hx : 0 <= x <= 7 <-> 0 <= pos_x < width).
  { unfold x. split.
    - intros [Hlo Hhi]. split.
      + destruct (Z.lt_ge_cases pos_x 0) as [Hneg|]; [|done].
        assert (pos_x * 8 / width < 0) by (apply Z.div_lt_upper_bound; lia). lia.
      + destruct (Z.lt_ge_cases pos_x width) as [|Hbig]; [done|].
        assert (8 <= pos_x * 8 / width) by (apply Z.div_le_lower_bound; lia). lia.
    - intros [Hlo Hhi]. split.
      + apply Z.div_pos; lia.
      + assert (pos_x * 8 / width < 8) by (apply Z.div_lt_upper_bound; lia). lia. }
  assert (Hy : 0 <= y <= 7 <-> 0 < pos_y <= height).
  { unfold y. split.
    - intros [Hlo Hhi]. split.
      + destruct (Z.lt_ge_cases 0 pos_y) as [|Hbig]; [done|].
        assert (8 <= (height - pos_y) * 8 / height)
          by (apply Z.div_le_lower_bound; lia). lia.
      + destruct (Z.le_gt_cases pos_y height) as [|Hneg]; [done|].
        assert ((height - pos_y) * 8 / height < 0)
          by (apply Z.div_lt_upper_bound; lia). lia.
    - intros [Hlo Hhi]. split.
      + apply Z.div_pos; lia.
      + assert ((height - pos_y) * 8 / height < 8)
          by (apply Z.div_lt_upper_bound; lia). lia. }
  destruct (Z.ltb_spec x 0), (Z.gtb_spec x 7), (Z.ltb_spec y 0), (Z.gtb_spec y 7);
    cbn [orb]; (split; [|split]); try done;
    try (intros square [= <-]);
    try (split; [intros (square & [=])|intros [? ?]; lia]).
  - split; [lia|]. split.
    + rewrite Z.add_comm, Z.mod_add by lia. apply Z.mod_small. lia.
    + rewrite Z.add_comm, Z.div_add by lia. rewrite (Z.div_small x 8) by lia. lia.
  - split; [intros _; lia|]. intros _. eauto.
Qed.

End WidgetFacts.

(* ===================================================================== *)
(** * The concrete board keeps the further contracts *)
(* ===================================================================== *)

Section MoreChessFacts.
Import Chess.
Implicit Types (b : Position) (m : Move).

Lemma own_color b pawn sq :
  own b pawn sq = true -> exists p, piece_at b sq = Some p /\ color p = side b.
Proof.
  unfold own. destruct (piece_at b sq) as [p|]; [|done].
  intros [Hc%bool_decide_eq_true _]%andb_true_iff. eauto.
Qed.

Lemma piece_moves_own b m : In m (piece_moves b) -> moves_own_piece b m.
Proof.
  unfold piece_moves. intros (from & _ & Hm)%in_flat_map.
  destruct (own b false from) eqn:Hown; [|done].
  apply in_map_iff in Hm as (to & <- & _). by eapply own_color.
Qed.

Lemma has_piece_color b c pt sq :
  has_piece b c pt sq = true -> exists p, piece_at b sq = Some p /\ color p = c.
Proof. unfold has_piece. intros ->%bool_decide_eq_true. eauto. Qed.

Lemma castling_moves_own b m : In m (castling_moves b) -> moves_own_piece b m.
Proof.
  unfold castling_moves, moves_own_piece. intros [Hm|Hm]%in_app_iff.
  - destruct (_ && _) eqn:Hc in Hm; [|done]. destruct Hm as [<-|[]].
    rewrite !andb_true_iff in Hc. destruct Hc as (((((Hc & _) & _) & _) & _) & _).
    unfold can_castle_kingside in Hc. rewrite !andb_true_iff in Hc.
    destruct Hc as [[_ Hk] _]. apply has_piece_color in Hk.
    by destruct (side b).
  - destruct (_ && _) eqn:Hc in Hm; [|done]. destruct Hm as [<-|[]].
    rewrite !andb_true_iff in Hc.
    destruct Hc as ((((((Hc & _) & _) & _) & _) & _) & _).
    unfold can_castle_queenside in Hc. rewrite !andb_true_iff in Hc.
    destruct Hc as [[_ Hk] _]. apply has_piece_color in Hk.
    by destruct (side b).
Qed.

Lemma pawn_captures_own b m : In m (pawn_captures b) -> moves_own_piece b m.
Proof.
  unfold pawn_captures. intros (from & _ & Hm)%in_flat_map.
  destruct (own b true from) eqn:Hown; [|done].
  apply in_flat_map in Hm as (to & _ & Hm).
  apply pawn_moves_to_ok in Hm as (Hf & _ & _).
  unfold moves_own_piece. rewrite Hf. by eapply own_color.
Qed.

Lemma pawn_single_pushes_own b m : In m (pawn_single_pushes b) -> moves_own_piece b m.
Proof.
  unfold pawn_single_pushes. intros (from & _ & Hm)%in_flat_map.
  destruct (_ && _) eqn:Hc in Hm; [|done].
  rewrite !andb_true_iff in Hc. destruct Hc as (((Hown & _) & _) & _).
  apply pawn_moves_to_ok in Hm as (Hf & _ & _).
  unfold moves_own_piece. rewrite Hf. by eapply own_color.
Qed.

Lemma pawn_double_pushes_own b m : In m (pawn_double_pushes b) -> moves_own_piece b m.
Proof.
  unfold pawn_double_pushes. intros (from & _ & Hm)%in_flat_map.
  destruct (_ && _) eqn:Hc in Hm; [|done].
  rewrite !andb_true_iff in Hc. destruct Hc as (((Hown & _) & _) & _).
  destruct Hm as [<-|[]]. by eapply own_color.
Qed.

Lemma en_passant_moves_own b m : In m (en_passant_moves b) -> moves_own_piece b m.
Proof.
  unfold en_passant_moves. destruct (ep_square b) as [target|]; [|done].
  destruct (bool_decide _); [|done].
  intros (from & _ & Hm)%in_flat_map.
  destruct (_ && _) eqn:Hc in Hm; [|done]. destruct Hm as [<-|[]].
  rewrite !andb_true_iff in Hc. destruct Hc as ((Hown & _) & _).
  by eapply own_color.
Qed.

Lemma legal_moves_own b m : In m (Chess.legal_moves b) -> moves_own_piece b m.
Proof.
  intros H.
  assert (Hp : In m (pseudo_legal_moves b)).
  { unfold Chess.legal_moves in H. destruct (Chess.is_check b).
    - apply in_app_iff in H as [H|H]; apply filter_In in H as [H _];
        by apply filter_In in H as [H _].
    - by apply filter_In in H as [H _]. }
  unfold pseudo_legal_moves in Hp. rewrite !in_app_iff in Hp.
  destruct Hp as [?|[?|[?|[?|[?|?]]]]];
    eauto using piece_moves_own, castling_moves_own, pawn_captures_own,
      pawn_single_pushes_own, pawn_double_pushes_own, en_passant_moves_own.
Qed.

Lemma chess_board_well_formed : WellFormedLegalMoves chess_board.
Proof. intros b m Hm. by apply list_elem_of_In, legal_moves_ok in Hm as [Hm _]. Qed.

Lemma chess_board_moves_own_pieces : MovesOwnPieces chess_board.
Proof. intros b m Hm. by apply list_elem_of_In, legal_moves_own in Hm. Qed.

Lemma chess_board_push_passes_turn : PushPassesTurn chess_board.
Proof.
  intros b m Hm. apply list_elem_of_In, legal_moves_ok in Hm as [_ Hm].
  simpl in *. unfold Chess.push. cbv zeta. rewrite from_chess960_from_square.
  by destruct (Chess.piece_at b (from_square m)).
Qed.

Lemma completed_length (pl : list (option Piece)) : (64 <= length (completed pl))%nat.
Proof. unfold completed. rewrite length_app, length_replicate. lia. Qed.

Lemma completed_lookup (pl : list (option Piece)) (sq : Square) :
  mjoin (completed pl !! sq) = mjoin (pl !! sq).
Proof.
  unfold completed. destruct (decide (sq < length pl)%nat) as [Hlt|Hge].
  - by rewrite lookup_app_l.
  - rewrite lookup_app_r by lia. rewrite (lookup_ge_None_2 pl) by lia.
    destruct (replicate _ _ !! _) as [p|] eqn:Hp; [|done].
    by apply lookup_replicate in Hp as [-> _].
Qed.

Lemma chess_board_edits_one_square : EditsOneSquare chess_board chess_board_editor.
Proof.
  assert (Hedit : forall b sq p sq', (sq < 64)%nat ->
    Chess.piece_at (edit_square b sq p) sq'
    = if bool_decide (sq' = sq) then p else Chess.piece_at b sq').
  { intros b sq p sq' Hsq. unfold Chess.piece_at, edit_square, set_square. simpl.
    pose proof (completed_length (placement b)).
    case_bool_decide as Heq.
    - subst sq'. by rewrite list_lookup_insert_eq by lia.
    - rewrite list_lookup_insert_ne by done. apply completed_lookup. }
  split; simpl; intros; by rewrite Hedit.
Qed.

End MoreChessFacts.

(* ===================================================================== *)
(** * The further properties at work *)
(* ===================================================================== *)

(** A drawn game stays over when turns are skipped and moves tried. *)
Lemma game_over_is_final_witness :
  let ops := [SkipTurn; MakeMove "e1d1"; SkipTurn] in
  game_over quiet_game = true
  /\ game_over (run ops quiet_game) = true
  /\ (evaluate_position (run ops quiet_game) = PInt 10000
      \/ evaluate_position (run ops quiet_game) = PInt (-10000)
      \/ evaluate_position (run ops quiet_game) = PInt 0).
Proof.
  intros ops.
  assert (Hover : game_over quiet_game = true) by (vm_compute; reflexivity).
  split; [exact Hover|]. exact (game_over_is_final ops quiet_game Hover).
Defined.

Lemma result_recorded_invariant_witness :
  result_recorded new_game
  /\ result_recorded (run [MakeMove "e2e4"; SkipTurn; SkipTurn] new_game).
Proof.
  assert (Hnew : result_recorded new_game).
  { split; intros H; vm_compute in H; done. }
  split; [exact Hnew|]. exact (result_recorded_invariant _ new_game Hnew).
Defined.

Lemma extra_move_flag_only_when_over_witness :
  let ops := [MakeMove "a1a6"; MakeMove "b8a6"] in
  extra_move_granted defended_pawn = false
  /\ (extra_move_granted (run ops defended_pawn) = false
      \/ game_over (run ops defended_pawn) = true).
Proof.
  intros ops.
  assert (Hdown : extra_move_granted defended_pawn = false) by (vm_compute; reflexivity).
  split; [exact Hdown|].
  exact (extra_move_flag_only_when_over ops defended_pawn (or_introl Hdown)).
Defined.


Lemma moves_played_bounded_in_play_witness :
  fresh defended_pawn_start
  /\ game_over (run defended_pawn_line defended_pawn_start) = false
  /\ ((moves_played (run defended_pawn_line defended_pawn_start)).[white]
      <= (moves_played (apply_op (run defended_pawn_line defended_pawn_start)
                                 (MakeMove "b8a6"))).[white]
      <= max_moves defended_pawn_start + 1)
  /\ (moves_played (apply_op (run defended_pawn_line defended_pawn_start)
                             (MakeMove "b8a6"))).[white] = 7.
Proof.
  assert (Hfresh : fresh defended_pawn_start).
  { repeat split; vm_compute; [reflexivity..|discriminate]. }
  assert (Hrun : game_over (run defended_pawn_line defended_pawn_start) = false)
    by (vm_compute; reflexivity).
  split; [exact Hfresh|]. split; [exact Hrun|].
  split; [|vm_compute; reflexivity].
  exact (proj2 (moves_played_bounded_in_play defended_pawn_line defended_pawn_start white)
               Hfresh (MakeMove "b8a6") Hrun).
Defined.

Lemma make_move_accepts_listed_moves_witness :
  ((make_move may_castle "e1h1").1 = true <->
   "e1h1"%string ∈ get_legal_moves may_castle
   \/ exists (origin : Square) (castling : string),
        (("e1h1"%string, origin, castling)
           ∈ [("e1h1", E1, "e1g1"); ("e1a1", E1, "e1c1");
              ("e8h8", E8, "e8g8"); ("e8a8", E8, "e8c8")]%string)
        /\ king_on (board may_castle) origin = true
        /\ castling ∈ get_legal_moves may_castle)
  /\ ("e1h1"%string ∉ get_legal_moves may_castle)
  /\ ("e1g1"%string ∈ get_legal_moves may_castle)
  /\ (make_move may_castle "e1h1").1 = true.
Proof.
  split; [exact (make_move_accepts_listed_moves may_castle _ chess_board_well_formed)|].
  split; [decide_closed|]. split; [decide_closed|]. vm_compute. reflexivity.
Defined.

(** ** Stores of several games *)

Lemma add_game_extends (st : Store) (g : Game) : store_extends st (add_game st g).
Proof. unfold add_game. repeat split; simpl; by apply prefix_app_r. Qed.

(** Both games of [world_of [g1; g2]] are there. *)
Lemma load_world_of_two (g1 g2 : Game) :
  load_game (store (world_of [g1; g2])) 0 = Some g1
  /\ load_game (store (world_of [g1; g2])) 1 = Some g2.
Proof.
  split.
  - eapply load_game_extends; [apply add_game_extends|].
    exact (load_add_game {| games := []; boards := []; dicts := [] |} g1).
  - exact (load_add_game (add_game {| games := []; boards := []; dicts := [] |} g1) g2).
Qed.

(** The games that took a pawn and a queen have one signature: their
    boards and counters are the same. *)
Lemma position_hash_determines_witness :
  let w := world_of [took_pawn; took_queen] in
  load_game (store w) 0 = Some took_pawn /\ load_game (store w) 1 = Some took_queen
  /\ exists h1 h2,
       _get_position_hash 0 w = (Return h1, w) /\ _get_position_hash 1 w = (Return h2, w)
       /\ (h1 = h2 <->
           fen (board took_pawn) = fen (board took_queen)
           /\ moves_played took_pawn = moves_played took_queen).
Proof.
  intros w. destruct (load_world_of_two took_pawn took_queen) as [H0 H1].
  split; [exact H0|]. split; [exact H1|].
  exact (position_hash_determines w 0%nat 1%nat took_pawn took_queen H0 H1).
Defined.

Lemma clone_game_copies_witness :
  let w := world_of [rook_and_pawn] in
  load_game (store w) 0 = Some rook_and_pawn
  /\ exists game_copy w1 w2,
       _clone_game 0 w = (Return game_copy, w1)
       /\ game_copy = length (games (store w))
       /\ load_game (store w1) game_copy = Some (clone_of rook_and_pawn)
       /\ load_game (store w1) 0 = Some rook_and_pawn
       /\ transposition_table w1 = transposition_table w /\ ticks w1 = ticks w
       /\ make_move_at game_copy "a1a7" w1
          = (Return (make_move (clone_of rook_and_pawn) "a1a7").1, w2)
       /\ load_game (store w2) game_copy
          = Some (make_move (clone_of rook_and_pawn) "a1a7").2
       /\ load_game (store w2) 0 = Some rook_and_pawn.
Proof.
  intros w. pose proof (load_world_of_one rook_and_pawn) as Hg.
  split; [exact Hg|]. exact (clone_game_copies w 0%nat rook_and_pawn "a1a7" Hg).
Defined.

(** A call on [took_pawn] at depth 0 leaves its score 1 in the table, and
    a second call returns it whatever it is asked with. *)
Lemma negamax_memoizes_witness :
  let w := world_of [took_pawn] in
  let first :=
    _negamax still_clock 0 0 0 (- PyNum.inf)%num PyNum.inf 1 (PFloat 0) (PInt 5) w in
  let pos_hash := (fen (board took_pawn) ++ str_tally (moves_played took_pawn))%string in
  first.1 = Return (PInt 1)
  /\ (exists e, transposition_table first.2 !! pos_hash = Some e
                /\ score e = PInt 1 /\ (0 <= depth e)%nat)
  /\ (_negamax still_clock 0 0 0 (PInt 7) (PInt 3) (-1) (PFloat 0) (PInt 5) first.2).1
     = Return (PInt 1).
Proof.
  intros w first pos_hash.
  assert (Hfirst : first.1 = Return (PInt 1)) by (vm_compute; reflexivity).
  pose proof (run_eq _ _ _ Hfirst) as Hrun.
  destruct (negamax_memoizes still_clock 0%nat 0%nat took_pawn 0%nat _ _ _ _ _ w _ _
              (load_world_of_one took_pawn) Hrun) as [Hentry Hagain].
  split; [exact Hfirst|]. split; [exact Hentry|].
  apply (Hagain 0%nat (PInt 7) (PInt 3) (-1) (PFloat 0) (PInt 5)); [lia|].
  vm_compute. reflexivity.
Defined.

Lemma order_moves_descending_witness :
  let w := world_of [rook_and_pawn] in
  let ordered := ["a1a7"; "e1f1"; "a1d1"; "e1f2"; "e1e2"; "e1d2"; "e1d1";
                  "a1c1"; "a1b1"; "a1a6"; "a1a5"; "a1a4"; "a1a3"; "a1a2"]%string in
  (_order_moves 0 rook_and_pawn_moves w).1 = Return ordered
  /\ exists scored,
       score_moves 0 rook_and_pawn_moves w
       = (Return scored, (_order_moves 0 rook_and_pawn_moves w).2)
       /\ map fst scored = rook_and_pawn_moves
       /\ ordered = map fst (sort_by_score scored)
       /\ descending (map snd (sort_by_score scored)) = true
       /\ (descending (map snd scored) = true -> ordered = rook_and_pawn_moves).
Proof.
  intros w ordered.
  assert (Hrun : (_order_moves 0 rook_and_pawn_moves w).1 = Return ordered)
    by (vm_compute; reflexivity).
  split; [exact Hrun|].
  exact (order_moves_descending 0%nat rook_and_pawn_moves w ordered _
           (run_eq _ _ _ Hrun)).
Defined.

(** The white king is put on e1 of the empty board. *)
Lemma add_piece_spec_witness :
  let s := ManualPositionSetup.init (position EMPTY_FEN) in
  exists s', ManualPositionSetup.add_piece s "K" 4%nat = Return s'
    /\ forall sq', piece_at (ManualPositionSetup.board s') sq'
         = if bool_decide (sq' = 4%nat)
           then Some {| piece_type := KING; color := isupper "K" |}
           else piece_at (ManualPositionSetup.board s) sq'.
Proof.
  intros s.
  destruct (add_piece_spec s "K" 4%nat chess_board_edits_one_square)
    as (_ & Hadd & _).
  destruct (Hadd KING eq_refl) as (_ & _ & Hin). apply Hin. lia.
Defined.

(** A click at (260, 420), on e1, with the white king selected. *)
Lemma setup_click_edits_witness :
  ChessUI.square_at_point 260 420 = Some 4
  /\ exists ui',
       ChessUI.board_click placing_king (Z.to_nat 4) = Return ui'
       /\ piece_at (ManualPositionSetup.board (ChessUI.position_setup ui')) 4%nat
          = Some {| piece_type := KING; color := WHITE |}.
Proof.
  assert (Hpoint : ChessUI.square_at_point 260 420 = Some 4) by reflexivity.
  split; [exact Hpoint|].
  destruct (setup_click_edits placing_king 260 420 4 chess_board_edits_one_square
              eq_refl Hpoint) as (ui' & Hclick & _ & _ & _ & Hpieces).
  { intros s [= <-]. vm_compute. discriminate. }
  exists ui'. split; [exact Hclick|]. rewrite Hpieces. reflexivity.
Defined.

(** With a1 selected, a click on a7 plays the capture and clears the
    hint; a click on b2 plays nothing. *)
Lemma game_click_plays_simple_moves_witness :
  let ui := ChessUI.set_selected_square (playing rook_and_pawn) (Some 0%nat) in
  mk_move 0 48 ∈ legal_moves (board (ChessUI.game ui))
  /\ (mk_move 0 9 ∉ legal_moves (board (ChessUI.game ui)))
  /\ (exists ui', ChessUI.board_click ui 48%nat = Return ui'
         /\ ChessUI.game ui' = move_result (ChessUI.game ui) (mk_move 0 48)
         /\ ChessUI.hint_move ui' = None)
  /\ (exists ui', ChessUI.board_click ui 9%nat = Return ui'
         /\ ChessUI.game ui' = ChessUI.game ui
         /\ ChessUI.hint_move ui' = ChessUI.hint_move ui).
Proof.
  intros ui.
  assert (H1 : mk_move 0 48 ∈ legal_moves (board (ChessUI.game ui))) by decide_closed.
  assert (H2 : mk_move 0 9 ∉ legal_moves (board (ChessUI.game ui))) by decide_closed.
  split; [exact H1|]. split; [exact H2|]. split.
  - destruct (game_click_plays_simple_moves ui 0%nat 48%nat chess_board_reads_back
                eq_refl eq_refl ltac:(lia) ltac:(lia))
      as (ui' & Hclick & _ & _ & Hlegal & _).
    exists ui'. split; [exact Hclick|]. exact (Hlegal H1).
  - destruct (game_click_plays_simple_moves ui 0%nat 9%nat chess_board_reads_back
                eq_refl eq_refl ltac:(lia) ltac:(lia))
      as (ui' & Hclick & _ & _ & _ & Hillegal).
    exists ui'. split; [exact Hclick|]. exact (Hillegal H2).
Defined.

(** After the capture that earns White the extra move the board has Black
    to move: clicks on the rook, the knight and other squares play
    nothing. *)
Lemma out_of_step_clicks_change_nothing_witness :
  let ui := playing (make_move defended_pawn "a1a6").2 in
  current_player (ChessUI.game ui) = WHITE /\ turn (board (ChessUI.game ui)) = BLACK
  /\ exists ui', ChessUI.board_clicks ui [40; 48; 57; 40; 3; 4]%nat = Return ui'
                 /\ ChessUI.game ui' = ChessUI.game ui.
Proof.
  intros ui.
  assert (Hplayer : current_player (ChessUI.game ui) = WHITE) by (vm_compute; reflexivity).
  assert (Hturn : turn (board (ChessUI.game ui)) = BLACK) by (vm_compute; reflexivity).
  split; [exact Hplayer|]. split; [exact Hturn|].
  assert (Hstep : current_player (ChessUI.game ui) <> turn (board (ChessUI.game ui)))
    by (by rewrite Hplayer, Hturn).
  assert (Hsquares : Forall (fun square => (square < 64)%nat) [40; 48; 57; 40; 3; 4]%nat)
    by (repeat constructor; lia).
  exact (out_of_step_clicks_change_nothing ui _ chess_board_reads_back
           chess_board_moves_own_pieces eq_refl eq_refl Hstep Hsquares).
Defined.

(** A click at height 265 selects the white king; one at height 85, between
    two buttons, leaves the selection. *)
Lemma piece_button_selects_known_witness :
  ChessUI.piece_button 265 None = Some "K"%string
  /\ (forall s, ChessUI.piece_button 265 None = Some s ->
                dict_get ManualPositionSetup.piece_mapping s <> None)
  /\ ChessUI.piece_button 85 (Some "K"%string) = Some "K"%string.
Proof.
  split; [reflexivity|]. split.
  - exact (proj1 (piece_button_selects_known 265 None ltac:(discriminate))).
  - apply (piece_button_selects_known 85 (Some "K"%string)).
    + intros s [= <-]. vm_compute. discriminate.
    + right. right. exists 0. lia.
Defined.

(** Every piece-square table has an entry for each of the 64 squares. *)
Lemma piece_square_tables_length (pt : PieceType) :
  length (piece_square_tables pt) = 64%nat.
Proof. by destruct pt. Qed.

(** On the board of [rook_and_pawn] a call at depth 4 for a last move
    returns what a call at depth 1 returns, the capture a1a7, and leaves
    board and points as they were. *)
Lemma calculate_best_move_restores_witness :
  let s := searching rook_and_pawn in
  exists mv,
    PointsChessEngine.calculate_best_move s 4 true = Some (Return (mv, s))
    /\ (mv = None <-> legal_moves (PointsChessEngine.board s) = [])
    /\ (forall m, mv = Some m -> m ∈ legal_moves (PointsChessEngine.board s)).
Proof.
  intros s.
  exact (calculate_best_move_restores s 4 true chess_board_pushes_legal_moves).
Defined.

Lemma calculate_best_move_ignores_depth_witness :
  let s := searching rook_and_pawn in
  PointsChessEngine.calculate_best_move s 4 true
  = PointsChessEngine.calculate_best_move s 1 false
  /\ PointsChessEngine.chosen_move (PointsChessEngine.calculate_best_move s 1 false)
     = Some (Some (mk_move 0 48)).
Proof.
  intros s. split.
  - exact (calculate_best_move_ignores_depth s 4 true chess_board_pushes_legal_moves).
  - vm_compute. reflexivity.
Defined.

(** On the widget of 600 by 600 points the point (300, 0) is outside the
    board and the point (300, 600) is on e1. *)
Lemma get_square_at_position_spec_witness :
  ChessBoardWidget.get_square_at_position 600 600 300 0 = Some None
  /\ ChessBoardWidget.get_square_at_position 600 600 300 600 = Some (Some 4)
  /\ ((exists square,
         ChessBoardWidget.get_square_at_position 600 600 300 600 = Some (Some square))
      <-> 0 <= 300 < 600 /\ 0 < 600 <= 600).
Proof.
  split; [reflexivity|]. split; [reflexivity|].
  apply (get_square_at_position_spec 600 600 300 600); lia.
Defined.
